(** * nyquist-architect: a shallow embedding of [run.py]

    The calculation engine of [run.py] is a chain of optical formulas over
    Python floats.  Python floats are IEEE-754 binary64 numbers, so they are
    modelled by Rocq's primitive [float]; Python exceptions are modelled by an
    error monad; the input dictionary is a [gmap] from keys to JSON values. *)

From Stdlib Require Import ZArith Floats Bool Lia Ascii String.
From stdpp Require Import gmap strings.

Set Warnings "-inexact-float,-register-all".
Local Open Scope float_scope.

(** ** Exceptions *)

(** The exceptions that the operations used by [run.py] can raise. *)
Inductive exn := ZeroDivisionError | OverflowError | ValueError | TypeError.

Inductive res (A : Type) :=
| Ok (a : A)
| Raise (e : exn).
Arguments Ok {A} a.
Arguments Raise {A} e.

Definition bind {A B : Type} (c : res A) (k : A -> res B) : res B :=
  match c with
  | Ok a => k a
  | Raise e => Raise e
  end.

Notation "'let*' x ':=' c 'in' k" := (bind c (fun x => k))
  (at level 10, x name, c at level 100, k at level 200).
Notation "'let*' ' p ':=' c 'in' k" := (bind c (fun p => k))
  (at level 10, p pattern, c at level 100, k at level 200).

Definition returns {A : Type} (c : res A) : bool :=
  match c with Ok _ => true | Raise _ => false end.

(** ** Python values *)

(** What [json.load] can put in the parameter dictionary. *)
Inductive pyval :=
| VNone
| VBool (b : bool)
| VInt (z : Z)
| VFloat (f : float)
| VStr (s : string)
| VList (l : list pyval)
| VDict (d : list (string * pyval)).

(** The functions of the Python runtime and of [math] that [run.py] calls and
    that have no bit-exact counterpart among the primitive float operations. *)
Class PyRuntime := {
  (** [float(s)] on a string; [None] stands for [ValueError]. *)
  str_to_float : string -> option float;
  (** [str(v)] *)
  py_str : pyval -> string;
  (** [s.strip().upper()] *)
  str_strip_upper : string -> string;
  (** [math.hypot(x, y)]; it never raises. *)
  math_hypot : float -> float -> float;
  (** [math.log2(x)]; [ValueError] outside its domain. *)
  math_log2 : float -> res float;
  (** [x ** y] on floats; [OverflowError] when the result is out of range. *)
  float_pow : float -> float -> res float;
}.

(** ** Float operations with Python's semantics *)

(** [float(n)] for an [int]: rounded to nearest even, [OverflowError] when the
    rounded value is out of range. *)
Definition float_of_int (z : Z) : res float :=
  match binary_normalize prec emax z 0 false with
  | S754_infinity _ => Raise OverflowError
  | sf => Ok (SF2Prim sf)
  end.

(** [float(v)] *)
Definition py_float `{PyRuntime} (v : pyval) : res float :=
  match v with
  | VNone => Raise TypeError
  | VBool b => Ok (if b then 1 else 0)
  | VInt z => float_of_int z
  | VFloat f => Ok f
  | VStr s =>
      match str_to_float s with
      | Some f => Ok f
      | None => Raise ValueError
      end
  | VList _ | VDict _ => Raise TypeError
  end.

(** [x / y]: [ZeroDivisionError] when the divisor is zero (of either sign). *)
Definition py_div (x y : float) : res float :=
  if is_zero y then Raise ZeroDivisionError else Ok (x / y).

(** [min(a, b)] and [max(a, b)]: the first argument is kept unless the second
    one is strictly smaller (larger). *)
Definition py_min (a b : float) : float := if b <? a then b else a.
Definition py_max (a b : float) : float := if a <? b then b else a.

(** Truth value of a float: everything but zero, NaN included. *)
Definition truthy (x : float) : bool := negb (x =? 0).

(** Truth value of [float | None]. *)
Definition truthy_opt (x : option float) : bool :=
  match x with
  | Some v => truthy v
  | None => false
  end.

(** [x or d] for [x : float | None]. *)
Definition or_else (x : option float) (d : float) : float :=
  match x with
  | Some v => if truthy v then v else d
  | None => d
  end.

(** [math.sqrt(x)] *)
Definition math_sqrt (x : float) : res float :=
  if x <? 0 then Raise ValueError else Ok (sqrt x).

(** [math.floor(x)] and [math.ceil(x)] on a finite float, as integers. *)
Definition float_floor (x : float) : Z :=
  match Prim2SF x with
  | S754_finite s m e => Z.shiftl (cond_Zopp s (Zpos m)) e
  | _ => 0%Z
  end.

Definition float_ceil (x : float) : Z := (- float_floor (- x))%Z.

(** ** [_as_float] (lines 9-16) *)

Definition is_none (v : pyval) : bool :=
  match v with VNone => true | _ => false end.

Fixpoint _as_float `{PyRuntime} (values : gmap string pyval) (keys : list string)
    (default : option float) : res (option float) :=
  match keys with
  | [] => Ok default
  | key :: keys' =>
      match values !! key with
      | Some v =>
          if is_none v then _as_float values keys' default
          else
            match py_float v with
            | Ok x => Ok (Some x)
            | Raise TypeError | Raise ValueError => _as_float values keys' default
            | Raise e => Raise e
            end
      | None => _as_float values keys' default
      end
  end.

(** ** [_sensor_pixels] (lines 19-30) *)

Definition _sensor_pixels (sensor_w_mm sensor_h_mm : float)
    (px_w_um px_h_um : option float) : res (float * float) :=
  let px_w_mm := or_else px_w_um 0 / 1000 in
  let px_h_mm := or_else px_h_um 0 / 1000 in
  if (px_w_mm <=? 0) && (px_h_mm <=? 0) then Ok (0, 0)
  else
    let px_w_mm := if (px_w_mm <=? 0) && (0 <=? px_h_mm) then px_h_mm else px_w_mm in
    let px_h_mm := if (px_h_mm <=? 0) && (0 <=? px_w_mm) then px_w_mm else px_h_mm in
    let* pixels_horz := (if 0 <? px_w_mm then py_div sensor_w_mm px_w_mm else Ok 0) in
    let* pixels_vert := (if 0 <? px_h_mm then py_div sensor_h_mm px_h_mm else Ok 0) in
    Ok (pixels_horz, pixels_vert).

(** ** [_lens_geometry] (lines 33-42) *)

Definition _lens_geometry (f_mm working_distance_mm : float) : res (float * float) :=
  let f := f_mm in
  let do := working_distance_mm in
  if do <=? f then Ok (infinity, infinity)
  else
    let* di := py_div (f * do) (do - f) in
    let* q := py_div di do in
    Ok (di, abs q).

(** ** [_dof_hyperfocal] (lines 45-58) *)

Record dof_result := {
  circle_of_confusion_mm_used : float;
  near_mm : float;
  far_mm : float;
  DOF_mm : float;
  hyperfocal_mm : float;
}.

Definition _dof_hyperfocal (f_mm f_number coc_mm subject_distance_mm : float)
    : res dof_result :=
  let f := f_mm in
  let N := f_number in
  let c := py_max coc_mm 1e-12 in
  let s := subject_distance_mm in
  let* h0 := py_div (f * f) (N * c) in
  let H := h0 + f in
  let* Dn := py_div (H * s) (H + (s - f)) in
  if H <=? s then
    Ok {| circle_of_confusion_mm_used := c; near_mm := Dn; far_mm := infinity;
          DOF_mm := infinity; hyperfocal_mm := H |}
  else
    let* Df := py_div (H * s) (H - (s - f)) in
    Ok {| circle_of_confusion_mm_used := c; near_mm := Dn; far_mm := Df;
          DOF_mm := Df - Dn; hyperfocal_mm := H |}.

(** ** [_diffraction_sampling_metrics] (lines 61-75) *)

Record diff_result := {
  wavelength_um : float;
  airy_disk_diameter_um : float;
  airy_disk_diameter_pixels : float;
  diffraction_cutoff_lp_per_mm : float;
  nyquist_over_diffraction_cutoff : float;
  diff_sensor_nyquist_lp_per_mm : float;
}.

Definition _diffraction_sampling_metrics (pixel_size_mm_min f_number_eff : float)
    (wavelength_um : float) : res diff_result :=
  let lambda_mm := wavelength_um / 1000 in
  let airy_um := 2.44 * wavelength_um * f_number_eff in
  let* airy_px := (if 0 <? pixel_size_mm_min
              then py_div airy_um (pixel_size_mm_min * 1000)
              else Ok infinity) in
  let* nyquist_lp_per_mm := (if 0 <? pixel_size_mm_min
                        then py_div 1 (2 * pixel_size_mm_min)
                        else Ok infinity) in
  let* diffraction_cutoff := (if (0 <? lambda_mm) && (0 <? f_number_eff)
                         then py_div 1 (lambda_mm * f_number_eff)
                         else Ok infinity) in
  let* ratio := (if is_finite diffraction_cutoff && (0 <? diffraction_cutoff)
            then py_div nyquist_lp_per_mm diffraction_cutoff
            else Ok infinity) in
  Ok {| wavelength_um := wavelength_um;
        airy_disk_diameter_um := airy_um;
        airy_disk_diameter_pixels := airy_px;
        diffraction_cutoff_lp_per_mm := diffraction_cutoff;
        nyquist_over_diffraction_cutoff := ratio;
        diff_sensor_nyquist_lp_per_mm := nyquist_lp_per_mm |}.

(** ** [_illumination_metrics] (lines 78-103) *)

Record illum_result := {
  relative_illumination_center_percent : float;
  relative_illumination_corner_percent : float;
  corner_to_center_ratio : float;
  vignetting_loss_percent : float;
  exposure_compensation_stops_at_corners : float;
}.

Definition _illumination_metrics `{PyRuntime} (sensor_diag_mm image_distance_mm : float)
    (lens_relative_illumination : option float) : res illum_result :=
  let center_percent := 100 in
  let* corner_ratio :=
    match lens_relative_illumination with
    | Some v =>
        let corner_ratio := v in
        let corner_ratio := if 1.5 <? corner_ratio then corner_ratio / 100 else corner_ratio in
        Ok (py_max (py_min corner_ratio 1) 0)
    | None =>
        let r := 0.5 * sensor_diag_mm in
        if is_finite image_distance_mm && (0 <? image_distance_mm) then
          let* tan_theta := py_div r image_distance_mm in
          let* root := math_sqrt (1 + tan_theta * tan_theta) in
          let* cos_theta := py_div 1 root in
          float_pow cos_theta 4
        else Ok 1
    end in
  let corner_percent := 100 * corner_ratio in
  let vignetting_loss_percent := py_max 0 (100 - corner_percent) in
  let* exposure_comp_stops :=
    (if 0 <? corner_ratio
     then let* q := py_div 1 (py_max corner_ratio 1e-9) in math_log2 q
     else Ok infinity) in
  Ok {| relative_illumination_center_percent := center_percent;
        relative_illumination_corner_percent := corner_percent;
        corner_to_center_ratio := corner_ratio;
        vignetting_loss_percent := vignetting_loss_percent;
        exposure_compensation_stops_at_corners := exposure_comp_stops |}.

(** ** [calculate] (lines 106-304)

    The body of [calculate] is embedded stage by stage, in source order; each
    stage returns the local variables it binds. *)

Section Calculate.
Context `{PyRuntime}.

(** *** Sensor model (lines 107-124) *)

Record sensor_locals := {
  sensor_w_mm : float;
  sensor_h_mm : float;
  sensor_diag_mm : option float;
  px_w_um : option float;
  px_h_um : option float;
  pixels_horz : float;
  pixels_vert : float;
  total_pixels : float;
  aspect_ratio : float;
  pixel_size_mm_min : float;
  sensor_nyquist_lp_per_mm : float;
}.

Definition sensor_stage (params : gmap string pyval) : res sensor_locals :=
  let* w := _as_float params ["sensor_width_mm"] (Some 0) in
  let sensor_w_mm := or_else w 0 in
  let* h := _as_float params ["sensor_height_mm"] (Some 0) in
  let sensor_h_mm := or_else h 0 in
  let* sensor_diag_mm := _as_float params ["sensor_diagonal_mm"] None in
  let sensor_diag_mm :=
    if negb (truthy_opt sensor_diag_mm) && (0 <? sensor_w_mm) && (0 <? sensor_h_mm)
    then Some (math_hypot sensor_w_mm sensor_h_mm)
    else sensor_diag_mm in
  let* px_w_um := _as_float params ["sensor_pixel_size_width_um"] None in
  let* px_h_um := _as_float params ["sensor_pixel_size_height_um"] None in
  let* '(pixels_horz, pixels_vert) := _sensor_pixels sensor_w_mm sensor_h_mm px_w_um px_h_um in
  let total_pixels :=
    if (0 <? pixels_horz) && (0 <? pixels_vert) then pixels_horz * pixels_vert else 0 in
  let* aspect_ratio :=
    (if 0 <? sensor_h_mm then py_div sensor_w_mm sensor_h_mm else Ok infinity) in
  let pixel_size_mm_min :=
    py_min (or_else px_w_um infinity / 1000) (or_else px_h_um infinity / 1000) in
  let* sensor_nyquist_lp_per_mm :=
    (if is_finite pixel_size_mm_min && (0 <? pixel_size_mm_min)
     then py_div 1 (2 * pixel_size_mm_min)
     else Ok infinity) in
  Ok {| sensor_w_mm := sensor_w_mm; sensor_h_mm := sensor_h_mm;
        sensor_diag_mm := sensor_diag_mm; px_w_um := px_w_um; px_h_um := px_h_um;
        pixels_horz := pixels_horz; pixels_vert := pixels_vert;
        total_pixels := total_pixels; aspect_ratio := aspect_ratio;
        pixel_size_mm_min := pixel_size_mm_min;
        sensor_nyquist_lp_per_mm := sensor_nyquist_lp_per_mm |}.

(** *** Lens geometry (lines 126-135) *)

Record lens_locals := {
  f_mm : float;
  f_stop : float;
  lens_diag_mm : float;
  lens_distortion_perc : option float;
  lens_resolution_lp_per_mm : option float;
  working_distance_mm : float;
  di_mm : float;
  m : float;
  aperture_diameter_mm : float;
  effective_f_number : float;
}.

Definition lens_stage (params : gmap string pyval) : res lens_locals :=
  let* f := _as_float params ["lens_focal_length_mm"] (Some 0) in
  let f_mm := or_else f 0 in
  let* n := _as_float params ["lens_fstop"] (Some 0) in
  let f_stop := or_else n 0 in
  let* ld := _as_float params ["lens_diagonal_mm"] None in
  let lens_diag_mm := or_else ld 0 in
  let* lens_distortion_perc := _as_float params ["lens_distortion_perc"] None in
  let* lens_resolution_lp_per_mm := _as_float params ["lens_resolution"] None in
  let* wd := _as_float params ["working_distance_mm"] (Some 0) in
  let working_distance_mm := or_else wd 0 in
  let* '(di_mm, m) := _lens_geometry f_mm working_distance_mm in
  let* aperture_diameter_mm :=
    (if 0 <? f_stop then py_div f_mm f_stop else Ok infinity) in
  let effective_f_number :=
    if 0 <? f_stop then f_stop * (1 + (if is_finite m then m else 0)) else infinity in
  Ok {| f_mm := f_mm; f_stop := f_stop; lens_diag_mm := lens_diag_mm;
        lens_distortion_perc := lens_distortion_perc;
        lens_resolution_lp_per_mm := lens_resolution_lp_per_mm;
        working_distance_mm := working_distance_mm; di_mm := di_mm; m := m;
        aperture_diameter_mm := aperture_diameter_mm;
        effective_f_number := effective_f_number |}.

(** *** Field of view and sampling (lines 137-158) *)

Record fov_locals := {
  fov_w_mm : float;
  fov_h_mm : float;
  fov_diag_mm : float;
  fov_area_mm2 : float;
  pixels_per_mm_x : float;
  pixels_per_mm_y : float;
  mm_per_pixel_x : float;
  mm_per_pixel_y : float;
  fov_width_actual_vs_target_percent : float;
  fov_height_actual_vs_target_percent : float;
}.

(** [nan] unless a positive target and a finite positive actual extent are
    both there (lines 153-158). *)
Definition actual_vs_target (target : option float) (fov : float) : res float :=
  match target with
  | Some t =>
      if truthy t && (0 <? t) && is_finite fov && (0 <? fov)
      then let* q := py_div fov t in Ok (q * 100)
      else Ok nan
  | None => Ok nan
  end.

Definition fov_stage (params : gmap string pyval) (s : sensor_locals) (l : lens_locals)
    : res fov_locals :=
  let m := m l in
  let* '(fov_w_mm, fov_h_mm) :=
    (if is_finite m && (0 <? m)
     then let* w := py_div (sensor_w_mm s) m in
          let* h := py_div (sensor_h_mm s) m in
          Ok (w, h)
     else Ok (infinity, infinity)) in
  let fov_diag_mm := math_hypot fov_w_mm fov_h_mm in
  let fov_area_mm2 :=
    if is_finite fov_w_mm && is_finite fov_h_mm then fov_w_mm * fov_h_mm else infinity in
  let* pixels_per_mm_x :=
    (if (0 <? fov_w_mm) && (0 <? pixels_horz s)
     then py_div (pixels_horz s) fov_w_mm else Ok 0) in
  let* pixels_per_mm_y :=
    (if (0 <? fov_h_mm) && (0 <? pixels_vert s)
     then py_div (pixels_vert s) fov_h_mm else Ok 0) in
  let* mm_per_pixel_x :=
    (if 0 <? pixels_per_mm_x then py_div 1 pixels_per_mm_x else Ok infinity) in
  let* mm_per_pixel_y :=
    (if 0 <? pixels_per_mm_y then py_div 1 pixels_per_mm_y else Ok infinity) in
  let* target_fov_w := _as_float params ["target_fov_width"] None in
  let* target_fov_h := _as_float params ["target_fov_height"] None in
  let* fov_width_actual_vs_target_percent := actual_vs_target target_fov_w fov_w_mm in
  let* fov_height_actual_vs_target_percent := actual_vs_target target_fov_h fov_h_mm in
  Ok {| fov_w_mm := fov_w_mm; fov_h_mm := fov_h_mm; fov_diag_mm := fov_diag_mm;
        fov_area_mm2 := fov_area_mm2;
        pixels_per_mm_x := pixels_per_mm_x; pixels_per_mm_y := pixels_per_mm_y;
        mm_per_pixel_x := mm_per_pixel_x; mm_per_pixel_y := mm_per_pixel_y;
        fov_width_actual_vs_target_percent := fov_width_actual_vs_target_percent;
        fov_height_actual_vs_target_percent := fov_height_actual_vs_target_percent |}.

(** *** Motion and exposure (lines 160-179) *)

Record motion_locals := {
  sensor_fps : float;
  frame_period_us : float;
  allowed_blur_px : float;
  object_speed_mm_s : float;
  motion_axis : string;
  px_per_mm_axis : float;
  object_speed_px_s : float;
  max_exposure_us_motion : float;
  max_exposure_us_frame : float;
  max_exposure_us_motion_1px : float;
  recommended_exposure_us : float;
}.

(** [str(params.get("object_motion_axis", "W")).strip().upper()] *)
Definition read_motion_axis (params : gmap string pyval) : string :=
  str_strip_upper (py_str (default (VStr "W") (params !! "object_motion_axis"))).

(** The exposure bound for the caller's blur tolerance (lines 167-172). *)
Definition blur_bound (object_speed_px_s allowed_blur_px object_speed_mm_s : float)
    : res float :=
  if (0 <? object_speed_px_s) && (0 <? allowed_blur_px)
  then let* q := py_div allowed_blur_px object_speed_px_s in Ok (1e6 * q)
  else if object_speed_mm_s <=? 0 then Ok infinity
  else Ok 0.

(** The exposure bound for one pixel of blur (lines 175-178). *)
Definition one_pixel_bound (object_speed_px_s : float) : res float :=
  if 0 <? object_speed_px_s
  then let* q := py_div 1 object_speed_px_s in Ok (1e6 * q)
  else Ok infinity.

Definition motion_stage (params : gmap string pyval) (v : fov_locals) : res motion_locals :=
  let* fps := _as_float params ["sensor_framerate"] None in
  let sensor_fps := or_else fps 0 in
  let* frame_period_us :=
    (if 0 <? sensor_fps then py_div 1e6 sensor_fps else Ok infinity) in
  let* blur := _as_float params ["object_allowed_blur_pixels"] None in
  let allowed_blur_px := or_else blur 0 in
  let* speed := _as_float params ["object_initial_speed_mm_s"] None in
  let object_speed_mm_s := or_else speed 0 in
  let motion_axis := read_motion_axis params in
  let px_per_mm_axis :=
    if String.eqb motion_axis "H" then pixels_per_mm_y v else pixels_per_mm_x v in
  let object_speed_px_s := object_speed_mm_s * px_per_mm_axis in
  let* max_exposure_us_motion :=
    blur_bound object_speed_px_s allowed_blur_px object_speed_mm_s in
  let max_exposure_us_frame := frame_period_us in
  let* max_exposure_us_motion_1px := one_pixel_bound object_speed_px_s in
  let recommended_exposure_us := py_min max_exposure_us_motion_1px max_exposure_us_frame in
  Ok {| sensor_fps := sensor_fps; frame_period_us := frame_period_us;
        allowed_blur_px := allowed_blur_px; object_speed_mm_s := object_speed_mm_s;
        motion_axis := motion_axis; px_per_mm_axis := px_per_mm_axis;
        object_speed_px_s := object_speed_px_s;
        max_exposure_us_motion := max_exposure_us_motion;
        max_exposure_us_frame := max_exposure_us_frame;
        max_exposure_us_motion_1px := max_exposure_us_motion_1px;
        recommended_exposure_us := recommended_exposure_us |}.

(** *** Depth of field (lines 181-182) *)

Definition dof_stage (s : sensor_locals) (l : lens_locals) : res dof_result :=
  let coc_mm :=
    if is_finite (pixel_size_mm_min s) then pixel_size_mm_min s
    else py_max (or_else (px_w_um s) 0) (or_else (px_h_um s) 0) / 1000 in
  _dof_hyperfocal (f_mm l) (f_stop l) (if 0 <? coc_mm then coc_mm else 1e-3)
    (working_distance_mm l).

(** *** Diffraction and sampling (lines 184-194) *)

Record diffraction_locals := {
  diff : diff_result;
  lens_mtf50_lp_per_mm : float;
  mtf50_vs_nyquist_ratio : float;
  sampling_regime : string;
}.

(** The four-way verdict of lines 187-194: [ratio] is
    [diff["nyquist_over_diffraction_cutoff"]], [below] the outcome of
    [lens_mtf50_lp_per_mm < 0.9 * diff["sensor_nyquist_lp_per_mm"]]. *)
Definition classify_regime (ratio : float) (below : bool) : string :=
  if 1.1 <? ratio then "optics-limited (diffraction)"
  else if below then "optics-limited (aberrations)"
  else if ratio <? 0.9 then "sensor-limited"
  else "balanced".

Definition diffraction_stage (s : sensor_locals) (l : lens_locals) : res diffraction_locals :=
  let* diff :=
    _diffraction_sampling_metrics
      (if 0 <? pixel_size_mm_min s then pixel_size_mm_min s else 1e-6)
      (py_max (effective_f_number l) 1e-9) 0.55 in
  let lens_mtf50_lp_per_mm :=
    match lens_resolution_lp_per_mm l with
    | Some r => r
    | None => 0.5 * diffraction_cutoff_lp_per_mm diff
    end in
  let* mtf50_vs_nyquist_ratio :=
    (if 0 <? diff_sensor_nyquist_lp_per_mm diff
     then py_div lens_mtf50_lp_per_mm (diff_sensor_nyquist_lp_per_mm diff)
     else Ok infinity) in
  let sampling_regime :=
    classify_regime (nyquist_over_diffraction_cutoff diff)
      (lens_mtf50_lp_per_mm <? 0.9 * diff_sensor_nyquist_lp_per_mm diff) in
  Ok {| diff := diff; lens_mtf50_lp_per_mm := lens_mtf50_lp_per_mm;
        mtf50_vs_nyquist_ratio := mtf50_vs_nyquist_ratio;
        sampling_regime := sampling_regime |}.

(** *** Coverage and distortion (lines 196-214) *)

Record coverage_locals := {
  coverage_ok : bool;
  coverage_margin_mm : float;
  coverage_ratio_actual_vs_design : float;
  fov_width_scale_vs_design : float;
  fov_height_scale_vs_design : float;
  fov_area_scale_vs_design : float;
  effective_distortion_percent_at_actual_edge : float;
  edge_position_error_mm_effective : float;
}.

Definition coverage_stage (s : sensor_locals) (l : lens_locals) (v : fov_locals)
    : res coverage_locals :=
  let lens_diag_mm := lens_diag_mm l in
  let sensor_diag_mm := sensor_diag_mm s in
  let both := truthy lens_diag_mm && truthy_opt sensor_diag_mm in
  let coverage_ok :=
    if both then or_else sensor_diag_mm 0 <=? lens_diag_mm
    else truthy lens_diag_mm
         && match sensor_diag_mm with
            | Some d => truthy d && (d <=? lens_diag_mm)
            | None => false
            end in
  let coverage_margin_mm :=
    if both then 0.5 * (lens_diag_mm - or_else sensor_diag_mm 0) else nan in
  let* coverage_ratio_actual_vs_design :=
    (if (0 <? lens_diag_mm) && truthy_opt sensor_diag_mm
     then py_div (or_else sensor_diag_mm 0) lens_diag_mm
     else Ok nan) in
  let fov_width_scale_vs_design := coverage_ratio_actual_vs_design in
  let fov_height_scale_vs_design := coverage_ratio_actual_vs_design in
  let* fov_area_scale_vs_design :=
    (if is_finite coverage_ratio_actual_vs_design
     then float_pow coverage_ratio_actual_vs_design 2
     else Ok nan) in
  let effective_distortion_percent_at_actual_edge :=
    match lens_distortion_perc l with
    | Some d =>
        if is_finite coverage_ratio_actual_vs_design then
          if coverage_ratio_actual_vs_design <=? 1
          then d * coverage_ratio_actual_vs_design
          else d
        else nan
    | None => nan
    end in
  let edge_position_error_mm_effective :=
    if is_finite effective_distortion_percent_at_actual_edge
    then effective_distortion_percent_at_actual_edge / 100 * (0.5 * fov_diag_mm v)
    else nan in
  Ok {| coverage_ok := coverage_ok; coverage_margin_mm := coverage_margin_mm;
        coverage_ratio_actual_vs_design := coverage_ratio_actual_vs_design;
        fov_width_scale_vs_design := fov_width_scale_vs_design;
        fov_height_scale_vs_design := fov_height_scale_vs_design;
        fov_area_scale_vs_design := fov_area_scale_vs_design;
        effective_distortion_percent_at_actual_edge :=
          effective_distortion_percent_at_actual_edge;
        edge_position_error_mm_effective := edge_position_error_mm_effective |}.

(** *** Illumination (lines 216-217) *)

Definition illumination_stage (params : gmap string pyval) (s : sensor_locals)
    (l : lens_locals) : res illum_result :=
  let* lens_relative_illumination := _as_float params ["lens_relative_illumination"] None in
  _illumination_metrics (or_else (sensor_diag_mm s) 0) (di_mm l) lens_relative_illumination.

(** *** Appearance timing (lines 219-226) *)

Record appearance_locals := {
  appearance_axis_used : string;
  traversal_extent_mm : float;
  duration_s : float;
  expected_frames : float;
  frames_min : Z;
  frames_max : Z;
  displacement_per_frame_mm : float;
  displacement_per_frame_px : float;
}.

Definition appearance_stage (v : fov_locals) (e : motion_locals) : res appearance_locals :=
  let appearance_axis_used := motion_axis e in
  let traversal_extent_mm :=
    if String.eqb (motion_axis e) "H" then fov_h_mm v else fov_w_mm v in
  let* duration_s :=
    (if (0 <? object_speed_mm_s e) && is_finite traversal_extent_mm
     then py_div traversal_extent_mm (object_speed_mm_s e)
     else Ok infinity) in
  let expected_frames :=
    if (0 <? sensor_fps e) && is_finite duration_s
    then duration_s * sensor_fps e else infinity in
  let frames_min := if is_finite expected_frames then float_floor expected_frames else 0%Z in
  let frames_max := if is_finite expected_frames then float_ceil expected_frames else 0%Z in
  let* displacement_per_frame_mm :=
    (if 0 <? sensor_fps e then py_div (object_speed_mm_s e) (sensor_fps e)
     else Ok infinity) in
  let displacement_per_frame_px :=
    if is_finite displacement_per_frame_mm
    then displacement_per_frame_mm * px_per_mm_axis e else infinity in
  Ok {| appearance_axis_used := appearance_axis_used;
        traversal_extent_mm := traversal_extent_mm; duration_s := duration_s;
        expected_frames := expected_frames; frames_min := frames_min;
        frames_max := frames_max;
        displacement_per_frame_mm := displacement_per_frame_mm;
        displacement_per_frame_px := displacement_per_frame_px |}.

(** *** Flags (lines 228-230) *)

Record flag_locals := {
  diffraction_dominant : bool;
  exposure_limited_by_frame : bool;
  potential_vignetting : bool;
}.

Definition flag_stage (e : motion_locals) (d : diffraction_locals) (c : coverage_locals)
    (i : illum_result) : flag_locals :=
  {| diffraction_dominant := 1 <? nyquist_over_diffraction_cutoff (diff d);
     exposure_limited_by_frame :=
       if is_finite (max_exposure_us_frame e) && is_finite (max_exposure_us_motion e)
       then max_exposure_us_frame e <? max_exposure_us_motion e
       else false;
     potential_vignetting :=
       negb (coverage_ok c) || (corner_to_center_ratio i <? 0.7) |}.

(** *** The local variables of one run, and the run itself *)

Record locals := {
  sensor : sensor_locals;
  lens : lens_locals;
  fov : fov_locals;
  motion : motion_locals;
  dof : dof_result;
  diffraction : diffraction_locals;
  coverage : coverage_locals;
  illum : illum_result;
  appearances : appearance_locals;
  flags : flag_locals;
}.

Definition calculate_locals (params : gmap string pyval) : res locals :=
  let* s := sensor_stage params in
  let* l := lens_stage params in
  let* v := fov_stage params s l in
  let* e := motion_stage params v in
  let* dof := dof_stage s l in
  let* d := diffraction_stage s l in
  let* c := coverage_stage s l v in
  let* i := illumination_stage params s l in
  let* a := appearance_stage v e in
  Ok {| sensor := s; lens := l; fov := v; motion := e; dof := dof; diffraction := d;
        coverage := c; illum := i; appearances := a; flags := flag_stage e d c i |}.

End Calculate.

(** *** The result record (lines 232-304)

    A dictionary of ten sections, each a dictionary of named values, in the
    order of the source. *)

Inductive outval :=
| OFloat (x : float)
| OInt (z : Z)
| OBool (b : bool)
| OStr (s : string).

Definition section := list (string * outval).
Definition result := list (string * section).

Definition dof_dict (d : dof_result) : section :=
  [("circle_of_confusion_mm_used", OFloat (circle_of_confusion_mm_used d));
   ("near_mm", OFloat (near_mm d));
   ("far_mm", OFloat (far_mm d));
   ("DOF_mm", OFloat (DOF_mm d));
   ("hyperfocal_mm", OFloat (hyperfocal_mm d))].

Definition illum_dict (i : illum_result) : section :=
  [("relative_illumination_center_percent", OFloat (relative_illumination_center_percent i));
   ("relative_illumination_corner_percent", OFloat (relative_illumination_corner_percent i));
   ("corner_to_center_ratio", OFloat (corner_to_center_ratio i));
   ("vignetting_loss_percent", OFloat (vignetting_loss_percent i));
   ("exposure_compensation_stops_at_corners",
    OFloat (exposure_compensation_stops_at_corners i))].

Definition result_of (x : locals) : result :=
  let s := sensor x in
  let l := lens x in
  let v := fov x in
  let e := motion x in
  let d := diffraction x in
  let c := coverage x in
  let a := appearances x in
  let g := flags x in
  [("sensor",
    [("pixels_horz", OFloat (pixels_horz s));
     ("pixels_vert", OFloat (pixels_vert s));
     ("total_pixels", OFloat (total_pixels s));
     ("aspect_ratio", OFloat (aspect_ratio s));
     ("sensor_nyquist_lp_per_mm", OFloat (sensor_nyquist_lp_per_mm s))]);
   ("lens_geometry",
    [("aperture_diameter_mm", OFloat (aperture_diameter_mm l));
     ("effective_f_number", OFloat (effective_f_number l));
     ("working_distance_mm", OFloat (working_distance_mm l));
     ("image_distance_mm", OFloat (di_mm l));
     ("magnification_percent",
      OFloat (if is_finite (m l) then m l * 100 else infinity))]);
   ("fov_sampling",
    [("fov_width_mm", OFloat (fov_w_mm v));
     ("fov_height_mm", OFloat (fov_h_mm v));
     ("fov_diagonal_mm", OFloat (fov_diag_mm v));
     ("fov_area_mm2", OFloat (fov_area_mm2 v));
     ("pixels_per_mm_x", OFloat (pixels_per_mm_x v));
     ("pixels_per_mm_y", OFloat (pixels_per_mm_y v));
     ("mm_per_pixel_x", OFloat (mm_per_pixel_x v));
     ("mm_per_pixel_y", OFloat (mm_per_pixel_y v));
     ("fov_width_actual_vs_target_percent",
      OFloat (fov_width_actual_vs_target_percent v));
     ("fov_height_actual_vs_target_percent",
      OFloat (fov_height_actual_vs_target_percent v))]);
   ("motion_exposure",
    [("object_speed_mm_s", OFloat (object_speed_mm_s e));
     ("object_speed_px_s", OFloat (object_speed_px_s e));
     ("frame_period_us", OFloat (frame_period_us e));
     ("max_exposure_us_motion_blur_for_allowed_blur_px",
      OFloat (max_exposure_us_motion e));
     ("max_exposure_us_frame", OFloat (max_exposure_us_frame e));
     ("recommended_exposure_us", OFloat (recommended_exposure_us e))]);
   ("depth_of_field", dof_dict (dof x));
   ("diffraction_mtf",
    [("wavelength_um", OFloat (wavelength_um (diff d)));
     ("airy_disk_diameter_um", OFloat (airy_disk_diameter_um (diff d)));
     ("airy_disk_diameter_pixels", OFloat (airy_disk_diameter_pixels (diff d)));
     ("diffraction_cutoff_lp_per_mm", OFloat (diffraction_cutoff_lp_per_mm (diff d)));
     ("nyquist_over_diffraction_cutoff",
      OFloat (nyquist_over_diffraction_cutoff (diff d)));
     ("lens_mtf50_lp_per_mm", OFloat (lens_mtf50_lp_per_mm d));
     ("mtf50_vs_nyquist_ratio", OFloat (mtf50_vs_nyquist_ratio d));
     ("sampling_regime", OStr (sampling_regime d))]);
   ("coverage_distortion",
    [("coverage_ok", OBool (coverage_ok c));
     ("coverage_margin_mm", OFloat (coverage_margin_mm c));
     ("coverage_ratio_actual_vs_design", OFloat (coverage_ratio_actual_vs_design c));
     ("fov_width_scale_vs_design", OFloat (fov_width_scale_vs_design c));
     ("fov_height_scale_vs_design", OFloat (fov_height_scale_vs_design c));
     ("fov_area_scale_vs_design", OFloat (fov_area_scale_vs_design c));
     ("effective_distortion_percent_at_actual_edge",
      OFloat (effective_distortion_percent_at_actual_edge c));
     ("edge_position_error_mm_effective",
      OFloat (edge_position_error_mm_effective c))]);
   ("illumination", illum_dict (illum x));
   ("appearances",
    [("appearance_axis_used", OStr (appearance_axis_used a));
     ("traversal_extent_mm", OFloat (traversal_extent_mm a));
     ("duration_s", OFloat (duration_s a));
     ("expected_frames", OFloat (expected_frames a));
     ("frames_min", OInt (frames_min a));
     ("frames_max", OInt (frames_max a));
     ("displacement_per_frame_mm", OFloat (displacement_per_frame_mm a));
     ("displacement_per_frame_px", OFloat (displacement_per_frame_px a))]);
   ("flags",
    [("diffraction_dominant", OBool (diffraction_dominant g));
     ("exposure_limited_by_frame", OBool (exposure_limited_by_frame g));
     ("potential_vignetting", OBool (potential_vignetting g))])].

Definition calculate `{PyRuntime} (params : gmap string pyval) : res result :=
  let* x := calculate_locals params in
  Ok (result_of x).

(** Reading the result: [r[sec][key]]. *)
Fixpoint assoc {A : Type} (key : string) (d : list (string * A)) : option A :=
  match d with
  | [] => None
  | (k, a) :: d' => if String.eqb key k then Some a else assoc key d'
  end.

Definition field (sec key : string) (r : result) : option outval :=
  match assoc sec r with
  | Some s => assoc key s
  | None => None
  end.

Definition keys {A : Type} (d : list (string * A)) : list string := map fst d.

(** ** A runtime for worked examples

    The theorems below hold for every [PyRuntime].  To run the model on
    concrete inputs a runtime is needed; this one agrees with CPython on the
    arguments the examples pass (exact squares and fourth powers, [hypot] of
    zeros, [log2] of powers of two, ASCII strings) and interpolates elsewhere. *)

Definition Z_to_float (z : Z) : float := SF2Prim (binary_normalize prec emax z 0 false).

Definition ref_hypot (x y : float) : float :=
  if is_infinity x || is_infinity y then infinity else sqrt (x * x + y * y).

Definition ref_pow (x y : float) : res float :=
  let r := if y =? 2 then x * x else if y =? 4 then (x * x) * (x * x) else nan in
  if is_finite x && is_infinity r then Raise OverflowError else Ok r.

(** Exact on powers of two, linear in between. *)
Definition ref_log2 (x : float) : res float :=
  if is_nan x then Ok nan
  else if x <=? 0 then Raise ValueError
  else if is_infinity x then Ok infinity
  else let (fr, e) := Z.frexp x in Ok (Z_to_float (e - 1) + (2 * fr - 1)).

Definition ref_str (v : pyval) : string :=
  match v with
  | VStr s => s
  | VNone => "None"
  | VBool true => "True"
  | VBool false => "False"
  | _ => ""
  end.

Definition is_space (c : ascii) : bool :=
  let n := nat_of_ascii c in
  ((9 <=? n) && (n <=? 13) || (28 <=? n) && (n <=? 32))%nat.

Fixpoint lstrip (s : string) : string :=
  match s with
  | String c s' => if is_space c then lstrip s' else s
  | EmptyString => s
  end.

Fixpoint rstrip (s : string) : string :=
  match s with
  | String c s' =>
      match rstrip s' with
      | EmptyString => if is_space c then EmptyString else String c EmptyString
      | t => String c t
      end
  | EmptyString => s
  end.

Definition upper_ascii (c : ascii) : ascii :=
  let n := nat_of_ascii c in
  if ((97 <=? n) && (n <=? 122))%nat then ascii_of_nat (n - 32) else c.

Fixpoint upper (s : string) : string :=
  match s with
  | String c s' => String (upper_ascii c) (upper s')
  | EmptyString => s
  end.

Definition ref_strip_upper (s : string) : string := upper (rstrip (lstrip s)).

(** Decimal integers and the spellings of the special values. *)
Definition ref_str_to_float (s : string) : option float :=
  if String.eqb s "nan" then Some nan
  else if String.eqb s "inf" then Some infinity
  else if String.eqb s "-inf" then Some neg_infinity
  else None.

Definition ref_runtime : PyRuntime :=
  {| str_to_float := ref_str_to_float;
     py_str := ref_str;
     str_strip_upper := ref_strip_upper;
     math_hypot := ref_hypot;
     math_log2 := ref_log2;
     float_pow := ref_pow |}.

(** ** Inputs of the worked examples *)

(** A 16 mm lens at f/2.8 focused at 200 mm in front of a 11.3 mm wide sensor of
    3.45 um pixels, 100 frames per second, and an object crossing the field
    at 1 m/s with one pixel of blur allowed. *)
Definition base_input : gmap string pyval :=
  list_to_map
    [("lens_focal_length_mm", VInt 16); ("lens_fstop", VFloat 2.8);
     ("working_distance_mm", VInt 200); ("sensor_width_mm", VFloat 11.3);
     ("sensor_pixel_size_width_um", VFloat 3.45); ("sensor_framerate", VInt 100);
     ("object_initial_speed_mm_s", VInt 1000);
     ("object_allowed_blur_pixels", VInt 1)].

(** The same with a supplied relative illumination of one half. *)
Definition lit_input : gmap string pyval :=
  <["lens_relative_illumination" := VFloat 0.5]> base_input.

(** The same with a relative illumination that is not a number. *)
Definition nan_lit_input : gmap string pyval :=
  <["lens_relative_illumination" := VFloat nan]> base_input.

(** The same with a relative illumination of [2^-40], below the floor of
    [1e-9] of the exposure compensation. *)
Definition dim_input : gmap string pyval :=
  <["lens_relative_illumination" := VFloat 0x1p-40]> base_input.

(** A negative lens diagonal next to a sensor diagonal of 10 mm. *)
Definition negative_diag_input : gmap string pyval :=
  <["lens_diagonal_mm" := VInt (-5)]> (<["sensor_diagonal_mm" := VInt 10]> lit_input).

(** Candidates that are all passed over. *)
Definition unusable_input : gmap string pyval :=
  list_to_map [("a", VNone); ("b", VStr "wide"); ("c", VList [VInt 3])].

(** An integer beyond the range of binary64 behind a candidate that is passed
    over. *)
Definition overflowing_input : gmap string pyval :=
  list_to_map [("a", VNone); ("b", VInt (10 ^ 400))].

(** The example input with the object 10 mm in front of the 16 mm lens. *)
Definition close_input : gmap string pyval :=
  <["working_distance_mm" := VInt 10]> base_input.

(** The example input with an object at rest. *)
Definition still_input : gmap string pyval :=
  <["object_initial_speed_mm_s" := VInt 0]> base_input.

(** The example input at f/64. *)
Definition stopped_down_input : gmap string pyval :=
  <["lens_fstop" := VInt 64]> base_input.

(** The example input with a sensor height, so that the sensor diagonal is
    derived from the sides. *)
Definition full_input : gmap string pyval :=
  <["sensor_height_mm" := VFloat 7.1]> base_input.

(** The example input with a sensor diagonal of 10 mm behind a lens that
    covers 16 mm. *)
Definition covered_input : gmap string pyval :=
  <["lens_diagonal_mm" := VInt 16]> (<["sensor_diagonal_mm" := VInt 10]> base_input).


(** The example input with a sensor diagonal of 10 mm. *)
Definition diag_input : gmap string pyval :=
  <["sensor_diagonal_mm" := VInt 10]> base_input.

(** The example input with a sensor diagonal that is not a number. *)
Definition nan_diag_input : gmap string pyval :=
  <["sensor_diagonal_mm" := VFloat nan]> base_input.

(** The example input with a sensor diagonal of [1e200] mm. *)
Definition huge_diag_input : gmap string pyval :=
  <["sensor_diagonal_mm" := VFloat 1e200]> base_input.

(** ** Notions used in the statements *)

(** A zero, a finite number or an infinity of sign [s]. *)
Definition signed (s : bool) (r : spec_float) : Prop :=
  match r with
  | S754_zero s' | S754_infinity s' | S754_finite s' _ _ => s' = s
  | S754_nan => False
  end.

(** [+0], a positive finite number or [+infinity]. *)
Definition nonneg (x : float) : Prop := signed false (Prim2SF x).

(** A positive finite number. *)
Definition pos_fin (x : float) : Prop :=
  exists mx ex, Prim2SF x = S754_finite false mx ex.

(** The value of the largest finite binary64 number, in units of [2^emin]. *)
Definition max_value : Z := (2 ^ 53 - 1) * 2 ^ 2045.

(** Two runs agree on everything but the caller's blur tolerance, the exposure
    bound computed from it and the flag that compares that bound with the
    frame period. *)
Definition same_but_blur (x x' : locals) : Prop :=
  sensor x' = sensor x /\ lens x' = lens x /\ fov x' = fov x /\ dof x' = dof x
  /\ diffraction x' = diffraction x /\ coverage x' = coverage x
  /\ illum x' = illum x /\ appearances x' = appearances x
  /\ sensor_fps (motion x') = sensor_fps (motion x)
  /\ frame_period_us (motion x') = frame_period_us (motion x)
  /\ object_speed_mm_s (motion x') = object_speed_mm_s (motion x)
  /\ motion_axis (motion x') = motion_axis (motion x)
  /\ px_per_mm_axis (motion x') = px_per_mm_axis (motion x)
  /\ object_speed_px_s (motion x') = object_speed_px_s (motion x)
  /\ max_exposure_us_frame (motion x') = max_exposure_us_frame (motion x)
  /\ max_exposure_us_motion_1px (motion x') = max_exposure_us_motion_1px (motion x)
  /\ recommended_exposure_us (motion x') = recommended_exposure_us (motion x)
  /\ diffraction_dominant (flags x') = diffraction_dominant (flags x)
  /\ potential_vignetting (flags x') = potential_vignetting (flags x).

(** The corner-to-center ratio of lines 80-93. *)
Definition corner_ratio_of `{PyRuntime} (sensor_diag_mm image_distance_mm : float)
    (lens_relative_illumination : option float) : res float :=
  match lens_relative_illumination with
  | Some v => Ok (py_max (py_min (if 1.5 <? v then v / 100 else v) 1) 0)
  | None =>
      if is_finite image_distance_mm && (0 <? image_distance_mm) then
        let* tan_theta := py_div (0.5 * sensor_diag_mm) image_distance_mm in
        let* root := math_sqrt (1 + tan_theta * tan_theta) in
        let* cos_theta := py_div 1 root in
        float_pow cos_theta 4
      else Ok 1
  end.

(** The input of the first round-trip scenario of the specification, without
    an f-number. *)
Definition scenario_without_fstop : gmap string pyval :=
  list_to_map
    [("sensor_width_mm", VFloat 11.3); ("sensor_height_mm", VFloat 7.1);
     ("sensor_pixel_size_width_um", VFloat 3.45);
     ("sensor_pixel_size_height_um", VFloat 3.45);
     ("lens_focal_length_mm", VInt 16); ("working_distance_mm", VInt 200)].

(** The contract of the specification: the conversion of the value of the
    first candidate key that is present, not null and convertible. *)
Fixpoint first_convertible `{PyRuntime} (values : gmap string pyval) (keys : list string)
    : option float :=
  match keys with
  | [] => None
  | key :: keys' =>
      match values !! key with
      | Some v =>
          match (if is_none v then Raise TypeError else py_float v) with
          | Ok x => Some x
          | Raise _ => first_convertible values keys'
          end
      | None => first_convertible values keys'
      end
  end.

(** No candidate is an integer beyond the range of binary64. *)
Definition ints_in_range (values : gmap string pyval) (keys : list string) : Prop :=
  forall key z, In key keys -> values !! key = Some (VInt z) ->
    float_of_int z <> Raise OverflowError.

(** A candidate that [_as_float] passes over: a missing key, [None], a list,
    a dictionary, or a string that [float] rejects. *)
Definition passed_over `{PyRuntime} (v : option pyval) : bool :=
  match v with
  | None | Some VNone | Some (VList _) | Some (VDict _) => true
  | Some (VStr s) =>
      match str_to_float s with
      | Some _ => false
      | None => true
      end
  | Some (VBool _) | Some (VInt _) | Some (VFloat _) => false
  end.

(** [**] takes the fourth power of a number between zero and one to a number
    between zero and one. *)
Definition pow_keeps_unit_interval `{PyRuntime} : Prop :=
  forall c r : float,
    (0 <=? c) = true -> (c <=? 1) = true -> float_pow c 4 = Ok r ->
    (0 <=? r) = true /\ (r <=? 1) = true.

(** * Verification *)

(** * Facts about binary64 comparison *)

Lemma SFcompare_refl (x : spec_float) :
  x <> S754_nan -> SFcompare x x = Some Eq.
Proof.
  destruct x as [s|s| |s mx ex]; simpl; try congruence; intros _.
  - destruct s; reflexivity.
  - rewrite Z.compare_refl, Pos.compare_cont_refl. destruct s; reflexivity.
Qed.

Lemma SFcompare_swap (x y : spec_float) :
  SFcompare y x = option_map CompOpp (SFcompare x y).
Proof.
  destruct x as [s1|s1| |s1 m1 e1], y as [s2|s2| |s2 m2 e2]; simpl;
    try reflexivity; try (destruct s1; reflexivity); try (destruct s2; reflexivity);
    try (destruct s1, s2; reflexivity).
  f_equal.
  rewrite (Z.compare_antisym e1 e2).
  change (Pos.compare_cont Eq m2 m1) with (Pos.compare m2 m1).
  change (Pos.compare_cont Eq m1 m2) with (Pos.compare m1 m2).
  rewrite (Pos.compare_antisym m1 m2).
  destruct s1, s2; try reflexivity;
    destruct (Z.compare e1 e2); simpl; try reflexivity;
    destruct (Pos.compare m1 m2); reflexivity.
Qed.

Lemma is_nan_Prim2SF (x : float) :
  is_nan x = match Prim2SF x with S754_nan => true | _ => false end.
Proof.
  unfold is_nan. rewrite FloatAxioms.eqb_spec. unfold SFeqb.
  destruct (Prim2SF x) eqn:E; try reflexivity;
    rewrite SFcompare_refl by congruence; reflexivity.
Qed.

Lemma leb_refl (x : float) : is_nan x = false -> (x <=? x) = true.
Proof.
  rewrite is_nan_Prim2SF, FloatAxioms.leb_spec. unfold SFleb. intros Hx.
  rewrite SFcompare_refl; [reflexivity|]. intros E. rewrite E in Hx. discriminate.
Qed.

Lemma ltb_leb (x y : float) : (x <? y) = true -> (x <=? y) = true.
Proof.
  rewrite FloatAxioms.ltb_spec, FloatAxioms.leb_spec. unfold SFltb, SFleb.
  destruct (SFcompare _ _) as [[]|]; congruence.
Qed.

Lemma SFcompare_None (x y : spec_float) :
  SFcompare x y = None -> x = S754_nan \/ y = S754_nan.
Proof.
  destruct x as [s1|s1| |s1 m1 e1], y as [s2|s2| |s2 m2 e2]; simpl; auto; discriminate.
Qed.

Lemma nltb_leb (x y : float) :
  is_nan x = false -> is_nan y = false -> (x <? y) = false -> (y <=? x) = true.
Proof.
  rewrite !is_nan_Prim2SF, FloatAxioms.ltb_spec, FloatAxioms.leb_spec. unfold SFltb, SFleb.
  intros Hx Hy. rewrite (SFcompare_swap (Prim2SF x) (Prim2SF y)).
  destruct (SFcompare (Prim2SF x) (Prim2SF y)) as [[]|] eqn:E; simpl; try congruence.
  intros _. apply SFcompare_None in E. destruct E as [E|E]; rewrite E in *; discriminate.
Qed.

Lemma ltb_not_nan (x y : float) :
  (x <? y) = true -> is_nan x = false /\ is_nan y = false.
Proof.
  rewrite !is_nan_Prim2SF, FloatAxioms.ltb_spec. unfold SFltb.
  destruct (Prim2SF x), (Prim2SF y); simpl; auto; discriminate.
Qed.

Lemma leb_not_nan (x y : float) :
  (x <=? y) = true -> is_nan x = false /\ is_nan y = false.
Proof.
  rewrite !is_nan_Prim2SF, FloatAxioms.leb_spec. unfold SFleb.
  destruct (Prim2SF x), (Prim2SF y); simpl; auto; discriminate.
Qed.

(** [min] of two numbers is below both. *)
Lemma py_min_le (a b : float) :
  is_nan a = false -> is_nan b = false ->
  (py_min a b <=? a) = true /\ (py_min a b <=? b) = true.
Proof.
  intros Ha Hb. unfold py_min. destruct (b <? a) eqn:E.
  - split; [now apply ltb_leb | now apply leb_refl].
  - split; [now apply leb_refl | now apply nltb_leb].
Qed.

(** * Signs of rounded results *)

Lemma shr_1_nonneg (mrs : shr_record) :
  (0 <= shr_m mrs)%Z -> (0 <= shr_m (shr_1 mrs))%Z.
Proof.
  destruct mrs as [mm r s]. simpl.
  destruct mm as [|[p|p|]|p]; simpl; lia.
Qed.

Lemma iter_shr_1_nonneg (p : positive) : forall mrs : shr_record,
  (0 <= shr_m mrs)%Z -> (0 <= shr_m (SpecFloat.iter_pos shr_1 p mrs))%Z.
Proof.
  induction p as [p IH|p IH|]; simpl; intros mrs Hm.
  - apply IH, IH, shr_1_nonneg, Hm.
  - apply IH, IH, Hm.
  - apply shr_1_nonneg, Hm.
Qed.

Lemma shr_record_of_loc_m (mm : Z) (l : location) :
  shr_m (shr_record_of_loc mm l) = mm.
Proof. destruct l as [|[]]; reflexivity. Qed.

Lemma shr_fexp_nonneg (mm e : Z) (l : location) :
  (0 <= mm)%Z -> (0 <= shr_m (fst (shr_fexp prec emax mm e l)))%Z.
Proof.
  intros Hm. unfold shr_fexp, shr.
  destruct (fexp prec emax (Zdigits2 mm + e) - e)%Z; simpl;
    try (rewrite shr_record_of_loc_m; exact Hm).
  apply iter_shr_1_nonneg. rewrite shr_record_of_loc_m. exact Hm.
Qed.

Lemma round_nearest_even_nonneg (mm : Z) (l : location) :
  (0 <= mm)%Z -> (0 <= round_nearest_even mm l)%Z.
Proof.
  intros Hm. destruct l as [|[]]; simpl; try lia.
  destruct (Z.even mm); lia.
Qed.

Lemma binary_round_aux_signed (s : bool) (mm e : Z) (l : location) :
  (0 <= mm)%Z -> signed s (binary_round_aux prec emax s mm e l).
Proof.
  intros Hm. unfold binary_round_aux.
  pose proof (shr_fexp_nonneg mm e l Hm) as H1.
  destruct (shr_fexp prec emax mm e l) as [mrs' e']. simpl in H1.
  pose proof (shr_fexp_nonneg _ e' loc_Exact
                (round_nearest_even_nonneg _ (loc_of_shr_record mrs') H1)) as H2.
  destruct (shr_fexp prec emax _ e' loc_Exact) as [mrs'' e'']. simpl in H2.
  destruct (shr_m mrs'') as [|p|p]; simpl; try reflexivity; try lia.
  destruct (e'' <=? emax - prec)%Z; reflexivity.
Qed.

Lemma SFmul_signed (sx sy : bool) (mx my : positive) (ex ey : Z) :
  signed (xorb sx sy)
    (SFmul prec emax (S754_finite sx mx ex) (S754_finite sy my ey)).
Proof. simpl. apply binary_round_aux_signed. lia. Qed.

Lemma SFdiv_signed (sx sy : bool) (mx my : positive) (ex ey : Z) :
  signed (xorb sx sy)
    (SFdiv prec emax (S754_finite sx mx ex) (S754_finite sy my ey)).
Proof.
  unfold SFdiv, SFdiv_core_binary.
  set (e' := Z.min _ _). set (s := (ex - ey - e')%Z).
  set (m' := match s with Z0 => Zpos mx | Zpos _ => Z.shiftl (Zpos mx) s | Zneg _ => 0%Z end).
  assert (Hm' : (0 <= m')%Z).
  { unfold m'. destruct s; try lia. apply Z.shiftl_nonneg. lia. }
  pose proof (Z_div_mod m' (Zpos my) eq_refl) as Hd.
  destruct (Z.div_eucl m' (Zpos my)) as [q r].
  apply binary_round_aux_signed. nia.
Qed.

(** * Non-negative floats *)

Lemma nonneg_not_nan (x : float) : nonneg x -> is_nan x = false.
Proof.
  unfold nonneg. rewrite is_nan_Prim2SF. destruct (Prim2SF x); simpl; tauto.
Qed.

Lemma Prim2SF_zero : Prim2SF 0 = S754_zero false.
Proof. reflexivity. Qed.

Lemma nonneg_leb (x : float) : nonneg x -> (0 <=? x) = true.
Proof.
  unfold nonneg. rewrite FloatAxioms.leb_spec, Prim2SF_zero.
  destruct (Prim2SF x) as [s|s| |s mx ex]; simpl; intros Hs; subst; tauto.
Qed.

Lemma pos_fin_nonneg (x : float) : pos_fin x -> nonneg x.
Proof. intros (mx & ex & E). unfold nonneg. rewrite E. reflexivity. Qed.

Lemma ltb_0_cases (x : float) :
  (0 <? x) = true -> pos_fin x \/ Prim2SF x = S754_infinity false.
Proof.
  rewrite FloatAxioms.ltb_spec, Prim2SF_zero. unfold pos_fin, SFltb.
  destruct (Prim2SF x) as [s|s| |s mx ex]; simpl; try discriminate.
  - destruct s; [discriminate|auto].
  - destruct s; [discriminate|]. intros _. left. eauto.
Qed.

Lemma ltb_0_nonneg (x : float) : (0 <? x) = true -> nonneg x.
Proof.
  intros Hx. destruct (ltb_0_cases x Hx) as [Hp|Hi].
  - now apply pos_fin_nonneg.
  - unfold nonneg. rewrite Hi. reflexivity.
Qed.

Lemma ltb_0_not_zero (x : float) : (0 <? x) = true -> is_zero x = false.
Proof.
  intros Hx. unfold is_zero. rewrite FloatAxioms.eqb_spec.
  destruct (ltb_0_cases x Hx) as [(mx & ex & E)|E]; rewrite E; reflexivity.
Qed.

(** A division guarded by [0 < y] does not raise. *)
Lemma py_div_pos (x y : float) : (0 <? y) = true -> py_div x y = Ok (x / y).
Proof. intros Hy. unfold py_div. now rewrite ltb_0_not_zero. Qed.

Lemma mul_pos_fin_nonneg (x y : float) : pos_fin x -> nonneg y -> nonneg (x * y).
Proof.
  intros (mx & ex & Ex) Hy. unfold nonneg in *.
  rewrite mul_spec, Ex. unfold SF64mul.
  destruct (Prim2SF y) as [s|s| |s my ey]; simpl in Hy; subst; try tauto;
    try reflexivity.
  apply (SFmul_signed false false).
Qed.

Lemma div_nonneg_pos_fin (x y : float) : nonneg x -> pos_fin y -> nonneg (x / y).
Proof.
  intros Hx (my & ey & Ey). unfold nonneg in *.
  rewrite div_spec, Ey. unfold SF64div.
  destruct (Prim2SF x) as [s|s| |s mx ex]; simpl in Hx; subst; try tauto;
    try reflexivity.
  apply (SFdiv_signed false false).
Qed.

Lemma div_pos_fin_pos (x y : float) : pos_fin x -> (0 <? y) = true -> nonneg (x / y).
Proof.
  intros Hx Hy. destruct (ltb_0_cases y Hy) as [Hp|Hi].
  - apply div_nonneg_pos_fin; [now apply pos_fin_nonneg|exact Hp].
  - destruct Hx as (mx & ex & Ex). unfold nonneg.
    rewrite div_spec, Ex, Hi. reflexivity.
Qed.

Lemma pos_fin_1 : pos_fin 1.
Proof. eexists _, _. reflexivity. Qed.

Lemma pos_fin_1e6 : pos_fin 1e6.
Proof. eexists _, _. reflexivity. Qed.

(** * Negative numbers and zero *)

Lemma ltb_neg_cases (x : float) :
  (x <? 0) = true ->
  (exists mx ex, Prim2SF x = S754_finite true mx ex) \/ Prim2SF x = S754_infinity true.
Proof.
  rewrite FloatAxioms.ltb_spec, Prim2SF_zero. unfold SFltb.
  destruct (Prim2SF x) as [s|s| |s mx ex]; simpl; try discriminate.
  - destruct s; [auto|discriminate].
  - destruct s; [|discriminate]. intros _. left. eauto.
Qed.

Lemma neg_not_pos (x : float) : (x <? 0) = true -> (0 <? x) = false.
Proof.
  intros Hx. rewrite FloatAxioms.ltb_spec, Prim2SF_zero.
  destruct (ltb_neg_cases x Hx) as [(mx & ex & E)|E]; rewrite E; reflexivity.
Qed.

Lemma neg_truthy (x : float) : (x <? 0) = true -> truthy x = true.
Proof.
  intros Hx. unfold truthy. rewrite FloatAxioms.eqb_spec, Prim2SF_zero.
  destruct (ltb_neg_cases x Hx) as [(mx & ex & E)|E]; rewrite E; reflexivity.
Qed.

Lemma pos_truthy (x : float) : (0 <? x) = true -> truthy x = true.
Proof.
  intros Hx. unfold truthy. rewrite FloatAxioms.eqb_spec, Prim2SF_zero.
  destruct (ltb_0_cases x Hx) as [(mx & ex & E)|E]; rewrite E; reflexivity.
Qed.

Lemma falsy_not_pos (x : float) : truthy x = false -> (0 <? x) = false.
Proof.
  unfold truthy. rewrite FloatAxioms.eqb_spec, FloatAxioms.ltb_spec, Prim2SF_zero.
  unfold SFeqb, SFltb.
  destruct (Prim2SF x) as [s|s| |s mx ex]; simpl; try reflexivity;
    destruct s; simpl; intros; congruence.
Qed.

(** A positive number is not below a negative one. *)
Lemma pos_leb_neg (d x : float) :
  (0 <? d) = true -> (x <? 0) = true -> (d <=? x) = false.
Proof.
  intros Hd Hx. rewrite FloatAxioms.leb_spec.
  destruct (ltb_0_cases d Hd) as [(md & ed & Ed)|Ed];
    destruct (ltb_neg_cases x Hx) as [(mx & ex & Ex)|Ex];
    rewrite Ed, Ex; reflexivity.
Qed.

(** * NaN *)

Lemma Prim2SF_nan : Prim2SF nan = S754_nan.
Proof. reflexivity. Qed.

Lemma is_nan_eq (x : float) : is_nan x = true -> x = nan.
Proof.
  rewrite is_nan_Prim2SF. intros Hx. apply Prim2SF_inj. rewrite Prim2SF_nan.
  destruct (Prim2SF x); try discriminate. reflexivity.
Qed.

Lemma sub_nan_l (y : float) : nan - y = nan.
Proof. apply Prim2SF_inj. rewrite sub_spec, Prim2SF_nan. reflexivity. Qed.

Lemma mul_nan_r (x : float) : x * nan = nan.
Proof.
  apply Prim2SF_inj. rewrite mul_spec, Prim2SF_nan.
  destruct (Prim2SF x); reflexivity.
Qed.

Lemma nan_not_pos (x : float) : is_nan x = true -> (0 <? x) = false.
Proof. intros Hx. rewrite (is_nan_eq x Hx). reflexivity. Qed.

Lemma leb_nan_r (d x : float) : is_nan x = true -> (d <=? x) = false.
Proof.
  intros Hx. rewrite (is_nan_eq x Hx), FloatAxioms.leb_spec, Prim2SF_nan.
  destruct (Prim2SF d); reflexivity.
Qed.

(** * Clamping to the unit interval *)

Lemma leb_nltb (a b : float) : (a <=? b) = true -> (b <? a) = false.
Proof.
  rewrite FloatAxioms.leb_spec, FloatAxioms.ltb_spec. unfold SFleb, SFltb.
  rewrite (SFcompare_swap (Prim2SF a) (Prim2SF b)).
  destruct (SFcompare (Prim2SF a) (Prim2SF b)) as [[]|]; simpl; congruence.
Qed.

Lemma py_min_not_nan (a b : float) :
  is_nan a = false -> is_nan b = false -> is_nan (py_min a b) = false.
Proof. intros Ha Hb. unfold py_min. now destruct (b <? a). Qed.

Lemma clamp_unit (c : float) :
  is_nan c = false ->
  (0 <=? py_max (py_min c 1) 0) = true /\ (py_max (py_min c 1) 0 <=? 1) = true.
Proof.
  intros Hc.
  assert (Ht : is_nan (py_min c 1) = false) by now apply py_min_not_nan.
  destruct (py_min_le c 1 Hc eq_refl) as (_ & H1).
  unfold py_max. destruct (py_min c 1 <? 0) eqn:E.
  - split; reflexivity.
  - split; [|exact H1]. now apply nltb_leb.
Qed.

Lemma pos_fin_100 : pos_fin 100.
Proof. eexists _, _. reflexivity. Qed.

Lemma div_pos_fin_not_nan (v d : float) :
  pos_fin d -> is_nan v = false -> is_nan (v / d) = false.
Proof.
  intros (md & ed & Ed). rewrite !is_nan_Prim2SF, div_spec, Ed. unfold SF64div.
  destruct (Prim2SF v) as [s|s| |s mv ev]; try reflexivity; try discriminate.
  intros _. pose proof (SFdiv_signed s false mv md ev ed) as Hs.
  destruct (SFdiv prec emax _ _); simpl in Hs; tauto.
Qed.

(** The divisor of the exposure compensation is never zero. *)
Lemma py_max_floor_not_zero (r : float) :
  (0 <? r) = true -> is_zero (py_max r 1e-9) = false.
Proof.
  intros Hr. unfold py_max. destruct (r <? 1e-9); [reflexivity|].
  now apply ltb_0_not_zero.
Qed.

Lemma pos_fin_leb_pos (a r : float) :
  pos_fin a -> (a <=? r) = true -> (0 <? r) = true.
Proof.
  intros (ma & ea & Ea).
  rewrite FloatAxioms.leb_spec, FloatAxioms.ltb_spec, Prim2SF_zero, Ea.
  destruct (Prim2SF r) as [s|s| |s mr er]; simpl; try discriminate;
    destruct s; simpl; try discriminate; reflexivity.
Qed.

Lemma pos_fin_1e_9 : pos_fin 1e-9.
Proof. eexists _, _. reflexivity. Qed.

Section Rounding.
Local Open Scope Z_scope.

(** * Digits and shifts *)

Lemma digits2_bounds (p : positive) :
  2 ^ (Zpos (digits2_pos p) - 1) <= Zpos p < 2 ^ Zpos (digits2_pos p).
Proof.
  induction p as [p IH|p IH|]; simpl digits2_pos.
  - rewrite Pos2Z.inj_succ. replace (Z.succ (Zpos (digits2_pos p)) - 1)
      with (Z.succ (Zpos (digits2_pos p) - 1)) by lia.
    rewrite !Z.pow_succ_r by lia. lia.
  - rewrite Pos2Z.inj_succ. replace (Z.succ (Zpos (digits2_pos p)) - 1)
      with (Z.succ (Zpos (digits2_pos p) - 1)) by lia.
    rewrite !Z.pow_succ_r by lia. lia.
  - simpl. lia.
Qed.

Lemma digits2_unique (p : positive) (k : Z) :
  2 ^ (k - 1) <= Zpos p < 2 ^ k -> Zpos (digits2_pos p) = k.
Proof.
  intros (Hl & Hu). pose proof (digits2_bounds p) as (Hl' & Hu').
  assert (0 < k).
  { destruct (Z.ltb_spec 0 k); [assumption|].
    rewrite (Z.pow_neg_r 2 (k - 1)) in Hl by lia.
    destruct (Z.eqb_spec k 0) as [->|]; [simpl in Hu; lia|].
    rewrite (Z.pow_neg_r 2 k) in Hu by lia. lia. }
  destruct (Z.lt_trichotomy (Zpos (digits2_pos p)) k) as [Hc|[Hc|Hc]]; [|exact Hc|].
  - assert (2 ^ Zpos (digits2_pos p) <= 2 ^ (k - 1)) by (apply Z.pow_le_mono_r; lia). lia.
  - assert (2 ^ k <= 2 ^ (Zpos (digits2_pos p) - 1)) by (apply Z.pow_le_mono_r; lia). lia.
Qed.

Lemma shr_1_div2 (mrs : shr_record) :
  0 <= shr_m mrs -> shr_m (shr_1 mrs) = shr_m mrs / 2.
Proof.
  destruct mrs as [mm r s]. simpl.
  destruct mm as [|[p|p|]|p]; simpl; intros Hm; try lia; try reflexivity.
  - rewrite Pos2Z.inj_xI. apply Z.div_unique with 1; lia.
  - rewrite Pos2Z.inj_xO. apply Z.div_unique with 0; lia.
Qed.

Lemma pow2_xI (p : positive) : 2 ^ Zpos p~1 = 2 * 2 ^ Zpos p * 2 ^ Zpos p.
Proof.
  rewrite Pos2Z.inj_xI. replace (2 * Zpos p + 1) with (Zpos p + Zpos p + 1) by lia.
  rewrite !Z.pow_add_r by lia. change (2 ^ 1) with 2. lia.
Qed.

Lemma pow2_xO (p : positive) : 2 ^ Zpos p~0 = 2 ^ Zpos p * 2 ^ Zpos p.
Proof.
  replace (Zpos p~0) with (Zpos p + Zpos p) by lia. apply Z.pow_add_r; lia.
Qed.

Lemma iter_shr_1_div (p : positive) : forall mrs : shr_record,
  0 <= shr_m mrs ->
  shr_m (SpecFloat.iter_pos shr_1 p mrs) = shr_m mrs / 2 ^ Zpos p.
Proof.
  induction p as [p IH|p IH|]; simpl SpecFloat.iter_pos; intros mrs Hm;
    try assert (Hp : 0 < 2 ^ Zpos p) by (apply Z.pow_pos_nonneg; lia).
  - rewrite IH by (apply iter_shr_1_nonneg, shr_1_nonneg, Hm).
    rewrite IH by (apply shr_1_nonneg, Hm).
    rewrite shr_1_div2 by exact Hm.
    rewrite !Z.div_div by nia. rewrite pow2_xI. f_equal. ring.
  - rewrite IH by (apply iter_shr_1_nonneg, Hm).
    rewrite IH by exact Hm.
    rewrite !Z.div_div by nia. now rewrite pow2_xO.
  - rewrite shr_1_div2 by exact Hm. reflexivity.
Qed.

(** * Rounding a positive integer significand *)

Lemma fexp_eq (x : Z) : fexp prec emax x = Z.max (x - 53) (-1074).
Proof. reflexivity. Qed.

Lemma loc_of_shr_record_of_loc (mm : Z) (l : location) :
  loc_of_shr_record (shr_record_of_loc mm l) = l.
Proof. destruct l as [|[]]; reflexivity. Qed.

Lemma shr_fexp_noshift (mm : positive) (e : Z) (l : location) :
  fexp prec emax (Zpos (digits2_pos mm) + e) <= e ->
  shr_fexp prec emax (Zpos mm) e l = (shr_record_of_loc (Zpos mm) l, e).
Proof.
  intros Hn. unfold shr_fexp, shr. simpl Zdigits2.
  destruct (fexp prec emax (Zpos (digits2_pos mm) + e) - e) eqn:E; try reflexivity. lia.
Qed.

Lemma shr_fexp_shift (mm : positive) (e : Z) (l : location) :
  e < fexp prec emax (Zpos (digits2_pos mm) + e) ->
  exists r,
    shr_fexp prec emax (Zpos mm) e l = (r, fexp prec emax (Zpos (digits2_pos mm) + e))
    /\ shr_m r = Zpos mm / 2 ^ (fexp prec emax (Zpos (digits2_pos mm) + e) - e).
Proof.
  intros Hn. unfold shr_fexp, shr. simpl Zdigits2.
  destruct (fexp prec emax (Zpos (digits2_pos mm) + e) - e) as [|p|p] eqn:E; try lia.
  eexists. split.
  - f_equal. lia.
  - rewrite iter_shr_1_div by (rewrite shr_record_of_loc_m; lia).
    now rewrite shr_record_of_loc_m.
Qed.

Lemma round_nearest_even_cases (mm : Z) (l : location) :
  round_nearest_even mm l = mm \/ round_nearest_even mm l = mm + 1.
Proof.
  destruct l as [|[]]; simpl; auto. destruct (Z.even mm); auto.
Qed.

(** The digits of a quotient by a power of two. *)
Lemma digits2_div_pow2 (mm q : positive) (n : Z) :
  0 <= n < Zpos (digits2_pos mm) ->
  Zpos q = Zpos mm / 2 ^ n ->
  Zpos (digits2_pos q) = Zpos (digits2_pos mm) - n.
Proof.
  intros Hn Hq. apply digits2_unique. rewrite Hq.
  pose proof (digits2_bounds mm) as (Hl & Hu).
  assert (Hp : 0 < 2 ^ n) by (apply Z.pow_pos_nonneg; lia).
  split.
  - apply Z.div_le_lower_bound; [exact Hp|].
    rewrite <- Z.pow_add_r by lia.
    replace (n + (Zpos (digits2_pos mm) - n - 1)) with (Zpos (digits2_pos mm) - 1) by lia.
    exact Hl.
  - apply Z.div_lt_upper_bound; [exact Hp|].
    rewrite <- Z.pow_add_r by lia.
    replace (n + (Zpos (digits2_pos mm) - n)) with (Zpos (digits2_pos mm)) by lia.
    exact Hu.
Qed.

Lemma iter_xO_value (p : positive) : forall mm : positive,
  Zpos (Pos.iter xO mm p) = Zpos mm * 2 ^ Zpos p.
Proof.
  induction p as [p IH|p IH|]; intros mm; simpl Pos.iter.
  - rewrite Pos2Z.inj_xO, IH, IH, pow2_xI. ring.
  - rewrite IH, IH, pow2_xO. ring.
  - rewrite Pos2Z.inj_xO. change (2 ^ 1) with 2. ring.
Qed.

Lemma shl_align_value (mm : positive) (e e' : Z) :
  let '(mz, ez) := shl_align mm e e' in
  ez = Z.min e e' /\ Zpos mz = Zpos mm * 2 ^ (e - ez).
Proof.
  unfold shl_align. destruct (e' - e) as [|p|p] eqn:E.
  - split; [lia|]. replace (e - e) with 0 by lia. simpl. lia.
  - split; [lia|]. replace (e - e) with 0 by lia. simpl. lia.
  - split; [lia|]. replace (e - e') with (Zpos p) by lia. apply iter_xO_value.
Qed.

(** From [2^1024] on a value is above the largest finite number. *)
Lemma above_max (mm : positive) (e : Z) :
  -1074 <= e -> 1025 <= Zpos (digits2_pos mm) + e ->
  max_value <= Zpos mm * 2 ^ (e + 1074).
Proof.
  intros He Hd. pose proof (digits2_bounds mm) as (Hl & _).
  assert (Hp : 0 < 2 ^ (e + 1074)) by (apply Z.pow_pos_nonneg; lia).
  assert (H1 : 2 ^ 2098 <= 2 ^ (Zpos (digits2_pos mm) - 1) * 2 ^ (e + 1074)).
  { rewrite <- Z.pow_add_r by lia. apply Z.pow_le_mono_r; lia. }
  assert (H2 : max_value <= 2 ^ 2098) by (unfold max_value; lia).
  nia.
Qed.

(** Rounding a positive significand [mm] at an exponent [e] in range, whatever
    the location of the exact value above it: the result is finite and lies
    between the powers of two that surround [mm * 2^e], or it is infinite. *)
Lemma binary_round_aux_cases (s : bool) (mm : positive) (e : Z) (l : location) :
  -1074 <= e ->
  (exists m' e',
     binary_round_aux prec emax s (Zpos mm) e l = S754_finite s m' e'
     /\ 2 ^ (Zpos (digits2_pos mm) + e - 1 + 1074) <= Zpos m' * 2 ^ (e' + 1074)
        <= 2 ^ (Zpos (digits2_pos mm) + e + 1074))
  \/ (binary_round_aux prec emax s (Zpos mm) e l = S754_infinity s
      /\ (max_value <= Zpos mm * 2 ^ (e + 1074) \/ 971 < e)).
Proof.
  intros He. set (d := Zpos (digits2_pos mm)).
  assert (Hpd : 0 < d) by (unfold d; lia).
  pose proof (digits2_bounds mm) as (Hl & Hu). fold d in Hl, Hu.
  assert (Hpe : 0 < 2 ^ (e + 1074)) by (apply Z.pow_pos_nonneg; lia).
  assert (Hlo : 2 ^ (d + e - 1 + 1074) = 2 ^ (d - 1) * 2 ^ (e + 1074)).
  { rewrite <- Z.pow_add_r by lia. f_equal. lia. }
  assert (Hhi : 2 ^ (d + e + 1074) = 2 ^ d * 2 ^ (e + 1074)).
  { rewrite <- Z.pow_add_r by lia. f_equal. lia. }
  assert (H2d : 2 ^ d = 2 * 2 ^ (d - 1)).
  { replace d with (Z.succ (d - 1)) at 1 by lia. apply Z.pow_succ_r. lia. }
  unfold binary_round_aux.
  destruct (Z.le_gt_cases (fexp prec emax (Zpos (digits2_pos mm) + e)) e) as [Hns|Hsh].
  - (* the significand fits: nothing is shifted out *)
    rewrite (shr_fexp_noshift mm e l Hns).
    rewrite loc_of_shr_record_of_loc, shr_record_of_loc_m.
    fold d in Hns. rewrite fexp_eq in Hns.
    destruct (round_nearest_even_cases (Zpos mm) l) as [Hr|Hr]; rewrite Hr; clear Hr.
    + rewrite (shr_fexp_noshift mm e loc_Exact) by (fold d; rewrite fexp_eq; exact Hns).
      simpl shr_m.
      destruct (Z.leb_spec e (emax - prec)) as [_|Hov].
      * left. exists mm, e. split; [reflexivity|]. rewrite Hlo, Hhi. nia.
      * right. split; [reflexivity|]. right. exact Hov.
    + destruct (Zpos mm + 1) as [|q|q] eqn:Eq; try lia.
      destruct (Z.eq_dec (Zpos q) (2 ^ d)) as [Hc|Hc].
      * (* a carry to the next power of two *)
        assert (Hdq : Zpos (digits2_pos q) = d + 1).
        { apply digits2_unique. replace (d + 1 - 1) with d by lia.
          rewrite Hc. split; [lia|]. rewrite Z.pow_add_r by lia. change (2 ^ 1) with 2. lia. }
        destruct (Z.le_gt_cases (fexp prec emax (Zpos (digits2_pos q) + e)) e) as [Hns2|Hsh2].
        -- rewrite (shr_fexp_noshift q e loc_Exact Hns2). simpl shr_m.
           destruct (Z.leb_spec e (emax - prec)) as [_|Hov].
           ++ left. exists q, e. split; [reflexivity|]. rewrite Hlo, Hhi, Hc. nia.
           ++ right. split; [reflexivity|]. right. exact Hov.
        -- destruct (shr_fexp_shift q e loc_Exact Hsh2) as (r2 & -> & Hr2).
           rewrite Hdq, fexp_eq in Hr2, Hsh2 |- *.
           assert (Hd53 : d = 53) by lia.
           replace (Z.max (d + 1 + e - 53) (-1074)) with (e + 1) in * by lia.
           replace (e + 1 - e) with 1 in Hr2 by lia.
           rewrite Hc, H2d in Hr2. change (2 ^ 1) with 2 in Hr2.
           rewrite Z.mul_comm, Z.div_mul in Hr2 by lia.
           assert (Hpd1 : 0 < 2 ^ (d - 1)) by (apply Z.pow_pos_nonneg; lia).
           destruct (shr_m r2) as [|q2|q2]; try lia.
           destruct (Z.leb_spec (e + 1) (emax - prec)) as [_|Hov].
           ++ left. exists q2, (e + 1). split; [reflexivity|].
              rewrite Hlo, Hhi, Hr2, H2d.
              replace (e + 1 + 1074) with (Z.succ (e + 1074)) by lia.
              rewrite Z.pow_succ_r by lia. nia.
           ++ right. split; [reflexivity|].
              change (emax - prec) with 971 in Hov.
              destruct (Z.le_gt_cases e 971) as [Hle|Hgt]; [left|right; exact Hgt].
              assert (e = 971) by lia. subst e.
              assert (Zpos mm = 2 ^ 53 - 1) as -> by (rewrite <- Hd53; lia).
              unfold max_value. change (971 + 1074) with 2045. lia.
      * assert (Hdq : Zpos (digits2_pos q) = d) by (apply digits2_unique; lia).
        rewrite (shr_fexp_noshift q e loc_Exact) by (rewrite Hdq, fexp_eq; exact Hns).
        simpl shr_m.
        destruct (Z.leb_spec e (emax - prec)) as [_|Hov].
        -- left. exists q, e. split; [reflexivity|]. rewrite Hlo, Hhi. nia.
        -- right. split; [reflexivity|]. right. exact Hov.
  - (* [d - 53] low bits are shifted out *)
    destruct (shr_fexp_shift mm e l Hsh) as (r1 & -> & Hr1).
    fold d in Hsh, Hr1 |- *. rewrite fexp_eq in Hsh, Hr1 |- *.
    replace (Z.max (d + e - 53) (-1074)) with (d + e - 53) in * by lia.
    replace (d + e - 53 - e) with (d - 53) in Hr1 by lia.
    assert (Hp : 0 < 2 ^ (d - 53)) by (apply Z.pow_pos_nonneg; lia).
    assert (Hq1 : 2 ^ 52 <= shr_m r1 < 2 ^ 53).
    { rewrite Hr1. split.
      - apply Z.div_le_lower_bound; [exact Hp|].
        rewrite <- Z.pow_add_r by lia. now replace (d - 53 + 52) with (d - 1) by lia.
      - apply Z.div_lt_upper_bound; [exact Hp|].
        rewrite <- Z.pow_add_r by lia. now replace (d - 53 + 53) with d by lia. }
    assert (Hpx : 0 < 2 ^ (d + e - 53 + 1074)) by (apply Z.pow_pos_nonneg; lia).
    assert (Hlo' : 2 ^ (d + e - 1 + 1074) = 2 ^ 52 * 2 ^ (d + e - 53 + 1074)).
    { rewrite <- Z.pow_add_r by lia. f_equal. lia. }
    assert (Hhi' : 2 ^ (d + e + 1074) = 2 ^ 53 * 2 ^ (d + e - 53 + 1074)).
    { rewrite <- Z.pow_add_r by lia. f_equal. lia. }
    destruct (round_nearest_even_cases (shr_m r1) (loc_of_shr_record r1)) as [Hr|Hr];
      rewrite Hr; clear Hr.
    + (* rounded down *)
      destruct (shr_m r1) as [|q|q] eqn:Eq; try lia.
      assert (Hdq : Zpos (digits2_pos q) = 53) by (apply digits2_unique; simpl; lia).
      rewrite shr_fexp_noshift by (rewrite Hdq, fexp_eq; lia).
      simpl shr_m.
      destruct (Z.leb_spec (d + e - 53) (emax - prec)) as [_|Hov].
      * left. exists q, (d + e - 53). split; [reflexivity|]. rewrite Hlo', Hhi'. nia.
      * right. split; [reflexivity|]. left.
        change (emax - prec) with 971 in Hov. apply above_max; [exact He|]. fold d. lia.
    + (* rounded up *)
      destruct (shr_m r1 + 1) as [|q|q] eqn:Eq; try lia.
      destruct (Z.eq_dec (Zpos q) (2 ^ 53)) as [Hc|Hc].
      * (* the significand overflows to [2^53] *)
        assert (Hdq : Zpos (digits2_pos q) = 54) by (apply digits2_unique; simpl; lia).
        destruct (shr_fexp_shift q (d + e - 53) loc_Exact) as (r2 & -> & Hr2).
        { rewrite Hdq, fexp_eq. lia. }
        rewrite Hdq, fexp_eq in Hr2 |- *.
        replace (Z.max (54 + (d + e - 53) - 53) (-1074)) with (d + e - 52) in * by lia.
        replace (d + e - 52 - (d + e - 53)) with 1 in Hr2 by lia.
        rewrite Hc in Hr2. change (2 ^ 53 / 2 ^ 1) with (2 ^ 52) in Hr2.
        destruct (shr_m r2) as [|q2|q2]; try lia.
        destruct (Z.leb_spec (d + e - 52) (emax - prec)) as [_|Hov].
        -- left. exists q2, (d + e - 52). split; [reflexivity|].
           rewrite Hlo', Hhi', Hr2.
           replace (d + e - 52 + 1074) with (Z.succ (d + e - 53 + 1074)) by lia.
           rewrite Z.pow_succ_r by lia. lia.
        -- right. split; [reflexivity|]. left.
           change (emax - prec) with 971 in Hov.
           destruct (Z.le_gt_cases 1025 (d + e)) as [Hbig|Hde];
             [apply above_max; [exact He|exact Hbig]|].
           assert (Hm : (2 ^ 53 - 1) * 2 ^ (d - 53) <= Zpos mm).
           { assert (shr_m r1 = 2 ^ 53 - 1) as Hm1 by lia.
             rewrite Hr1 in Hm1. rewrite <- Hm1, Z.mul_comm. now apply Z.mul_div_le. }
           assert (Hv : (2 ^ 53 - 1) * 2 ^ (d - 53) * 2 ^ (e + 1074)
                        <= Zpos mm * 2 ^ (e + 1074)).
           { apply Z.mul_le_mono_nonneg_r; [|exact Hm]. apply Z.pow_nonneg. lia. }
           rewrite <- Z.mul_assoc, <- Z.pow_add_r in Hv by lia.
           replace (d - 53 + (e + 1074)) with 2045 in Hv by lia.
           exact Hv.
      * assert (Hdq : Zpos (digits2_pos q) = 53) by (apply digits2_unique; simpl; lia).
        rewrite shr_fexp_noshift by (rewrite Hdq, fexp_eq; lia).
        simpl shr_m.
        destruct (Z.leb_spec (d + e - 53) (emax - prec)) as [_|Hov].
        -- left. exists q, (d + e - 53). split; [reflexivity|]. rewrite Hlo', Hhi'. nia.
        -- right. split; [reflexivity|]. left.
           change (emax - prec) with 971 in Hov. apply above_max; [exact He|]. fold d. lia.
Qed.

(** Rounding an exact positive value never gives zero: the result is finite,
    between the surrounding powers of two, or infinite when the value is not
    below the largest finite number. *)
Lemma binary_round_cases (s : bool) (mm : positive) (e : Z) :
  -1074 <= e ->
  (exists m' e',
     binary_round prec emax s mm e = S754_finite s m' e'
     /\ 2 ^ (Zpos (digits2_pos mm) + e - 1 + 1074) <= Zpos m' * 2 ^ (e' + 1074)
        <= 2 ^ (Zpos (digits2_pos mm) + e + 1074))
  \/ (binary_round prec emax s mm e = S754_infinity s
      /\ max_value <= Zpos mm * 2 ^ (e + 1074)).
Proof.
  intros He. unfold binary_round.
  pose proof (shl_align_value mm e (fexp prec emax (Zpos (digits2_pos mm) + e))) as Ha.
  destruct (shl_align mm e _) as [mz ez]. destruct Ha as (Hez & Hmz).
  set (d := Zpos (digits2_pos mm)) in *.
  assert (Hpd : 0 < d) by (unfold d; lia).
  rewrite fexp_eq in Hez.
  assert (Hdz : Zpos (digits2_pos mz) = d + (e - ez)).
  { apply digits2_unique. rewrite Hmz.
    pose proof (digits2_bounds mm) as (Hl & Hu). fold d in Hl, Hu.
    assert (Hp : 0 < 2 ^ (e - ez)) by (apply Z.pow_pos_nonneg; lia).
    replace (d + (e - ez) - 1) with ((d - 1) + (e - ez)) by lia.
    rewrite !Z.pow_add_r by lia. nia. }
  assert (Hval : Zpos mz * 2 ^ (ez + 1074) = Zpos mm * 2 ^ (e + 1074)).
  { rewrite Hmz, <- Z.mul_assoc, <- Z.pow_add_r by lia. f_equal. f_equal. lia. }
  destruct (binary_round_aux_cases s mz ez loc_Exact) as [(m' & e' & E & Hb)|(E & Hb)];
    [lia| |].
  - left. exists m', e'. split; [exact E|].
    rewrite Hdz in Hb. now replace (d + (e - ez) + ez) with (d + e) in Hb by lia.
  - right. split; [exact E|]. destruct Hb as [Hb|Hb]; [now rewrite <- Hval|].
    apply above_max; [exact He|]. fold d. lia.
Qed.

(** * Subtraction *)

Lemma bounded_spec (mm : positive) (e : Z) :
  bounded prec emax mm e = true ->
  Z.max (Zpos (digits2_pos mm) + e - 53) (-1074) = e /\ e <= 971.
Proof.
  unfold bounded, canonical_mantissa.
  rewrite andb_true_iff, Z.eqb_eq, Z.leb_le, fexp_eq.
  change (emax - prec) with 971. tauto.
Qed.

Lemma valid_finite (x : float) (s : bool) (mm : positive) (e : Z) :
  Prim2SF x = S754_finite s mm e -> bounded prec emax mm e = true.
Proof. intros E. pose proof (Prim2SF_valid x) as Hv. now rewrite E in Hv. Qed.

(** Canonical significands are ordered like the numbers. *)
Lemma canonical_lt (mx my : positive) (ex ey : Z) :
  bounded prec emax mx ex = true -> bounded prec emax my ey = true ->
  ex < ey \/ (ex = ey /\ Zpos mx < Zpos my) ->
  Zpos mx * 2 ^ (ex - Z.min ex ey) < Zpos my * 2 ^ (ey - Z.min ex ey).
Proof.
  intros Hx Hy Hlt.
  apply bounded_spec in Hx, Hy. destruct Hx as (Hx & _), Hy as (Hy & _).
  destruct Hlt as [Hlt|(-> & Hlt)].
  - replace (Z.min ex ey) with ex by lia.
    replace (ex - ex) with 0 by lia. rewrite Z.pow_0_r, Z.mul_1_r.
    pose proof (digits2_bounds mx) as (_ & Hux).
    pose proof (digits2_bounds my) as (Hly & _).
    assert (Hdy : Zpos (digits2_pos my) = 53) by lia. rewrite Hdy in Hly.
    assert (Hdx : 2 ^ Zpos (digits2_pos mx) <= 2 ^ 53) by (apply Z.pow_le_mono_r; lia).
    assert (Hp : 2 ^ 1 <= 2 ^ (ey - ex)) by (apply Z.pow_le_mono_r; lia).
    change (2 ^ (53 - 1)) with (2 ^ 52) in Hly. change (2 ^ 1) with 2 in Hp. nia.
  - replace (Z.min ey ey) with ey by lia.
    replace (ey - ey) with 0 by lia. rewrite Z.pow_0_r. lia.
Qed.

Lemma bounded_value_le_max (mm : positive) (e : Z) :
  bounded prec emax mm e = true -> Zpos mm * 2 ^ (e + 1074) <= max_value.
Proof.
  intros Hb. apply bounded_spec in Hb. destruct Hb as (Hc & He).
  pose proof (digits2_bounds mm) as (_ & Hu).
  assert (Hd : 2 ^ Zpos (digits2_pos mm) <= 2 ^ 53) by (apply Z.pow_le_mono_r; lia).
  assert (Hp : 2 ^ (e + 1074) <= 2 ^ 2045) by (apply Z.pow_le_mono_r; lia).
  assert (Hq : 0 < 2 ^ (e + 1074)) by (apply Z.pow_pos_nonneg; lia).
  unfold max_value. nia.
Qed.

Lemma shl_align_fst (mm : positive) (e ez : Z) :
  ez <= e -> Zpos (fst (shl_align mm e ez)) = Zpos mm * 2 ^ (e - ez).
Proof.
  intros Hle. pose proof (shl_align_value mm e ez) as Ha.
  destruct (shl_align mm e ez) as [mz ez']. destruct Ha as (He' & Hm). simpl fst.
  rewrite Hm, He'. now replace (Z.min e ez) with ez by lia.
Qed.

(** The difference of two finite numbers, the first one the larger, is
    positive: a finite number or, on overflow, [+infinity]. *)
Lemma SFsub_finite_gt (sx sy : bool) (mx my : positive) (ex ey : Z) :
  bounded prec emax mx ex = true -> bounded prec emax my ey = true ->
  SFcompare (S754_finite sx mx ex) (S754_finite sy my ey) = Some Gt ->
  (exists m' e',
     SFsub prec emax (S754_finite sx mx ex) (S754_finite sy my ey)
     = S754_finite false m' e')
  \/ (SFsub prec emax (S754_finite sx mx ex) (S754_finite sy my ey)
      = S754_infinity false /\ (sx = true \/ sy = true)).
Proof.
  intros Hx Hy Hc.
  pose proof (bounded_spec _ _ Hx) as (Hcx & _).
  pose proof (bounded_spec _ _ Hy) as (Hcy & _).
  unfold SFsub. set (ez := Z.min ex ey).
  rewrite (shl_align_fst mx ex ez), (shl_align_fst my ey ez) by (unfold ez; lia).
  set (X := Zpos mx * 2 ^ (ex - ez)). set (Y := Zpos my * 2 ^ (ey - ez)).
  assert (HX : 0 < X) by (unfold X; apply Z.mul_pos_pos; [lia|apply Z.pow_pos_nonneg; lia]).
  assert (HY : 0 < Y) by (unfold Y; apply Z.mul_pos_pos; [lia|apply Z.pow_pos_nonneg; lia]).
  assert (Hez : -1074 <= ez) by (unfold ez; lia).
  assert (Hpos : 0 < cond_Zopp sx X - cond_Zopp sy Y
                 /\ (sx = false -> sy = false -> cond_Zopp sx X - cond_Zopp sy Y < X)).
  { simpl in Hc. destruct sx, sy; simpl; try discriminate.
    - (* both negative: the second is larger in magnitude *)
      split; [|discriminate].
      assert (X < Y); [|lia]. unfold X, Y, ez.
      apply canonical_lt; [exact Hx|exact Hy|].
      destruct (Z.compare_spec ex ey) as [->| |]; try discriminate; [|lia].
      right. split; [reflexivity|].
      change (Pos.compare_cont Eq mx my) with (Pos.compare mx my) in Hc.
      destruct (Pos.compare_spec mx my); try discriminate. lia.
    - split; [lia|]. discriminate.
    - (* both positive: the first is larger *)
      assert (Y < X); [|lia]. unfold X, Y, ez. rewrite Z.min_comm.
      apply canonical_lt; [exact Hy|exact Hx|].
      destruct (Z.compare_spec ex ey) as [->| |]; try discriminate; [|lia].
      right. split; [reflexivity|].
      change (Pos.compare_cont Eq mx my) with (Pos.compare mx my) in Hc.
      destruct (Pos.compare_spec mx my); try discriminate. lia. }
  destruct Hpos as (Hpos & Hlt).
  destruct (cond_Zopp sx X - cond_Zopp sy Y) as [|p|p] eqn:Ep; try lia.
  simpl binary_normalize.
  destruct (binary_round_cases false p ez Hez) as [(m' & e' & Hf & _)|(Hi & Hge)];
    [left; eauto|].
  right. split; [exact Hi|].
  destruct sx; [auto|]. destruct sy; [auto|]. exfalso.
  specialize (Hlt eq_refl eq_refl).
  pose proof (bounded_value_le_max mx ex Hx) as Hmax.
  assert (Hq : 0 < 2 ^ (ez + 1074)) by (apply Z.pow_pos_nonneg; lia).
  assert (HXv : X * 2 ^ (ez + 1074) = Zpos mx * 2 ^ (ex + 1074)).
  { unfold X. rewrite <- Z.mul_assoc, <- Z.pow_add_r by (unfold ez; lia).
    f_equal. f_equal. lia. }
  nia.
Qed.

End Rounding.

Lemma is_zero_Prim2SF (x : float) :
  is_zero x = match Prim2SF x with S754_zero _ => true | _ => false end.
Proof.
  unfold is_zero. rewrite FloatAxioms.eqb_spec.
  change (Prim2SF PrimFloat.zero) with (S754_zero false).
  destruct (Prim2SF x) as [s|s| |s mx ex]; try reflexivity; destruct s; reflexivity.
Qed.

(** The difference of two positive finite numbers, the first one the larger,
    is a positive finite number. *)
Lemma sub_pos_fin (d f : float) :
  pos_fin f -> pos_fin d -> (f <? d) = true -> pos_fin (d - f).
Proof.
  intros (mf & ef & Ef) (md & ed & Ed) Hlt.
  rewrite FloatAxioms.ltb_spec in Hlt. unfold SFltb in Hlt.
  rewrite (SFcompare_swap (Prim2SF d) (Prim2SF f)), Ed, Ef in Hlt.
  unfold pos_fin. rewrite sub_spec, Ed, Ef. unfold SF64sub.
  destruct (SFsub_finite_gt false false md mf ed ef
              (valid_finite _ _ _ _ Ed) (valid_finite _ _ _ _ Ef)) as [Hf|(_ & [?|?])];
    try discriminate; [|exact Hf].
  destruct (SFcompare (S754_finite false md ed) (S754_finite false mf ef)) as [[]|];
    simpl in Hlt; try discriminate. reflexivity.
Qed.

(** A difference is zero only if the first number is not the larger one. *)
Lemma sub_not_zero (d f : float) : (d <=? f) = false -> is_zero (d - f) = false.
Proof.
  rewrite FloatAxioms.leb_spec, is_zero_Prim2SF, sub_spec. unfold SFleb, SF64sub.
  pose proof (Prim2SF_valid d) as Vd. pose proof (Prim2SF_valid f) as Vf.
  destruct (Prim2SF d) as [sd|sd| |sd md ed], (Prim2SF f) as [sf|sf| |sf mf ef];
    try reflexivity; try (destruct sd, sf; reflexivity || discriminate).
  intros Hc.
  assert (Hgt : SFcompare (S754_finite sd md ed) (S754_finite sf mf ef) = Some Gt).
  { destruct (SFcompare _ _) as [[]|] eqn:E; try discriminate; reflexivity. }
  destruct (SFsub_finite_gt sd sf md mf ed ef Vd Vf Hgt) as [(m' & e' & ->)|(-> & _)];
    reflexivity.
Qed.

Lemma pos_fin_not_zero (x : float) : pos_fin x -> is_zero x = false.
Proof. intros (mx & ex & E). now rewrite is_zero_Prim2SF, E. Qed.

Lemma abs_nonneg (x : float) : nonneg x -> nonneg (abs x).
Proof.
  unfold nonneg. rewrite abs_spec. destruct (Prim2SF x); simpl; auto.
Qed.

Lemma is_infinity_Prim2SF (x : float) :
  Prim2SF x = S754_infinity false -> is_finite x = false.
Proof.
  intros E. unfold is_finite, is_infinity.
  rewrite FloatAxioms.eqb_spec, abs_spec, E. simpl. now rewrite orb_true_r.
Qed.

(** The numbers between two positive finite bounds are positive and finite. *)
Lemma between_pos_fin (f d : float) :
  (0 <? f) = true -> (f <? d) = true -> is_finite d = true -> pos_fin f /\ pos_fin d.
Proof.
  intros Hf Hlt Hd.
  assert (Hpd : pos_fin d).
  { destruct (ltb_0_cases f Hf) as [(mf & ef & Ef)|Ef];
      rewrite FloatAxioms.ltb_spec, Ef in Hlt; unfold pos_fin;
      destruct (Prim2SF d) as [s|s| |s md ed] eqn:Ed; simpl in Hlt; try discriminate;
      destruct s; try discriminate; eauto;
      rewrite (is_infinity_Prim2SF d Ed) in Hd; discriminate. }
  split; [|exact Hpd].
  destruct (ltb_0_cases f Hf) as [Hp|Ef]; [exact Hp|].
  destruct Hpd as (md & ed & Ed).
  rewrite FloatAxioms.ltb_spec, Ef, Ed in Hlt. discriminate.
Qed.

(** * Running the stages *)

Lemma bind_Ok {A B : Type} (c : res A) (k : A -> res B) (b : B) :
  bind c k = Ok b -> exists a, c = Ok a /\ k a = Ok b.
Proof. destruct c as [a|e]; simpl; [eauto|discriminate]. Qed.

Ltac inv_bind H :=
  let a := fresh "a" in
  let Ha := fresh "Ha" in
  apply bind_Ok in H; destruct H as (a & Ha & H).

Ltac inv_Ok H := injection H as H; subst.

(** Case analysis on the comparison of a key with the next name of a dictionary. *)
Ltac case_key k :=
  match goal with
  | |- context [String.eqb k ?c] => destruct (String.eqb_spec k c) as [->|_]
  end.

Section Stages.
Context `{PyRuntime}.

Lemma calculate_locals_inv (params : gmap string pyval) (x : locals) :
  calculate_locals params = Ok x ->
  sensor_stage params = Ok (sensor x)
  /\ lens_stage params = Ok (lens x)
  /\ fov_stage params (sensor x) (lens x) = Ok (fov x)
  /\ motion_stage params (fov x) = Ok (motion x)
  /\ dof_stage (sensor x) (lens x) = Ok (dof x)
  /\ diffraction_stage (sensor x) (lens x) = Ok (diffraction x)
  /\ coverage_stage (sensor x) (lens x) (fov x) = Ok (coverage x)
  /\ illumination_stage params (sensor x) (lens x) = Ok (illum x)
  /\ appearance_stage (fov x) (motion x) = Ok (appearances x)
  /\ flags x = flag_stage (motion x) (diffraction x) (coverage x) (illum x).
Proof.
  unfold calculate_locals. intros Hc.
  repeat inv_bind Hc. inv_Ok Hc. simpl. repeat split; assumption.
Qed.

Lemma calculate_inv (params : gmap string pyval) (r : result) :
  calculate params = Ok r ->
  exists x, calculate_locals params = Ok x /\ r = result_of x.
Proof.
  unfold calculate. intros Hc. inv_bind Hc. inv_Ok Hc. eauto.
Qed.

(** ** Lens geometry inside [calculate] *)

Lemma lens_stage_geometry (params : gmap string pyval) (l : lens_locals) :
  lens_stage params = Ok l ->
  _lens_geometry (f_mm l) (working_distance_mm l) = Ok (di_mm l, m l)
  /\ effective_f_number l =
       (if 0 <? f_stop l
        then f_stop l * (1 + (if is_finite (m l) then m l else 0))
        else infinity).
Proof.
  unfold lens_stage. intros Hl.
  repeat inv_bind Hl. destruct a5 as [di mg]. inv_bind Hl. inv_Ok Hl. simpl.
  split; [assumption|reflexivity].
Qed.

(** ** Diffraction inside [calculate] *)

Lemma diffraction_stage_inv (s : sensor_locals) (l : lens_locals) (d : diffraction_locals) :
  diffraction_stage s l = Ok d ->
  _diffraction_sampling_metrics
    (if 0 <? pixel_size_mm_min s then pixel_size_mm_min s else 1e-6)
    (py_max (effective_f_number l) 1e-9) 0.55 = Ok (diff d)
  /\ lens_mtf50_lp_per_mm d =
       match lens_resolution_lp_per_mm l with
       | Some r => r
       | None => 0.5 * diffraction_cutoff_lp_per_mm (diff d)
       end
  /\ sampling_regime d =
       classify_regime (nyquist_over_diffraction_cutoff (diff d))
         (lens_mtf50_lp_per_mm d <? 0.9 * diff_sensor_nyquist_lp_per_mm (diff d)).
Proof.
  unfold diffraction_stage. intros Hd.
  repeat inv_bind Hd. inv_Ok Hd. simpl. auto.
Qed.

End Stages.

(** * C4: the sampling regime *)


(** * C9: the magnification in the result record *)


(** * C6: coverage when the lens diagonal is missing *)

Section Coverage.
Context `{PyRuntime}.

Lemma lens_stage_diag_absent (params : gmap string pyval) (l : lens_locals) :
  lens_stage params = Ok l ->
  params !! "lens_diagonal_mm" = None -> lens_diag_mm l = 0.
Proof.
  unfold lens_stage. intros Hl Hk.
  repeat inv_bind Hl. destruct a5 as [di mg]. inv_bind Hl. inv_Ok Hl. simpl.
  simpl in Ha1. rewrite Hk in Ha1. inv_Ok Ha1. reflexivity.
Qed.

Lemma coverage_stage_inv (s : sensor_locals) (l : lens_locals) (v : fov_locals)
    (c : coverage_locals) :
  coverage_stage s l v = Ok c ->
  let both := truthy (lens_diag_mm l) && truthy_opt (sensor_diag_mm s) in
  coverage_ok c =
    (if both then or_else (sensor_diag_mm s) 0 <=? lens_diag_mm l
     else truthy (lens_diag_mm l)
          && match sensor_diag_mm s with
             | Some d => truthy d && (d <=? lens_diag_mm l)
             | None => false
             end)
  /\ coverage_margin_mm c =
       (if both then 0.5 * (lens_diag_mm l - or_else (sensor_diag_mm s) 0) else nan)
  /\ (if (0 <? lens_diag_mm l) && truthy_opt (sensor_diag_mm s)
      then py_div (or_else (sensor_diag_mm s) 0) (lens_diag_mm l)
      else Ok nan) = Ok (coverage_ratio_actual_vs_design c).
Proof.
  unfold coverage_stage. intros Hc.
  repeat inv_bind Hc. inv_Ok Hc. simpl. auto.
Qed.

End Coverage.

(** C6 (as amended).  When the lens diagonal is absent, zero or NaN, coverage
    is reported inadequate, the margin and the coverage ratio are NaN and the
    vignetting flag is set.  When it is negative and the sensor diagonal is
    positive, coverage is inadequate, the ratio is NaN and the flag is set, but
    the margin is half the difference of the diagonals. *)
Theorem coverage_without_lens_diagonal `{PyRuntime}
    (params : gmap string pyval) (x : locals) :
  calculate_locals params = Ok x ->
  let ld := lens_diag_mm (lens x) in
  let ok := field "coverage_distortion" "coverage_ok" (result_of x) in
  let margin := field "coverage_distortion" "coverage_margin_mm" (result_of x) in
  let ratio := field "coverage_distortion" "coverage_ratio_actual_vs_design" (result_of x) in
  let flag := field "flags" "potential_vignetting" (result_of x) in
  (params !! "lens_diagonal_mm" = None -> ld = 0)
  /\ (truthy ld = false \/ is_nan ld = true ->
      ok = Some (OBool false) /\ margin = Some (OFloat nan)
      /\ ratio = Some (OFloat nan) /\ flag = Some (OBool true))
  /\ (forall d, (ld <? 0) = true -> sensor_diag_mm (sensor x) = Some d -> (0 <? d) = true ->
      ok = Some (OBool false) /\ margin = Some (OFloat (0.5 * (ld - d)))
      /\ ratio = Some (OFloat nan) /\ flag = Some (OBool true)).
Proof.
  intros Hc ld ok margin ratio flag.
  apply calculate_locals_inv in Hc.
  destruct Hc as (_ & Hl & _ & _ & _ & _ & Hv & _ & _ & Hf).
  apply coverage_stage_inv in Hv. destruct Hv as (Hok & Hm & Hr).
  fold ld in Hok, Hm, Hr.
  assert (Hflag : coverage_ok (coverage x) = false -> flag = Some (OBool true)).
  { intros E. unfold flag, field. simpl. rewrite Hf. simpl. rewrite E. reflexivity. }
  split; [|split].
  - intros Hk. exact (lens_stage_diag_absent _ _ Hl Hk).
  - intros [Hz|Hn].
    + rewrite Hz in Hok, Hm. simpl in Hok, Hm.
      rewrite (falsy_not_pos _ Hz) in Hr. simpl in Hr. inv_Ok Hr.
      unfold ok, margin, ratio, field. simpl.
      rewrite Hok, Hm, <- Hr. auto.
    + rewrite (nan_not_pos _ Hn) in Hr. simpl in Hr. inv_Ok Hr.
      assert (Hok' : coverage_ok (coverage x) = false).
      { rewrite Hok. destruct (truthy ld && _).
        - now apply leb_nan_r.
        - destruct (sensor_diag_mm (sensor x)) as [d|]; simpl.
          + rewrite (leb_nan_r d ld Hn). now rewrite !andb_false_r.
          + now rewrite andb_false_r. }
      assert (Hm' : coverage_margin_mm (coverage x) = nan).
      { rewrite Hm. destruct (truthy ld && _); [|reflexivity].
        rewrite (is_nan_eq ld Hn), sub_nan_l. apply mul_nan_r. }
      unfold ok, margin, ratio, field. simpl.
      rewrite Hok', Hm', <- Hr. auto.
  - intros d Hneg Hsd Hd.
    rewrite Hsd in Hok, Hm, Hr. simpl in Hok, Hm, Hr.
    rewrite (neg_truthy _ Hneg), (pos_truthy _ Hd) in Hok, Hm. simpl in Hok, Hm.
    rewrite (neg_not_pos _ Hneg) in Hr. simpl in Hr. inv_Ok Hr.
    rewrite (pos_leb_neg d ld Hd Hneg) in Hok.
    unfold ok, margin, ratio, field. simpl.
    rewrite Hok, Hm, <- Hr. auto.
Qed.

(** * C3: the recommended exposure *)

Section Motion.
Context `{PyRuntime}.

Lemma one_pixel_bound_eq (speed : float) :
  one_pixel_bound speed = Ok (if 0 <? speed then 1e6 * (1 / speed) else infinity).
Proof.
  unfold one_pixel_bound. destruct (0 <? speed) eqn:E; [|reflexivity].
  rewrite (py_div_pos _ _ E). reflexivity.
Qed.

Lemma one_pixel_bound_nonneg (speed : float) :
  nonneg (if 0 <? speed then 1e6 * (1 / speed) else infinity).
Proof.
  destruct (0 <? speed) eqn:E; [|reflexivity].
  apply mul_pos_fin_nonneg; [exact pos_fin_1e6|].
  apply div_pos_fin_pos; [exact pos_fin_1|exact E].
Qed.

Lemma frame_period_nonneg (fps p : float) :
  (if 0 <? fps then py_div 1e6 fps else Ok infinity) = Ok p -> nonneg p.
Proof.
  destruct (0 <? fps) eqn:E; intros Hp.
  - rewrite (py_div_pos _ _ E) in Hp. inv_Ok Hp.
    apply div_pos_fin_pos; [exact pos_fin_1e6|exact E].
  - inv_Ok Hp. reflexivity.
Qed.

Lemma motion_stage_inv (params : gmap string pyval) (v : fov_locals) (e : motion_locals) :
  motion_stage params v = Ok e ->
  exists fps blur speed,
    _as_float params ["sensor_framerate"] None = Ok fps
    /\ _as_float params ["object_allowed_blur_pixels"] None = Ok blur
    /\ _as_float params ["object_initial_speed_mm_s"] None = Ok speed
    /\ sensor_fps e = or_else fps 0
    /\ (if 0 <? sensor_fps e then py_div 1e6 (sensor_fps e) else Ok infinity)
       = Ok (frame_period_us e)
    /\ allowed_blur_px e = or_else blur 0
    /\ object_speed_mm_s e = or_else speed 0
    /\ motion_axis e = read_motion_axis params
    /\ px_per_mm_axis e =
         (if String.eqb (motion_axis e) "H" then pixels_per_mm_y v else pixels_per_mm_x v)
    /\ object_speed_px_s e = object_speed_mm_s e * px_per_mm_axis e
    /\ blur_bound (object_speed_px_s e) (allowed_blur_px e) (object_speed_mm_s e)
       = Ok (max_exposure_us_motion e)
    /\ max_exposure_us_frame e = frame_period_us e
    /\ one_pixel_bound (object_speed_px_s e) = Ok (max_exposure_us_motion_1px e)
    /\ recommended_exposure_us e
       = py_min (max_exposure_us_motion_1px e) (max_exposure_us_frame e).
Proof.
  unfold motion_stage. intros He.
  repeat inv_bind He. inv_Ok He. simpl.
  exists a, a1, a2. repeat split; assumption.
Qed.

(** Reading any other key is not affected by the blur tolerance. *)
Lemma _as_float_insert_ne (params : gmap string pyval) (k key : string) (v : pyval)
    (d : option float) :
  k <> key -> _as_float (<[k := v]> params) [key] d = _as_float params [key] d.
Proof. intros Hk. simpl. now rewrite lookup_insert_ne. Qed.

Lemma appearance_stage_ext (v : fov_locals) (e e' : motion_locals) :
  motion_axis e' = motion_axis e -> object_speed_mm_s e' = object_speed_mm_s e ->
  sensor_fps e' = sensor_fps e -> px_per_mm_axis e' = px_per_mm_axis e ->
  appearance_stage v e' = appearance_stage v e.
Proof.
  intros Ha Hs Hf Hp. unfold appearance_stage. rewrite Ha, Hs, Hf, Hp. reflexivity.
Qed.

Lemma blur_independence (params : gmap string pyval) (v : pyval) (x x' : locals) :
  calculate_locals params = Ok x ->
  calculate_locals (<["object_allowed_blur_pixels" := v]> params) = Ok x' ->
  same_but_blur x x'.
Proof.
  intros Hx Hx'.
  apply calculate_locals_inv in Hx, Hx'.
  destruct Hx as (Hs & Hl & Hv & He & Hd & Hf & Hc & Hi & Ha & Hg).
  destruct Hx' as (Hs' & Hl' & Hv' & He' & Hd' & Hf' & Hc' & Hi' & Ha' & Hg').
  assert (Es : sensor x' = sensor x).
  { unfold sensor_stage in Hs'. rewrite !_as_float_insert_ne in Hs' by discriminate.
    fold (sensor_stage params) in Hs'. congruence. }
  assert (El : lens x' = lens x).
  { unfold lens_stage in Hl'. rewrite !_as_float_insert_ne in Hl' by discriminate.
    fold (lens_stage params) in Hl'. congruence. }
  rewrite Es, El in *.
  assert (Ev : fov x' = fov x).
  { unfold fov_stage in Hv'. rewrite !_as_float_insert_ne in Hv' by discriminate.
    fold (fov_stage params (sensor x) (lens x)) in Hv'. congruence. }
  rewrite Ev in *.
  assert (Ed : dof x' = dof x) by congruence.
  assert (Ef : diffraction x' = diffraction x) by congruence.
  assert (Ec : coverage x' = coverage x) by congruence.
  assert (Ei : illum x' = illum x).
  { unfold illumination_stage in Hi'. rewrite !_as_float_insert_ne in Hi' by discriminate.
    fold (illumination_stage params (sensor x) (lens x)) in Hi'. congruence. }
  apply motion_stage_inv in He, He'.
  destruct He as (fps & blur & speed & R1 & R2 & R3 & M1 & M2 & M3 & M4 & M5 & M6 & M7
                  & M8 & M9 & M10 & M11).
  destruct He' as (fps' & blur' & speed' & R1' & R2' & R3' & M1' & M2' & M3' & M4' & M5'
                   & M6' & M7' & M8' & M9' & M10' & M11').
  rewrite _as_float_insert_ne in R1', R3' by discriminate.
  assert (fps' = fps) by congruence. assert (speed' = speed) by congruence. subst fps' speed'.
  assert (E1 : sensor_fps (motion x') = sensor_fps (motion x)) by congruence.
  assert (E2 : frame_period_us (motion x') = frame_period_us (motion x)).
  { rewrite E1 in M2'. congruence. }
  assert (E3 : object_speed_mm_s (motion x') = object_speed_mm_s (motion x)) by congruence.
  assert (E4 : motion_axis (motion x') = motion_axis (motion x)).
  { rewrite M5', M5. unfold read_motion_axis. now rewrite lookup_insert_ne by discriminate. }
  assert (E5 : px_per_mm_axis (motion x') = px_per_mm_axis (motion x)).
  { rewrite M6', M6, E4. reflexivity. }
  assert (E6 : object_speed_px_s (motion x') = object_speed_px_s (motion x)) by congruence.
  assert (E7 : max_exposure_us_frame (motion x') = max_exposure_us_frame (motion x))
    by congruence.
  assert (E8 : max_exposure_us_motion_1px (motion x') = max_exposure_us_motion_1px (motion x)).
  { rewrite E6 in M10'. congruence. }
  assert (E9 : recommended_exposure_us (motion x') = recommended_exposure_us (motion x))
    by congruence.
  assert (Ea : appearances x' = appearances x).
  { rewrite (appearance_stage_ext _ _ _ E4 E3 E1 E5) in Ha'. congruence. }
  unfold same_but_blur. rewrite Hg, Hg'. simpl. rewrite Ef, Ec, Ei.
  repeat split; assumption || reflexivity.
Qed.

End Motion.

(** C3 (as amended).  The recommended exposure is the minimum of the exposure
    bound for one pixel of blur and of the frame period, so it is below both;
    the blur tolerance of the caller changes nothing in the run but the bound
    reported for it and the [exposure_limited_by_frame] flag. *)
Theorem recommended_exposure_is_min `{PyRuntime}
    (params : gmap string pyval) (x : locals) :
  calculate_locals params = Ok x ->
  let e := motion x in
  let one_px :=
    if 0 <? object_speed_px_s e then 1e6 * (1 / object_speed_px_s e) else infinity in
  field "motion_exposure" "recommended_exposure_us" (result_of x)
    = Some (OFloat (py_min one_px (max_exposure_us_frame e)))
  /\ field "motion_exposure" "max_exposure_us_frame" (result_of x)
     = Some (OFloat (max_exposure_us_frame e))
  /\ field "motion_exposure" "object_speed_px_s" (result_of x)
     = Some (OFloat (object_speed_px_s e))
  /\ (py_min one_px (max_exposure_us_frame e) <=? max_exposure_us_frame e) = true
  /\ (py_min one_px (max_exposure_us_frame e) <=? one_px) = true
  /\ (forall v x',
        calculate_locals (<["object_allowed_blur_pixels" := v]> params) = Ok x' ->
        same_but_blur x x'
        /\ forall sec key,
             field sec key (result_of x') <> field sec key (result_of x) ->
             sec = "motion_exposure"
             /\ key = "max_exposure_us_motion_blur_for_allowed_blur_px"
             \/ sec = "flags" /\ key = "exposure_limited_by_frame").
Proof.
  intros Hc e one_px.
  pose proof (calculate_locals_inv _ _ Hc) as (_ & _ & _ & He & _).
  apply motion_stage_inv in He.
  destruct He as (fps & blur & speed & _ & _ & _ & _ & M2 & _ & _ & _ & _ & _ & _ & M9
                  & M10 & M11).
  fold e in M2, M9, M10, M11.
  rewrite one_pixel_bound_eq in M10. inv_Ok M10. fold one_px in M10.
  rewrite <- M10 in M11.
  assert (Hf : nonneg (max_exposure_us_frame e)).
  { rewrite M9. exact (frame_period_nonneg _ _ M2). }
  assert (Hp : nonneg one_px) by apply one_pixel_bound_nonneg.
  destruct (py_min_le one_px (max_exposure_us_frame e)
              (nonneg_not_nan _ Hp) (nonneg_not_nan _ Hf)) as (Hle1 & Hle2).
  split. { unfold field. simpl. fold e. now rewrite M11. }
  split; [reflexivity|]. split; [reflexivity|].
  split; [exact Hle2|]. split; [exact Hle1|].
  intros v x' Hc'.
  pose proof (blur_independence _ _ _ _ Hc Hc') as Hs.
  split; [exact Hs|].
  destruct Hs as (Es & El & Ev & Ed & Ef & Ec & Ei & Ea & E1 & E2 & E3 & E4 & E5 & E6
                  & E7 & E8 & E9 & E10 & E11).
  intros sec key. unfold field, result_of, dof_dict, illum_dict. simpl.
  rewrite Es, El, Ev, Ed, Ef, Ec, Ei, Ea, E2, E3, E6, E7, E9, E10, E11.
  repeat (case_key sec;
          [simpl;
           repeat (case_key key; [first [ now intros [] | auto ]|]);
           now intros []|]).
  now intros [].
Qed.

(** * C8: illumination *)

Section Illumination.
Context `{PyRuntime}.

Lemma _illumination_metrics_inv (sd di : float) (lri : option float) (i : illum_result) :
  _illumination_metrics sd di lri = Ok i ->
  let r := corner_to_center_ratio i in
  corner_ratio_of sd di lri = Ok r
  /\ relative_illumination_center_percent i = 100
  /\ relative_illumination_corner_percent i = 100 * r
  /\ vignetting_loss_percent i = py_max 0 (100 - 100 * r)
  /\ (if 0 <? r then math_log2 (1 / py_max r 1e-9) else Ok infinity)
     = Ok (exposure_compensation_stops_at_corners i).
Proof.
  unfold _illumination_metrics. intros Hi.
  inv_bind Hi. inv_bind Hi. inv_Ok Hi. simpl.
  split. { destruct lri; exact Ha. }
  repeat split.
  destruct (0 <? a) eqn:E; [|exact Ha0].
  unfold py_div in Ha0. rewrite (py_max_floor_not_zero _ E) in Ha0. exact Ha0.
Qed.

Lemma illumination_stage_inv (params : gmap string pyval) (s : sensor_locals)
    (l : lens_locals) (i : illum_result) :
  illumination_stage params s l = Ok i ->
  exists lri,
    _as_float params ["lens_relative_illumination"] None = Ok lri
    /\ _illumination_metrics (or_else (sensor_diag_mm s) 0) (di_mm l) lri = Ok i.
Proof.
  unfold illumination_stage. intros Hi. inv_bind Hi. eauto.
Qed.

End Illumination.

(** C8 (as amended).  The center illumination is 100, the corner illumination
    100 times the corner-to-center ratio [r] and the vignetting loss 100 minus
    the corner percentage, floored at 0.  The exposure compensation is
    [log2(1 / max(r, 1e-9))] when [r] is positive, which is [log2(1 / r)] from
    [r = 1e-9] on, and +infinity when [r] is 0. *)
Theorem exposure_compensation_stops `{PyRuntime}
    (params : gmap string pyval) (x : locals) :
  calculate_locals params = Ok x ->
  let i := illum x in
  let r := corner_to_center_ratio i in
  let stops := exposure_compensation_stops_at_corners i in
  field "illumination" "corner_to_center_ratio" (result_of x) = Some (OFloat r)
  /\ field "illumination" "exposure_compensation_stops_at_corners" (result_of x)
     = Some (OFloat stops)
  /\ field "illumination" "relative_illumination_center_percent" (result_of x)
     = Some (OFloat 100)
  /\ field "illumination" "relative_illumination_corner_percent" (result_of x)
     = Some (OFloat (100 * r))
  /\ field "illumination" "vignetting_loss_percent" (result_of x)
     = Some (OFloat (py_max 0 (100 - 100 * r)))
  /\ ((0 <? 100 - 100 * r) = true -> py_max 0 (100 - 100 * r) = 100 - 100 * r)
  /\ ((0 <? r) = true -> math_log2 (1 / py_max r 1e-9) = Ok stops)
  /\ ((1e-9 <=? r) = true -> math_log2 (1 / r) = Ok stops)
  /\ ((r =? 0) = true -> stops = infinity).
Proof.
  intros Hc i r stops.
  apply calculate_locals_inv in Hc.
  destruct Hc as (_ & _ & _ & _ & _ & _ & _ & Hi & _).
  apply illumination_stage_inv in Hi. destruct Hi as (lri & _ & Hi).
  apply _illumination_metrics_inv in Hi.
  destruct Hi as (_ & Hce & Hco & Hvl & Hst).
  fold i in Hce, Hco, Hvl, Hst. fold r in Hco, Hvl, Hst. fold stops in Hst.
  unfold field. simpl. fold i. rewrite Hce, Hco, Hvl.
  repeat split.
  - intros Hp. unfold py_max. now rewrite Hp.
  - intros Hr. now rewrite Hr in Hst.
  - intros Hr.
    pose proof (pos_fin_leb_pos _ _ pos_fin_1e_9 Hr) as Hpos.
    rewrite Hpos in Hst. unfold py_max in Hst. now rewrite (leb_nltb _ _ Hr) in Hst.
  - intros Hz.
    assert (Hnp : (0 <? r) = false) by (apply falsy_not_pos; unfold truthy; now rewrite Hz).
    rewrite Hnp in Hst. now inv_Ok Hst.
Qed.

(** * C1, C7 and C10: where the run stops *)

Section Raises.
Context `{PyRuntime}.

Lemma blur_bound_returns (speed_px blur speed_mm : float) :
  returns (blur_bound speed_px blur speed_mm) = true.
Proof.
  unfold blur_bound. destruct (0 <? speed_px) eqn:E; simpl.
  - destruct (0 <? blur); simpl.
    + now rewrite (py_div_pos _ _ E).
    + now destruct (speed_mm <=? 0).
  - now destruct (speed_mm <=? 0).
Qed.

Lemma motion_stage_returns (params : gmap string pyval) (v : fov_locals) :
  returns (_as_float params ["sensor_framerate"] None) = true ->
  returns (_as_float params ["object_allowed_blur_pixels"] None) = true ->
  returns (_as_float params ["object_initial_speed_mm_s"] None) = true ->
  returns (motion_stage params v) = true.
Proof.
  unfold motion_stage.
  destruct (_as_float params ["sensor_framerate"] None) as [fps|]; [|discriminate].
  destruct (_as_float params ["object_allowed_blur_pixels"] None) as [blur|]; [|discriminate].
  destruct (_as_float params ["object_initial_speed_mm_s"] None) as [speed|]; [|discriminate].
  intros _ _ _. cbn [bind].
  destruct (0 <? or_else fps 0) eqn:E.
  - rewrite (py_div_pos _ _ E). cbn [bind].
    match goal with
    | |- context [blur_bound ?a ?b ?c] =>
        pose proof (blur_bound_returns a b c) as Hb; destruct (blur_bound a b c)
    end; [|discriminate].
    cbn [bind]. rewrite one_pixel_bound_eq. reflexivity.
  - cbn [bind].
    match goal with
    | |- context [blur_bound ?a ?b ?c] =>
        pose proof (blur_bound_returns a b c) as Hb; destruct (blur_bound a b c)
    end; [|discriminate].
    cbn [bind]. rewrite one_pixel_bound_eq. reflexivity.
Qed.

(** An exception of the depth-of-field stage is an exception of the run when
    the stages before it return. *)
Lemma calculate_raises_in_dof (params : gmap string pyval) (s : sensor_locals)
    (l : lens_locals) (v : fov_locals) (err : exn) :
  sensor_stage params = Ok s ->
  lens_stage params = Ok l ->
  fov_stage params s l = Ok v ->
  returns (motion_stage params v) = true ->
  dof_stage s l = Raise err ->
  calculate params = Raise err.
Proof.
  intros Hs Hl Hv He Hd. unfold calculate, calculate_locals.
  rewrite Hs. cbn [bind]. rewrite Hl. cbn [bind]. rewrite Hv. cbn [bind].
  destruct (motion_stage params v); [|discriminate]. cbn [bind].
  rewrite Hd. reflexivity.
Qed.

(** When the f-number is not positive and the run returns all the same, the
    effective f-number is infinite, the diffraction cutoff 0, the ratio
    infinite and the verdict "optics-limited (diffraction)". *)
Lemma no_f_number_chain (params : gmap string pyval) (x : locals) :
  calculate_locals params = Ok x ->
  (0 <? f_stop (lens x)) = false ->
  effective_f_number (lens x) = infinity
  /\ diffraction_cutoff_lp_per_mm (diff (diffraction x)) = 0
  /\ nyquist_over_diffraction_cutoff (diff (diffraction x)) = infinity
  /\ sampling_regime (diffraction x) = "optics-limited (diffraction)"
  /\ diffraction_dominant (flags x) = true.
Proof.
  intros Hc Hn.
  apply calculate_locals_inv in Hc.
  destruct Hc as (_ & Hl & _ & _ & _ & Hd & _ & _ & _ & Hf).
  apply lens_stage_geometry in Hl. destruct Hl as (_ & He). rewrite Hn in He.
  apply diffraction_stage_inv in Hd. destruct Hd as (Hm & _ & Hr).
  rewrite He in Hm. change (py_max infinity 1e-9) with infinity in Hm.
  unfold _diffraction_sampling_metrics in Hm.
  inv_bind Hm. inv_bind Hm. inv_bind Hm. inv_bind Hm.
  vm_compute in Ha1. inv_Ok Ha1. vm_compute in Ha2. inv_Ok Ha2. inv_Ok Hm.
  rewrite Hr, Hf. unfold flag_stage. rewrite <- Hm. simpl.
  repeat split; try reflexivity; assumption.
Qed.

End Raises.

(** C1.  On the empty mapping the focal length and the f-number default to 0
    and the hyperfocal division [f*f / (N*c)] divides by zero: the run raises
    [ZeroDivisionError] instead of returning a record. *)
Theorem calculate_empty_raises `{PyRuntime} : calculate ∅ = Raise ZeroDivisionError.
Proof.
  eapply calculate_raises_in_dof.
  - vm_compute. reflexivity.
  - vm_compute. reflexivity.
  - vm_compute. reflexivity.
  - apply motion_stage_returns; reflexivity.
  - vm_compute. reflexivity.
Qed.

(** C10.  On the first scenario of the specification without an f-number the
    run raises [ZeroDivisionError] in the depth-of-field stage, before the
    diffraction stage is reached. *)
Theorem calculate_without_fstop_raises `{PyRuntime} :
  calculate scenario_without_fstop = Raise ZeroDivisionError.
Proof.
  eapply calculate_raises_in_dof.
  - vm_compute. reflexivity.
  - vm_compute. reflexivity.
  - vm_compute. reflexivity.
  - apply motion_stage_returns; reflexivity.
  - vm_compute. reflexivity.
Qed.

(** * C7: [_as_float] *)

Section AsFloat.
Context `{PyRuntime}.

Lemma py_float_raises (v : pyval) (e : exn) :
  py_float v = Raise e ->
  e = TypeError \/ e = ValueError \/ exists z, v = VInt z /\ float_of_int z = Raise e.
Proof.
  destruct v as [|b|z|f|s|l|d]; simpl;
    try (intros E; injection E as <-; now auto); try discriminate.
  - eauto.
  - destruct (str_to_float s); [discriminate|]. injection 1 as <-. auto.
Qed.

Lemma float_of_int_raises (z : Z) (e : exn) :
  float_of_int z = Raise e -> e = OverflowError.
Proof.
  unfold float_of_int. destruct (binary_normalize _ _ _ _ _); try discriminate.
  now injection 1.
Qed.

(** Where no candidate overflows, [_as_float] returns and meets the contract. *)
Lemma _as_float_in_range (values : gmap string pyval) (keys : list string)
    (default : option float) :
  ints_in_range values keys ->
  _as_float values keys default =
    Ok (match first_convertible values keys with
        | Some x => Some x
        | None => default
        end).
Proof.
  induction keys as [|key keys IH]; intros Hr; [reflexivity|].
  assert (Hr' : ints_in_range values keys).
  { intros k z Hk. apply Hr. now right. }
  simpl. destruct (values !! key) as [v|] eqn:Ev; [|now apply IH].
  destruct (is_none v); [now apply IH|].
  destruct (py_float v) as [fx|e] eqn:Ef; [reflexivity|].
  destruct (py_float_raises v e Ef) as [->|[->|(z & -> & Hz)]]; try now apply IH.
  pose proof (float_of_int_raises z e Hz) as ->.
  exfalso. apply (Hr key z); [now left|exact Ev|exact Hz].
Qed.

End AsFloat.

(** C7.  An integer beyond the range of binary64 makes [float] raise
    [OverflowError], which [_as_float] does not catch: the candidate is not
    skipped and the default is not returned. *)
Theorem _as_float_overflow_raises `{PyRuntime} :
  _as_float {["sensor_width_mm" := VInt (10 ^ 400)]} ["sensor_width_mm"] (Some 0)
  = Raise OverflowError.
Proof. vm_compute. reflexivity. Qed.

(** * C2: the thin-lens conjugate *)

(** C2 (as amended).  At or inside the focal length the image distance and the
    magnification are +infinity.  Otherwise, for a working distance that is
    not zero, they are [f*d/(d-f)] and [|di/d|] in binary64 arithmetic.  For
    finite [d > f > 0] the call returns and neither number is negative or
    NaN. *)
Theorem lens_geometry_conjugate (f d : float) :
  ((d <=? f) = true -> _lens_geometry f d = Ok (infinity, infinity))
  /\ ((d <=? f) = false -> is_zero d = false ->
      _lens_geometry f d = Ok (f * d / (d - f), abs (f * d / (d - f) / d)))
  /\ ((0 <? f) = true -> (f <? d) = true -> is_finite d = true ->
      _lens_geometry f d = Ok (f * d / (d - f), abs (f * d / (d - f) / d))
      /\ (0 <=? f * d / (d - f)) = true
      /\ (0 <=? abs (f * d / (d - f) / d)) = true
      /\ is_nan (abs (f * d / (d - f) / d)) = false).
Proof.
  assert (Hfar : (d <=? f) = false ->
            _lens_geometry f d =
            (if is_zero d then Raise ZeroDivisionError
             else Ok (f * d / (d - f), abs (f * d / (d - f) / d)))).
  { intros Hle. unfold _lens_geometry, py_div. rewrite Hle.
    rewrite (sub_not_zero d f Hle). cbn [bind]. now destruct (is_zero d). }
  split; [|split].
  - intros Hle. unfold _lens_geometry. now rewrite Hle.
  - intros Hle Hz. now rewrite (Hfar Hle), Hz.
  - intros Hf Hlt Hd.
    destruct (between_pos_fin f d Hf Hlt Hd) as (Hpf & Hpd).
    assert (Hle : (d <=? f) = false).
    { destruct (d <=? f) eqn:E; [|reflexivity].
      apply leb_nltb in E. congruence. }
    assert (Hdi : nonneg (f * d / (d - f))).
    { apply div_nonneg_pos_fin; [|now apply sub_pos_fin].
      apply mul_pos_fin_nonneg; [exact Hpf|now apply pos_fin_nonneg]. }
    assert (Hm : nonneg (abs (f * d / (d - f) / d))).
    { apply abs_nonneg, div_nonneg_pos_fin; assumption. }
    rewrite (Hfar Hle), (pos_fin_not_zero d Hpd).
    repeat split; try now apply nonneg_leb. now apply nonneg_not_nan.
Qed.

(** * Worked examples *)

(** The run of the round-trip scenario of the specification: a magnification
    of 0.0870 is reported as 8.70 percent. *)
Example base_input_magnification :
  _lens_geometry 16 200 = Ok (17.391304347826086, 0.086956521739130432)
  /\ exists r,
       @calculate ref_runtime base_input = Ok r
       /\ field "lens_geometry" "magnification_percent" r
          = Some (OFloat 8.695652173913043).
Proof.
  split; [vm_compute; reflexivity|].
  eexists. split; [vm_compute; reflexivity|reflexivity].
Qed.

(** * Witnesses and counterexamples *)

(** C2, witness: the conjugate of the specification's scenario. *)
Lemma lens_geometry_conjugate_witness :
  (0 <? 16) = true /\ (16 <? 200) = true /\ is_finite 200 = true
  /\ _lens_geometry 16 200 = Ok (16 * 200 / (200 - 16), abs (16 * 200 / (200 - 16) / 200))
  /\ (0 <=? abs (16 * 200 / (200 - 16) / 200)) = true.
Proof.
  split; [reflexivity|]. split; [reflexivity|]. split; [reflexivity|].
  destruct (lens_geometry_conjugate 16 200) as (_ & _ & Hc).
  destruct (Hc eq_refl eq_refl eq_refl) as (Hr & _ & Hm & _).
  split; [exact Hr|exact Hm].
Defined.

(** C2, counterexample: for [d > f > 0] the magnification underflows to 0
    ([f = 1e-200], [d = 1e200]) or overflows to +infinity ([f = 1e200],
    [d = 1e300]). *)
Lemma lens_geometry_underflow :
  (0 <? 1e-200) = true /\ (1e-200 <? 1e200) = true
  /\ _lens_geometry 1e-200 1e200 = Ok (1e-200, 0)
  /\ (0 <? 1e200) = true /\ (1e200 <? 1e300) = true
  /\ _lens_geometry 1e200 1e300 = Ok (infinity, infinity).
Proof. repeat split; vm_compute; reflexivity. Qed.

(** C3, witness. *)
Lemma recommended_exposure_is_min_witness :
  exists x,
    @calculate_locals ref_runtime base_input = Ok x
    /\ field "motion_exposure" "recommended_exposure_us" (result_of x)
       = Some (OFloat (py_min (1e6 * (1 / 25204.788909892875)) 10000)).
Proof.
  eexists. split.
  - vm_compute. reflexivity.
  - pose proof (recommended_exposure_is_min (H := ref_runtime) base_input _
                  ltac:(vm_compute; reflexivity)) as (E & _).
    exact E.
Defined.

(** C3, counterexample: a blur tolerance of 1000 pixels instead of 1 changes
    the [exposure_limited_by_frame] flag as well. *)
Lemma blur_changes_frame_flag :
  exists x x',
    @calculate_locals ref_runtime base_input = Ok x
    /\ @calculate_locals ref_runtime
         (<["object_allowed_blur_pixels" := VInt 1000]> base_input) = Ok x'
    /\ field "flags" "exposure_limited_by_frame" (result_of x) = Some (OBool false)
    /\ field "flags" "exposure_limited_by_frame" (result_of x') = Some (OBool true).
Proof.
  eexists. eexists.
  split; [vm_compute; reflexivity|]. split; [vm_compute; reflexivity|].
  split; reflexivity.
Qed.


(** C6, witness: no lens diagonal. *)
Lemma coverage_without_lens_diagonal_witness :
  exists x,
    @calculate_locals ref_runtime base_input = Ok x
    /\ base_input !! "lens_diagonal_mm" = None
    /\ lens_diag_mm (lens x) = 0
    /\ field "coverage_distortion" "coverage_margin_mm" (result_of x) = Some (OFloat nan).
Proof.
  eexists. split; [vm_compute; reflexivity|]. split; [reflexivity|].
  pose proof (coverage_without_lens_diagonal (H := ref_runtime) base_input _
                ltac:(vm_compute; reflexivity)) as (Ha & Hz & _).
  split; [exact (Ha eq_refl)|].
  destruct (Hz (or_introl eq_refl)) as (_ & Hm & _). exact Hm.
Defined.

(** C6, counterexample: with a lens diagonal of -5 mm and a sensor diagonal of
    10 mm the margin is -7.5 mm, not NaN. *)
Lemma negative_diagonal_margin :
  exists r,
    @calculate ref_runtime negative_diag_input = Ok r
    /\ field "coverage_distortion" "coverage_margin_mm" r = Some (OFloat (-7.5))
    /\ is_nan (-7.5) = false.
Proof.
  eexists. split; [vm_compute; reflexivity|]. split; reflexivity.
Qed.

(** C8, witness: a ratio of one half costs one stop. *)
Lemma exposure_compensation_stops_witness :
  exists x,
    @calculate_locals ref_runtime lit_input = Ok x
    /\ (1e-9 <=? corner_to_center_ratio (illum x)) = true
    /\ @math_log2 ref_runtime (1 / corner_to_center_ratio (illum x))
       = Ok (exposure_compensation_stops_at_corners (illum x)).
Proof.
  eexists. split; [vm_compute; reflexivity|]. split; [reflexivity|].
  pose proof (exposure_compensation_stops (H := ref_runtime) lit_input _
                ltac:(vm_compute; reflexivity)) as (_ & _ & _ & _ & _ & _ & _ & Hl & _).
  exact (Hl eq_refl).
Defined.

(** C8, counterexample: for a ratio of [2^-40] the compensation is the
    logarithm of [1 / 1e-9], below 30 stops, and not [log2(1 / r) = 40]. *)
Lemma stops_below_floor :
  exists x,
    @calculate_locals ref_runtime dim_input = Ok x
    /\ corner_to_center_ratio (illum x) = 0x1p-40
    /\ @math_log2 ref_runtime (1 / 0x1p-40) = Ok 40
    /\ (exposure_compensation_stops_at_corners (illum x) <? 30) = true.
Proof.
  eexists. split; [vm_compute; reflexivity|]. repeat split.
Qed.


(** * Further properties of the code *)

(** * Comparison with one *)

Lemma Prim2SF_one : Prim2SF 1 = S754_finite false 4503599627370496 (-52).
Proof. reflexivity. Qed.

Section One.
Local Open Scope Z_scope.

Lemma compare_cont_Z (a b : positive) :
  Pos.compare_cont Eq a b = Z.compare (Zpos a) (Zpos b).
Proof. reflexivity. Qed.

Lemma pow2_1074_split : 2 ^ 1074 = 4503599627370496 * 2 ^ 1022.
Proof. change 4503599627370496 with (2 ^ 52). now rewrite <- Z.pow_add_r. Qed.

(** The numbers at least one, by their value in units of [2^-1074]. *)
Lemma SFleb_one_l (mm : positive) (e : Z) :
  bounded prec emax mm e = true ->
  (SFleb (S754_finite false 4503599627370496 (-52)) (S754_finite false mm e) = true
   <-> 2 ^ 1074 <= Zpos mm * 2 ^ (e + 1074)).
Proof.
  intros Hb. apply bounded_spec in Hb. destruct Hb as (Hc & He).
  pose proof (digits2_bounds mm) as (Hl & Hu).
  assert (Hd : 2 ^ Zpos (digits2_pos mm) <= 2 ^ 53) by (apply Z.pow_le_mono_r; lia).
  change (2 ^ 53) with 9007199254740992 in Hd.
  assert (H0 : 0 < 2 ^ 1022) by (apply Z.pow_pos_nonneg; lia).
  rewrite pow2_1074_split.
  cbv beta iota delta [SFleb SFcompare].
  rewrite compare_cont_Z.
  destruct (Z.compare_spec (-52) e) as [<-|Hlt|Hgt].
  - change (-52 + 1074) with 1022. revert H0. generalize (2 ^ 1022). intros P H0.
    destruct (Z.compare_spec 4503599627370496 (Zpos mm)) as [E|H1|H1].
    + split; [intros _|intros _; reflexivity]. rewrite <- E. lia.
    + split; [intros _|intros _; reflexivity].
      apply Z.mul_le_mono_nonneg_r; lia.
    + split; [discriminate|]. intros Hv. exfalso.
      apply Z.mul_le_mono_pos_r in Hv; lia.
  - assert (Hd53 : Zpos (digits2_pos mm) = 53) by lia. rewrite Hd53 in Hl.
    change (2 ^ (53 - 1)) with 4503599627370496 in Hl.
    split; [intros _|reflexivity].
    assert (2 ^ 1022 <= 2 ^ (e + 1074)) by (apply Z.pow_le_mono_r; lia).
    apply Z.mul_le_mono_nonneg; lia.
  - split; [discriminate|]. intros Hv. exfalso.
    assert (H1 : 2 ^ (e + 1074) <= 2 ^ 1021) by (apply Z.pow_le_mono_r; lia).
    assert (H2 : 2 ^ 1022 = 2 * 2 ^ 1021) by (now rewrite <- Z.pow_succ_r).
    assert (H3 : 0 < 2 ^ 1021) by (apply Z.pow_pos_nonneg; lia).
    assert (H4 : 0 <= 2 ^ (e + 1074)) by (apply Z.pow_nonneg; lia).
    rewrite H2 in Hv. revert Hv H1 H3 H4.
    generalize (2 ^ 1021) (2 ^ (e + 1074)). intros P Q Hv H1 H3 H4.
    assert (Zpos mm * Q <= 9007199254740991 * P) by (apply Z.mul_le_mono_nonneg; lia).
    lia.
Qed.

(** The numbers at most one. *)
Lemma SFleb_one_r (mm : positive) (e : Z) :
  bounded prec emax mm e = true ->
  (SFleb (S754_finite false mm e) (S754_finite false 4503599627370496 (-52)) = true
   <-> Zpos mm * 2 ^ (e + 1074) <= 2 ^ 1074).
Proof.
  intros Hb. apply bounded_spec in Hb. destruct Hb as (Hc & He).
  pose proof (digits2_bounds mm) as (Hl & Hu).
  assert (Hd : 2 ^ Zpos (digits2_pos mm) <= 2 ^ 53) by (apply Z.pow_le_mono_r; lia).
  change (2 ^ 53) with 9007199254740992 in Hd.
  assert (H0 : 0 < 2 ^ 1022) by (apply Z.pow_pos_nonneg; lia).
  rewrite pow2_1074_split.
  cbv beta iota delta [SFleb SFcompare].
  rewrite compare_cont_Z.
  destruct (Z.compare_spec e (-52)) as [->|Hlt|Hgt].
  - change (-52 + 1074) with 1022. revert H0. generalize (2 ^ 1022). intros P H0.
    destruct (Z.compare_spec (Zpos mm) 4503599627370496) as [E|H1|H1].
    + split; [intros _|intros _; reflexivity]. rewrite E. lia.
    + split; [intros _|intros _; reflexivity].
      apply Z.mul_le_mono_nonneg_r; lia.
    + split; [discriminate|]. intros Hv. exfalso.
      apply Z.mul_le_mono_pos_r in Hv; lia.
  - split; [intros _|reflexivity].
    assert (H1 : 2 ^ (e + 1074) <= 2 ^ 1021) by (apply Z.pow_le_mono_r; lia).
    assert (H2 : 2 ^ 1022 = 2 * 2 ^ 1021) by (now rewrite <- Z.pow_succ_r).
    assert (H3 : 0 < 2 ^ 1021) by (apply Z.pow_pos_nonneg; lia).
    assert (H4 : 0 <= 2 ^ (e + 1074)) by (apply Z.pow_nonneg; lia).
    rewrite H2. revert H1 H3 H4.
    generalize (2 ^ 1021) (2 ^ (e + 1074)). intros P Q H1 H3 H4.
    assert (Zpos mm * Q <= 9007199254740991 * P) by (apply Z.mul_le_mono_nonneg; lia).
    lia.
  - assert (Hd53 : Zpos (digits2_pos mm) = 53) by lia. rewrite Hd53 in Hl.
    change (2 ^ (53 - 1)) with 4503599627370496 in Hl.
    split; [discriminate|]. intros Hv. exfalso.
    assert (H1 : 2 ^ 1023 <= 2 ^ (e + 1074)) by (apply Z.pow_le_mono_r; lia).
    assert (H2 : 2 ^ 1023 = 2 * 2 ^ 1022) by (now rewrite <- Z.pow_succ_r).
    rewrite H2 in H1. revert Hv H1 H0.
    generalize (2 ^ 1022) (2 ^ (e + 1074)). intros P Q Hv H1 H0.
    assert (4503599627370496 * Q <= Zpos mm * Q) by (apply Z.mul_le_mono_nonneg_r; lia).
    lia.
Qed.

End One.

(** * Addition, square root and division next to one *)

Section NearOne.
Local Open Scope Z_scope.

(** The sum of one and a positive finite number, on spec floats. *)
Lemma SFadd_one_ge (my : positive) (ey : Z) :
  bounded prec emax my ey = true ->
  let r := SFadd prec emax (S754_finite false 4503599627370496 (-52))
             (S754_finite false my ey) in
  r = S754_infinity false
  \/ exists m' e', r = S754_finite false m' e' /\ 2 ^ 1074 <= Zpos m' * 2 ^ (e' + 1074).
Proof.
  intros Hy r. pose proof (bounded_spec _ _ Hy) as (Hcy & _).
  unfold r, SFadd. set (ez := Z.min (-52) ey).
  rewrite (shl_align_fst _ (-52) ez), (shl_align_fst my ey ez) by (unfold ez; lia).
  simpl cond_Zopp.
  assert (Hez : -1074 <= ez) by (unfold ez; lia).
  assert (HX : 4503599627370496 * 2 ^ (-52 - ez) = 2 ^ (- ez)).
  { change 4503599627370496 with (2 ^ 52). rewrite <- Z.pow_add_r by (unfold ez; lia).
    f_equal. lia. }
  rewrite HX.
  assert (HY : 0 < Zpos my * 2 ^ (ey - ez)).
  { apply Z.mul_pos_pos; [lia|apply Z.pow_pos_nonneg; unfold ez; lia]. }
  assert (HP : 0 < 2 ^ (- ez)) by (apply Z.pow_pos_nonneg; unfold ez; lia).
  destruct (2 ^ (- ez) + Zpos my * 2 ^ (ey - ez)) as [|p|p] eqn:Ep; try lia.
  simpl binary_normalize.
  destruct (binary_round_cases false p ez Hez) as [(m' & e' & E & Hlo & _)|(E & _)];
    [right|left; exact E].
  exists m', e'. split; [exact E|].
  eapply Z.le_trans; [|exact Hlo]. apply Z.pow_le_mono_r; [lia|].
  pose proof (digits2_bounds p) as (_ & Hu).
  assert (Hlt : 2 ^ (- ez) < 2 ^ Zpos (digits2_pos p)) by lia.
  apply Z.pow_lt_mono_r_iff in Hlt; lia.
Qed.

(** A canonical number at least one has 53 digits and an exponent from -52. *)
Lemma ge_one_normal (mm : positive) (e : Z) :
  bounded prec emax mm e = true ->
  2 ^ 1074 <= Zpos mm * 2 ^ (e + 1074) ->
  -52 <= e /\ Zpos (digits2_pos mm) = 53 /\ 2 ^ 52 <= Zpos mm < 2 ^ 53.
Proof.
  intros Hb Hv. apply bounded_spec in Hb. destruct Hb as (Hc & He).
  pose proof (digits2_bounds mm) as (Hl & Hu).
  assert (Hd : 2 ^ Zpos (digits2_pos mm) <= 2 ^ 53) by (apply Z.pow_le_mono_r; lia).
  assert (Hp : 0 < 2 ^ (e + 1074)) by (apply Z.pow_pos_nonneg; lia).
  assert (He52 : -52 <= e).
  { destruct (Z.le_gt_cases (-52) e) as [|Hlt]; [assumption|exfalso].
    assert (2 ^ (e + 1074) <= 2 ^ 1021) by (apply Z.pow_le_mono_r; lia).
    assert (2 ^ 1074 = 2 ^ 53 * 2 ^ 1021) by (rewrite <- Z.pow_add_r; lia).
    nia. }
  assert (Hd53 : Zpos (digits2_pos mm) = 53) by lia.
  rewrite Hd53 in Hl, Hu. change (2 ^ (53 - 1)) with (2 ^ 52) in Hl. lia.
Qed.

(** The square root of a number at least one, on spec floats. *)
Lemma SFsqrt_ge_one (mz : positive) (ez : Z) :
  bounded prec emax mz ez = true ->
  2 ^ 1074 <= Zpos mz * 2 ^ (ez + 1074) ->
  let r := SFsqrt prec emax (S754_finite false mz ez) in
  r = S754_infinity false
  \/ exists m' e', r = S754_finite false m' e' /\ 2 ^ 1074 <= Zpos m' * 2 ^ (e' + 1074).
Proof.
  intros Hb Hv r.
  destruct (ge_one_normal mz ez Hb Hv) as (He52 & Hd53 & Hm).
  pose proof (bounded_spec _ _ Hb) as (_ & He971).
  unfold r, SFsqrt, SFsqrt_core_binary. simpl Zdigits2. rewrite Hd53, fexp_eq.
  rewrite !Z.div2_div.
  set (e' := Z.min (Z.max ((53 + ez + 1) / 2 - 53) (-1074)) (ez / 2)).
  assert (He' : e' = ez / 2 - 26).
  { unfold e'. replace (53 + ez + 1) with (ez + 27 * 2) by lia.
    rewrite Z.div_add by lia.
    assert (-26 <= ez / 2) by (apply Z.div_le_lower_bound; lia). lia. }
  assert (Hs : ez - 2 * e' = 52 \/ ez - 2 * e' = 53).
  { rewrite He'. pose proof (Z.mod_pos_bound ez 2 ltac:(lia)) as Hmod.
    pose proof (Z.div_mod ez 2 ltac:(lia)) as Hdm. lia. }
  set (m' := match ez - 2 * e' with
             | 0 => Zpos mz | Zpos _ => Z.shiftl (Zpos mz) (ez - 2 * e') | Zneg _ => 0 end).
  assert (Hm' : 2 ^ 52 * 2 ^ 52 <= m').
  { unfold m'. destruct Hs as [-> | ->]; rewrite Z.shiftl_mul_pow2 by lia.
    - nia.
    - change (2 ^ 53) with (2 * 2 ^ 52). nia. }
  pose proof (Z.sqrtrem_sqrt m') as Hq.
  destruct (Z.sqrtrem m') as [q rr]. simpl in Hq. subst q.
  assert (Hq : 2 ^ 52 <= Z.sqrt m') by (apply Z.sqrt_le_square; lia).
  destruct (Z.sqrt m') as [|q|q] eqn:Eq; try lia.
  assert (He'' : -1074 <= e') by lia.
  match goal with
  | |- context [binary_round_aux _ _ _ _ _ ?l] =>
      destruct (binary_round_aux_cases false q e' l He'')
        as [(m'' & e'' & E & Hlo & _)|(E & _)]
  end; [right|left; exact E].
  exists m'', e''. split; [exact E|].
  eapply Z.le_trans; [|exact Hlo]. apply Z.pow_le_mono_r; [lia|].
  pose proof (digits2_bounds q) as (_ & Hu).
  assert (Hlt : 2 ^ 52 < 2 ^ Zpos (digits2_pos q)) by lia.
  apply Z.pow_lt_mono_r_iff in Hlt; lia.
Qed.

(** The inverse of a number above one, on spec floats. *)
Lemma SFdiv_one_le (ms : positive) (es : Z) :
  bounded prec emax ms es = true ->
  2 ^ 1074 <= Zpos ms * 2 ^ (es + 1074) ->
  (ms, es) <> (4503599627370496%positive, -52) ->
  let r := SFdiv prec emax (S754_finite false 4503599627370496 (-52))
             (S754_finite false ms es) in
  exists m' e', r = S754_finite false m' e' /\ Zpos m' * 2 ^ (e' + 1074) <= 2 ^ 1074.
Proof.
  intros Hb Hv Hne r.
  destruct (ge_one_normal ms es Hb Hv) as (He52 & Hd53 & Hm).
  pose proof (bounded_spec _ _ Hb) as (_ & He971).
  unfold r, SFdiv, SFdiv_core_binary. cbv beta iota delta [Zdigits2].
  rewrite Hd53. change (Zpos (digits2_pos 4503599627370496)) with 53.
  rewrite fexp_eq. change (xorb false false) with false.
  set (e' := Z.min (Z.max (53 + -52 - (53 + es) - 53) (-1074)) (-52 - es)).
  set (s' := -52 - es - e').
  assert (Hs' : 51 <= s' <= 53) by (unfold s', e'; lia).
  assert (He' : -1074 <= e' <= 0) by (unfold e'; lia).
  set (m' := match s' with
             | 0 => 4503599627370496
             | Zpos _ => Z.shiftl 4503599627370496 s'
             | Zneg _ => 0
             end).
  assert (Hm' : m' = 2 ^ 52 * 2 ^ s').
  { unfold m'. destruct s' as [|p|p] eqn:Es; try lia.
    now rewrite Z.shiftl_mul_pow2 by lia. }
  set (k := es + 52).
  assert (HA : 2 ^ 51 <= 2 ^ s') by (apply Z.pow_le_mono_r; lia).
  assert (HK : 1 <= 2 ^ k)
    by (pose proof (Z.pow_pos_nonneg 2 k); unfold k in *; lia).
  assert (Hgt : 2 ^ 52 < Zpos ms * 2 ^ k).
  { destruct (Z.eq_dec es (-52)) as [He|He].
    - assert (Zpos ms <> 2 ^ 52) by (intros E; apply Hne; f_equal; [lia|exact He]).
      replace k with 0 by (unfold k; lia). simpl. lia.
    - assert (2 ^ 1 <= 2 ^ k) by (apply Z.pow_le_mono_r; unfold k; lia).
      change (2 ^ 1) with 2 in *. nia. }
  pose proof (Z_div_mod m' (Zpos ms) eq_refl) as Hdiv.
  destruct (Z.div_eucl m' (Zpos ms)) as [q rr]. destruct Hdiv as (Hq & Hr).
  assert (Hq1 : 1 <= q) by nia.
  assert (Hq2 : q < 2 ^ s' * 2 ^ k) by nia.
  assert (Hpow : 2 ^ s' * 2 ^ k = 2 ^ (- e')).
  { rewrite <- Z.pow_add_r by (unfold k; lia). f_equal. unfold s', k. lia. }
  rewrite Hpow in Hq2.
  destruct q as [|q|q]; try lia.
  assert (Hdq : Zpos (digits2_pos q) + e' <= 0).
  { pose proof (digits2_bounds q) as (Hl & _).
    assert (Hlt : 2 ^ (Zpos (digits2_pos q) - 1) < 2 ^ (- e')) by lia.
    apply Z.pow_lt_mono_r_iff in Hlt; lia. }
  assert (Hone : 2 ^ (- e') * 2 ^ (e' + 1074) = 2 ^ 1074).
  { rewrite <- Z.pow_add_r by lia. f_equal. lia. }
  assert (Hpe : 0 < 2 ^ (e' + 1074)) by (apply Z.pow_pos_nonneg; lia).
  match goal with
  | |- context [binary_round_aux _ _ _ _ _ ?l] =>
      destruct (binary_round_aux_cases false q e' l (proj1 He'))
        as [(m'' & e'' & E & _ & Hhi)|(E & [Hbig|Hbig])]
  end.
  - exists m'', e''. split; [exact E|].
    eapply Z.le_trans; [exact Hhi|]. apply Z.pow_le_mono_r; lia.
  - exfalso. assert (2 ^ 1074 < max_value) by (unfold max_value; lia). nia.
  - lia.
Qed.

End NearOne.

Lemma one_plus_nonneg (y : float) : nonneg y -> (1 <=? 1 + y) = true.
Proof.
  unfold nonneg. intros Hy.
  pose proof (Prim2SF_valid (1 + y)) as Hv. revert Hv.
  rewrite FloatAxioms.leb_spec, add_spec, Prim2SF_one. unfold SF64add.
  destruct (Prim2SF y) as [s|s| |s my ey] eqn:Ey; simpl in Hy; subst; try tauto;
    try reflexivity.
  destruct (SFadd_one_ge my ey (valid_finite _ _ _ _ Ey)) as [->|(m' & e' & -> & Hge)];
    [reflexivity|].
  intros Hv. now apply SFleb_one_l.
Qed.

(** The numbers at least one, on spec floats. *)
Lemma leb_one_cases (z : float) :
  (1 <=? z) = true ->
  Prim2SF z = S754_infinity false
  \/ exists mz ez, Prim2SF z = S754_finite false mz ez
                   /\ (2 ^ 1074 <= Zpos mz * 2 ^ (ez + 1074))%Z.
Proof.
  rewrite FloatAxioms.leb_spec, Prim2SF_one. intros Hz.
  destruct (Prim2SF z) as [s|s| |s mz ez] eqn:Ez; try discriminate;
    destruct s; try discriminate; [left; reflexivity|right].
  exists mz, ez. split; [reflexivity|].
  now apply SFleb_one_l; [exact (valid_finite _ _ _ _ Ez)|].
Qed.

Lemma sqrt_ge_one (z : float) : (1 <=? z) = true -> (1 <=? sqrt z) = true.
Proof.
  intros Hz. pose proof (Prim2SF_valid (sqrt z)) as Hv. revert Hv.
  rewrite FloatAxioms.leb_spec, sqrt_spec, Prim2SF_one. unfold SF64sqrt.
  destruct (leb_one_cases z Hz) as [->|(mz & ez & Ez & Hge)]; [reflexivity|].
  rewrite Ez.
  destruct (SFsqrt_ge_one mz ez (valid_finite _ _ _ _ Ez) Hge)
    as [->|(m' & e' & -> & Hge')]; [reflexivity|].
  intros Hv. now apply SFleb_one_l.
Qed.

Lemma math_sqrt_ge_one (z : float) : (1 <=? z) = true -> math_sqrt z = Ok (sqrt z).
Proof.
  intros Hz. unfold math_sqrt.
  replace (z <? 0) with false; [reflexivity|].
  rewrite FloatAxioms.ltb_spec, Prim2SF_zero.
  destruct (leb_one_cases z Hz) as [->|(mz & ez & -> & _)]; reflexivity.
Qed.

(** The inverse of a number at least one lies between zero and one. *)
Lemma inv_ge_one (s : float) :
  (1 <=? s) = true ->
  is_zero s = false /\ nonneg (1 / s) /\ (1 / s <=? 1) = true.
Proof.
  intros Hs.
  destruct (leb_one_cases s Hs) as [Es|(ms & es & Es & Hge)].
  - split; [now rewrite is_zero_Prim2SF, Es|].
    unfold nonneg. rewrite FloatAxioms.leb_spec, div_spec, Prim2SF_one, Es.
    split; reflexivity.
  - split; [now rewrite is_zero_Prim2SF, Es|].
    destruct (Pos.eq_dec ms 4503599627370496%positive) as [Hm|Hm];
      [destruct (Z.eq_dec es (-52)%Z) as [He|He]|].
    + subst ms es. rewrite <- Prim2SF_one in Es. apply Prim2SF_inj in Es. subst s.
      split; reflexivity.
    + pose proof (Prim2SF_valid (1 / s)) as Hv. revert Hv.
      unfold nonneg. rewrite FloatAxioms.leb_spec, div_spec, Prim2SF_one, Es.
      destruct (SFdiv_one_le ms es (valid_finite _ _ _ _ Es) Hge)
        as (m' & e' & E & Hle); [congruence|].
      unfold SF64div. rewrite E. intros Hv. split; [reflexivity|].
      now apply SFleb_one_r.
    + pose proof (Prim2SF_valid (1 / s)) as Hv. revert Hv.
      unfold nonneg. rewrite FloatAxioms.leb_spec, div_spec, Prim2SF_one, Es.
      destruct (SFdiv_one_le ms es (valid_finite _ _ _ _ Es) Hge)
        as (m' & e' & E & Hle); [congruence|].
      unfold SF64div. rewrite E. intros Hv. split; [reflexivity|].
      now apply SFleb_one_r.
Qed.

Lemma square_nonneg (t : float) : is_nan t = false -> nonneg (t * t).
Proof.
  rewrite is_nan_Prim2SF. unfold nonneg. rewrite mul_spec. unfold SF64mul.
  destruct (Prim2SF t) as [s|s| |s mt et]; try discriminate; intros _.
  - simpl. now destruct s.
  - simpl. now destruct s.
  - pose proof (SFmul_signed s s mt mt et et) as Hs. now rewrite xorb_nilpotent in Hs.
Qed.

(** The cosine of the corner angle, [1 / sqrt(1 + t*t)], lies between zero and
    one whatever the tangent [t], and its computation does not raise. *)
Lemma cos_theta_unit (t : float) :
  is_nan t = false ->
  math_sqrt (1 + t * t) = Ok (sqrt (1 + t * t))
  /\ py_div 1 (sqrt (1 + t * t)) = Ok (1 / sqrt (1 + t * t))
  /\ (0 <=? 1 / sqrt (1 + t * t)) = true
  /\ (1 / sqrt (1 + t * t) <=? 1) = true.
Proof.
  intros Ht.
  pose proof (one_plus_nonneg _ (square_nonneg t Ht)) as Hz.
  destruct (inv_ge_one _ (sqrt_ge_one _ Hz)) as (Hnz & Hnn & Hle).
  split; [now apply math_sqrt_ge_one|].
  split; [unfold py_div; now rewrite Hnz|].
  split; [now apply nonneg_leb|exact Hle].
Qed.

Lemma mul_pos_fin_not_nan (a v : float) :
  pos_fin a -> is_nan v = false -> is_nan (a * v) = false.
Proof.
  intros (ma & ea & Ea). rewrite !is_nan_Prim2SF, mul_spec, Ea. unfold SF64mul.
  destruct (Prim2SF v) as [s|s| |s mv ev]; try reflexivity; try discriminate.
  intros _. pose proof (SFmul_signed false s ma mv ea ev) as Hs.
  destruct (SFmul prec emax _ _); simpl in Hs; tauto.
Qed.

Lemma pos_fin_half : pos_fin 0.5.
Proof. eexists _, _. reflexivity. Qed.

Lemma finite_pos_pos_fin (x : float) : is_finite x && (0 <? x) = true -> pos_fin x.
Proof.
  rewrite andb_true_iff. intros (Hf & Hp).
  destruct (ltb_0_cases x Hp) as [Hx|Hx]; [exact Hx|].
  rewrite (is_infinity_Prim2SF x Hx) in Hf. discriminate.
Qed.

(** * Floor and ceiling *)

Section FloorCeil.
Local Open Scope Z_scope.

Lemma shiftl_opp_bracket (a e : Z) :
  Z.shiftl a e <= - Z.shiftl (- a) e <= Z.shiftl a e + 1.
Proof.
  destruct (Z.le_gt_cases 0 e) as [He|He].
  - rewrite !Z.shiftl_mul_pow2 by exact He. lia.
  - rewrite !Z.shiftl_div_pow2 by lia.
    assert (Hb : 0 < 2 ^ (- e)) by (apply Z.pow_pos_nonneg; lia).
    revert Hb. generalize (2 ^ (- e)). intros b Hb.
    pose proof (Z.div_mod a b ltac:(lia)) as H1.
    pose proof (Z.mod_pos_bound a b Hb) as H2.
    pose proof (Z.div_mod (- a) b ltac:(lia)) as H3.
    pose proof (Z.mod_pos_bound (- a) b Hb) as H4.
    revert H1 H2 H3 H4.
    generalize (a / b) (a mod b) (- a / b) (- a mod b). intros q1 r1 q2 r2 H1 H2 H3 H4.
    nia.
Qed.

End FloorCeil.

Lemma floor_le_ceil (x : float) :
  (float_floor x <= float_ceil x <= float_floor x + 1)%Z.
Proof.
  unfold float_ceil, float_floor. rewrite opp_spec.
  destruct (Prim2SF x) as [s|s| |s mx ex]; simpl SFopp; cbv iota; try lia.
  replace (cond_Zopp (negb s) (Zpos mx)) with (- cond_Zopp s (Zpos mx))%Z
    by (destruct s; reflexivity).
  apply shiftl_opp_bracket.
Qed.

(** * Order of binary64 numbers *)

Lemma SFcompare_Lt_trans (x y z : spec_float) :
  SFcompare x y = Some Lt -> SFcompare y z = Some Lt -> SFcompare x z = Some Lt.
Proof.
  destruct x as [sx|sx| |sx mx ex], y as [sy|sy| |sy my ey], z as [sz|sz| |sz mz ez];
    try destruct sx; try destruct sy; try destruct sz;
    cbv beta iota delta [SFcompare]; try discriminate; try reflexivity;
    rewrite ?compare_cont_Z; intros H1 H2; revert H1 H2;
    repeat match goal with
           | |- context [Z.compare ?a ?b] => destruct (Z.compare_spec a b)
           end; simpl; try discriminate; try reflexivity; intros _ _; exfalso; lia.
Qed.

Lemma ltb_trans (a b c : float) :
  (a <? b) = true -> (b <? c) = true -> (a <? c) = true.
Proof.
  rewrite !FloatAxioms.ltb_spec. unfold SFltb.
  destruct (SFcompare (Prim2SF a) (Prim2SF b)) as [[]|] eqn:E1; try discriminate.
  destruct (SFcompare (Prim2SF b) (Prim2SF c)) as [[]|] eqn:E2; try discriminate.
  now rewrite (SFcompare_Lt_trans _ _ _ E1 E2).
Qed.

(** * More facts about binary64 arithmetic *)

Lemma is_finite_Prim2SF (x : float) :
  is_finite x = match Prim2SF x with
                | S754_zero _ | S754_finite _ _ _ => true
                | _ => false
                end.
Proof.
  unfold is_finite. rewrite is_nan_Prim2SF. unfold is_infinity.
  rewrite FloatAxioms.eqb_spec, abs_spec.
  destruct (Prim2SF x) as [s|s| |s mx ex]; try destruct s; reflexivity.
Qed.

Lemma Prim2SF_infinity : Prim2SF infinity = S754_infinity false.
Proof. reflexivity. Qed.

Lemma eq_infinity (x : float) : Prim2SF x = S754_infinity false -> x = infinity.
Proof. intros Hx. apply Prim2SF_inj. now rewrite Hx. Qed.

(** A quotient by +infinity is a zero or NaN. *)
Lemma div_inf_not_pos (x : float) : (0 <? x / infinity) = false.
Proof.
  rewrite FloatAxioms.ltb_spec, div_spec, Prim2SF_zero, Prim2SF_infinity.
  destruct (Prim2SF x) as [s|s| |s mx ex]; try destruct s; reflexivity.
Qed.

(** The quotient of two positive numbers is not negative, but it can be NaN. *)
Lemma div_pos_pos (a b : float) :
  (0 <? a) = true -> (0 <? b) = true -> nonneg (a / b) \/ is_nan (a / b) = true.
Proof.
  intros Ha Hb. unfold nonneg. rewrite is_nan_Prim2SF, div_spec.
  destruct (ltb_0_cases a Ha) as [(ma & ea & ->)| ->],
           (ltb_0_cases b Hb) as [(mb & eb & ->)| ->].
  - left. exact (SFdiv_signed false false ma mb ea eb).
  - left. reflexivity.
  - left. reflexivity.
  - right. reflexivity.
Qed.

(** A number that is not positive times one that is not negative is not
    positive. *)
Lemma mul_nonpos_nonneg (s p : float) :
  (s <=? 0) = true -> nonneg p \/ is_nan p = true -> (0 <? s * p) = false.
Proof.
  unfold nonneg. rewrite is_nan_Prim2SF, FloatAxioms.leb_spec, FloatAxioms.ltb_spec,
    mul_spec, Prim2SF_zero.
  intros Hs Hp. unfold SF64mul.
  destruct (Prim2SF s) as [ss|ss| |ss ms es]; try discriminate;
    try (destruct ss; try discriminate);
    destruct (Prim2SF p) as [sp|sp| |sp mp ep]; try reflexivity;
    try (destruct Hp as [Hp|Hp]; simpl in Hp; try discriminate; try tauto;
         subst sp; try reflexivity).
  pose proof (SFmul_signed true false ms mp es ep) as Hm.
  destruct (SFmul prec emax _ _) as [sr|sr| |sr mr er]; simpl in Hm; try tauto;
    subst sr; reflexivity.
Qed.

(** The minimum of +infinity and of a number that is not negative is that
    number. *)
Lemma py_min_inf_l (p : float) : nonneg p -> py_min infinity p = p.
Proof.
  unfold nonneg, py_min. intros Hp.
  destruct (p <? infinity) eqn:E; [reflexivity|].
  symmetry. apply eq_infinity.
  rewrite FloatAxioms.ltb_spec, Prim2SF_infinity in E.
  destruct (Prim2SF p) as [sp|sp| |sp mp ep]; simpl in Hp; try tauto; subst sp;
    try discriminate; reflexivity.
Qed.

(** * The stages of [calculate], continued *)

Section MoreStages.
Context `{PyRuntime}.

Lemma fov_stage_inv (params : gmap string pyval) (s : sensor_locals) (l : lens_locals)
    (v : fov_locals) :
  fov_stage params s l = Ok v ->
  (if is_finite (m l) && (0 <? m l)
   then let* w := py_div (sensor_w_mm s) (m l) in
        let* h := py_div (sensor_h_mm s) (m l) in
        Ok (w, h)
   else Ok (infinity, infinity)) = Ok (fov_w_mm v, fov_h_mm v)
  /\ fov_diag_mm v = math_hypot (fov_w_mm v) (fov_h_mm v)
  /\ fov_area_mm2 v =
       (if is_finite (fov_w_mm v) && is_finite (fov_h_mm v)
        then fov_w_mm v * fov_h_mm v else infinity)
  /\ (if (0 <? fov_w_mm v) && (0 <? pixels_horz s)
      then py_div (pixels_horz s) (fov_w_mm v) else Ok 0) = Ok (pixels_per_mm_x v)
  /\ (if (0 <? fov_h_mm v) && (0 <? pixels_vert s)
      then py_div (pixels_vert s) (fov_h_mm v) else Ok 0) = Ok (pixels_per_mm_y v)
  /\ (if 0 <? pixels_per_mm_x v then py_div 1 (pixels_per_mm_x v) else Ok infinity)
     = Ok (mm_per_pixel_x v)
  /\ (if 0 <? pixels_per_mm_y v then py_div 1 (pixels_per_mm_y v) else Ok infinity)
     = Ok (mm_per_pixel_y v)
  /\ exists tw th,
       _as_float params ["target_fov_width"] None = Ok tw
       /\ _as_float params ["target_fov_height"] None = Ok th
       /\ actual_vs_target tw (fov_w_mm v) = Ok (fov_width_actual_vs_target_percent v)
       /\ actual_vs_target th (fov_h_mm v) = Ok (fov_height_actual_vs_target_percent v).
Proof.
  unfold fov_stage. intros Hv.
  inv_bind Hv. destruct a as [fw fh]. repeat inv_bind Hv. inv_Ok Hv. cbn -[_as_float].
  repeat split; try assumption. exists a3, a4. repeat split; assumption.
Qed.

Lemma appearance_stage_inv (v : fov_locals) (e : motion_locals) (a : appearance_locals) :
  appearance_stage v e = Ok a ->
  appearance_axis_used a = motion_axis e
  /\ traversal_extent_mm a = (if String.eqb (motion_axis e) "H" then fov_h_mm v else fov_w_mm v)
  /\ (if (0 <? object_speed_mm_s e) && is_finite (traversal_extent_mm a)
      then py_div (traversal_extent_mm a) (object_speed_mm_s e)
      else Ok infinity) = Ok (duration_s a)
  /\ expected_frames a =
       (if (0 <? sensor_fps e) && is_finite (duration_s a)
        then duration_s a * sensor_fps e else infinity)
  /\ frames_min a = (if is_finite (expected_frames a) then float_floor (expected_frames a)
                     else 0%Z)
  /\ frames_max a = (if is_finite (expected_frames a) then float_ceil (expected_frames a)
                     else 0%Z)
  /\ (if 0 <? sensor_fps e then py_div (object_speed_mm_s e) (sensor_fps e)
      else Ok infinity) = Ok (displacement_per_frame_mm a)
  /\ displacement_per_frame_px a =
       (if is_finite (displacement_per_frame_mm a)
        then displacement_per_frame_mm a * px_per_mm_axis e else infinity).
Proof.
  unfold appearance_stage. intros Ha.
  repeat inv_bind Ha. inv_Ok Ha. simpl. repeat split; assumption.
Qed.

End MoreStages.

(** * The frame counts *)

(** The two frame counts of a run bracket the expected number of frames: the
    larger one is the smaller one or the next integer, and both are 0 when the
    expected number is not finite. *)
Theorem frame_counts_bracket `{PyRuntime} (params : gmap string pyval) (x : locals) :
  calculate_locals params = Ok x ->
  let a := appearances x in
  (frames_min a <= frames_max a <= frames_min a + 1)%Z
  /\ (is_finite (expected_frames a) = false -> frames_min a = 0%Z /\ frames_max a = 0%Z)
  /\ field "appearances" "frames_min" (result_of x) = Some (OInt (frames_min a))
  /\ field "appearances" "frames_max" (result_of x) = Some (OInt (frames_max a)).
Proof.
  intros Hc a. apply calculate_locals_inv in Hc.
  destruct Hc as (_ & _ & _ & _ & _ & _ & _ & _ & Ha & _).
  apply appearance_stage_inv in Ha. fold a in Ha.
  destruct Ha as (_ & _ & _ & _ & Hmin & Hmax & _).
  split; [|split; [|split; reflexivity]].
  - rewrite Hmin, Hmax.
    destruct (is_finite (expected_frames a)); [apply floor_le_ceil|lia].
  - rewrite Hmin, Hmax. intros ->. split; reflexivity.
Qed.

(** * The verdict and the diffraction flag *)

(** A run whose sampling regime is "optics-limited (diffraction)" sets the
    [diffraction_dominant] flag, and a run whose regime is "sensor-limited"
    clears it. *)
Theorem regime_agrees_with_flag `{PyRuntime} (params : gmap string pyval) (x : locals) :
  calculate_locals params = Ok x ->
  (sampling_regime (diffraction x) = "optics-limited (diffraction)" ->
   diffraction_dominant (flags x) = true)
  /\ (sampling_regime (diffraction x) = "sensor-limited" ->
      diffraction_dominant (flags x) = false).
Proof.
  intros Hc. apply calculate_locals_inv in Hc.
  destruct Hc as (_ & _ & _ & _ & _ & Hd & _ & _ & _ & Hf).
  apply diffraction_stage_inv in Hd. destruct Hd as (_ & _ & Hr).
  rewrite Hr, Hf. unfold flag_stage, classify_regime. simpl.
  set (r := nyquist_over_diffraction_cutoff (diff (diffraction x))).
  split.
  - destruct (1.1 <? r) eqn:E1.
    + intros _. apply (ltb_trans 1 1.1 r); [reflexivity|exact E1].
    + destruct (_ <? 0.9 * _); [discriminate|]. destruct (r <? 0.9); discriminate.
  - destruct (1.1 <? r) eqn:E1; [discriminate|].
    destruct (_ <? 0.9 * _); [discriminate|].
    destruct (r <? 0.9) eqn:E2; [|discriminate]. intros _.
    destruct (1 <? r) eqn:E3; [|reflexivity].
    pose proof (ltb_trans 1 r 0.9 E3 E2) as Habs. discriminate.
Qed.

(** * Products that do not underflow to zero *)

Section NoUnderflow.
Local Open Scope Z_scope.

(** Shifting a positive significand to its canonical exponent leaves a
    positive significand when the value is not below [2^emin]. *)
Lemma shr_fexp_pos (q : positive) (e : Z) (l : location) :
  -1074 < Zpos (digits2_pos q) + e ->
  0 < shr_m (fst (shr_fexp prec emax (Zpos q) e l))
  /\ -1074 <= snd (shr_fexp prec emax (Zpos q) e l).
Proof.
  intros Hd. pose proof (digits2_bounds q) as (Hl & Hu).
  destruct (Z.le_gt_cases (fexp prec emax (Zpos (digits2_pos q) + e)) e) as [Hns|Hsh].
  - rewrite (shr_fexp_noshift q e l Hns). rewrite fexp_eq in Hns. simpl.
    rewrite shr_record_of_loc_m. lia.
  - destruct (shr_fexp_shift q e l Hsh) as (r & -> & Hr). simpl.
    rewrite fexp_eq in Hsh, Hr |- *. split; [|lia].
    rewrite Hr.
    set (n := Z.max (Zpos (digits2_pos q) + e - 53) (-1074) - e) in *.
    assert (Hn : 0 < n <= Zpos (digits2_pos q) - 1) by (unfold n; lia).
    assert (Hp : 0 < 2 ^ n) by (apply Z.pow_pos_nonneg; lia).
    assert (Hle : 2 ^ n <= 2 ^ (Zpos (digits2_pos q) - 1))
      by (apply Z.pow_le_mono_r; lia).
    assert (1 <= Zpos q / 2 ^ n); [|lia].
    apply Z.div_le_lower_bound; lia.
Qed.

(** Rounding a positive significand whose value is not below [2^emin] never
    gives zero. *)
Lemma binary_round_aux_not_zero (s : bool) (mm : positive) (e : Z) (l : location) :
  -1074 < Zpos (digits2_pos mm) + e ->
  (exists m' e', binary_round_aux prec emax s (Zpos mm) e l = S754_finite s m' e')
  \/ binary_round_aux prec emax s (Zpos mm) e l = S754_infinity s.
Proof.
  intros Hd. unfold binary_round_aux.
  pose proof (shr_fexp_pos mm e l Hd) as (H1 & He1).
  destruct (shr_fexp prec emax (Zpos mm) e l) as [r1 e1]. simpl in H1, He1.
  assert (Hq : 0 < round_nearest_even (shr_m r1) (loc_of_shr_record r1))
    by (destruct (round_nearest_even_cases (shr_m r1) (loc_of_shr_record r1)) as [->| ->];
        lia).
  destruct (round_nearest_even (shr_m r1) (loc_of_shr_record r1)) as [|q|q]; try lia.
  assert (Hdq : -1074 < Zpos (digits2_pos q) + e1) by lia.
  pose proof (shr_fexp_pos q e1 loc_Exact Hdq) as (H2 & _).
  destruct (shr_fexp prec emax (Zpos q) e1 loc_Exact) as [r2 e2]. simpl in H2.
  destruct (shr_m r2) as [|m2|m2]; try lia.
  destruct (e2 <=? emax - prec); [left; eauto|right; reflexivity].
Qed.

(** The number of digits of a product. *)
Lemma digits2_mul_ge (a b : positive) :
  Zpos (digits2_pos a) + Zpos (digits2_pos b) - 1 <= Zpos (digits2_pos (a * b)).
Proof.
  pose proof (digits2_bounds a) as (Ha & _).
  pose proof (digits2_bounds b) as (Hb & _).
  pose proof (digits2_bounds (a * b)) as (_ & Hab).
  rewrite Pos2Z.inj_mul in Hab.
  assert (Hp : 2 ^ (Zpos (digits2_pos a) - 1) * 2 ^ (Zpos (digits2_pos b) - 1)
               <= Zpos a * Zpos b).
  { apply Z.mul_le_mono_nonneg; try assumption; apply Z.pow_nonneg; lia. }
  rewrite <- Z.pow_add_r in Hp by lia.
  assert (Hlt : 2 ^ (Zpos (digits2_pos a) - 1 + (Zpos (digits2_pos b) - 1))
                < 2 ^ Zpos (digits2_pos (a * b))) by lia.
  apply Z.pow_lt_mono_r_iff in Hlt; lia.
Qed.

(** The product of two positive finite numbers the sum of whose binary
    magnitudes is above [emin] is not zero. *)
Lemma SFmul_not_zero (mx my : positive) (ex ey : Z) :
  -1072 <= Zpos (digits2_pos mx) + ex + (Zpos (digits2_pos my) + ey) ->
  (exists m' e', SFmul prec emax (S754_finite false mx ex) (S754_finite false my ey)
                 = S754_finite false m' e')
  \/ SFmul prec emax (S754_finite false mx ex) (S754_finite false my ey)
     = S754_infinity false.
Proof.
  intros Hd. unfold SFmul. change (xorb false false) with false.
  apply binary_round_aux_not_zero.
  pose proof (digits2_mul_ge mx my). lia.
Qed.

(** The binary magnitude of a number of binary64 is above [emin]. *)
Lemma bounded_magnitude (mm : positive) (e : Z) :
  bounded prec emax mm e = true -> -1073 <= Zpos (digits2_pos mm) + e.
Proof. intros Hb. apply bounded_spec in Hb. lia. Qed.

End NoUnderflow.

Lemma pos_fin_pos (x : float) : pos_fin x -> (0 <? x) = true.
Proof.
  intros (mx & ex & Ex). now rewrite FloatAxioms.ltb_spec, Prim2SF_zero, Ex.
Qed.

(** A positive number times a finite number that is at least one is positive:
    the product does not underflow. *)
Lemma mul_pos_ge_one (x y : float) (my : positive) (ey : Z) :
  Prim2SF y = S754_finite false my ey ->
  (1 <= Zpos (digits2_pos my) + ey)%Z ->
  (0 <? x) = true -> (0 <? x * y) = true /\ (0 <? y * x) = true.
Proof.
  intros Ey Hy Hx.
  rewrite !FloatAxioms.ltb_spec, !mul_spec, Ey, Prim2SF_zero. unfold SF64mul.
  destruct (ltb_0_cases x Hx) as [(mx & ex & Ex)|Ex]; rewrite Ex; [|split; reflexivity].
  pose proof (bounded_magnitude _ _ (valid_finite _ _ _ _ Ex)) as Hm.
  split.
  - destruct (SFmul_not_zero mx my ex ey ltac:(lia)) as [(m' & e' & ->)| ->]; reflexivity.
  - destruct (SFmul_not_zero my mx ey ex ltac:(lia)) as [(m' & e' & ->)| ->]; reflexivity.
Qed.

Lemma mul_1000_pos (x : float) : (0 <? x) = true -> (0 <? x * 1000) = true.
Proof.
  intros Hx.
  exact (proj1 (mul_pos_ge_one x 1000 _ _ eq_refl ltac:(vm_compute; discriminate) Hx)).
Qed.

Lemma mul_2_pos (x : float) : (0 <? x) = true -> (0 <? 2 * x) = true.
Proof.
  intros Hx.
  exact (proj2 (mul_pos_ge_one x 2 _ _ eq_refl ltac:(vm_compute; discriminate) Hx)).
Qed.

(** * Guarded divisions *)

(** A division behind a guard that makes the divisor positive. *)
Lemma guarded_div (c : bool) (a b d : float) :
  (c = true -> (0 <? b) = true) ->
  (if c then py_div a b else Ok d) = Ok (if c then a / b else d).
Proof. destruct c; intros Hc; [apply py_div_pos; auto|reflexivity]. Qed.

Ltac from_guard :=
  let Hc := fresh "Hc" in
  intros Hc; repeat (apply andb_prop in Hc; destruct Hc as [Hc ?]); assumption.

Ltac step_div := rewrite guarded_div by from_guard; cbn [bind].

(** The floor of the f-number leaves a number of magnitude [2^-81] at least. *)
Lemma floored_f_number_cases (n : float) :
  (0 <? py_max n 1e-9) = true ->
  py_max n 1e-9 = infinity
  \/ exists mn en, Prim2SF (py_max n 1e-9) = S754_finite false mn en
                   /\ (-82 <= en)%Z.
Proof.
  unfold py_max. destruct (n <? 1e-9) eqn:E.
  - intros _. right. exists 4835703278458517%positive, (-82)%Z.
    split; [reflexivity|lia].
  - intros Hn. destruct (ltb_0_cases n Hn) as [(mn & en & En)|Hi];
      [right|left; now apply eq_infinity].
    exists mn, en. split; [exact En|].
    rewrite FloatAxioms.ltb_spec, En in E.
    change (Prim2SF 1e-9) with (S754_finite false 4835703278458517 (-82)) in E.
    unfold SFltb in E. cbv beta iota delta [SFcompare] in E.
    destruct (Z.compare_spec en (-82)) as [Heq|Hlt|Hgt]; first [lia|discriminate].
Qed.

(** The wavelength in millimetres times the floored f-number is positive. *)
Lemma wavelength_times_f_number (n : float) :
  (0 <? py_max n 1e-9) = true -> (0 <? 0.55 / 1000 * py_max n 1e-9) = true.
Proof.
  intros Hn. destruct (floored_f_number_cases n Hn) as [->|(mn & en & En & He)];
    [reflexivity|].
  rewrite FloatAxioms.ltb_spec, mul_spec, En, Prim2SF_zero. unfold SF64mul.
  destruct (Prim2SF (0.55 / 1000)) as [s|s| |s ml el] eqn:El;
    try (vm_compute in El; discriminate).
  assert (Hs : s = false) by (vm_compute in El; congruence). subst s.
  assert (Hl : (-20 <= Zpos (digits2_pos ml) + el)%Z).
  { vm_compute in El. injection El as <- <-. vm_compute. discriminate. }
  pose proof (digits2_bounds mn) as (_ & _).
  assert (Hdn : (1 <= Zpos (digits2_pos mn))%Z) by lia.
  destruct (SFmul_not_zero ml mn el en ltac:(lia)) as [(m' & e' & ->)| ->]; reflexivity.
Qed.

(** * Stages that never raise *)

Section Totality.
Context `{PyRuntime}.

Lemma _sensor_pixels_total (w h : float) (pw ph : option float) :
  exists p, _sensor_pixels w h pw ph = Ok p.
Proof.
  unfold _sensor_pixels.
  destruct ((or_else pw 0 / 1000 <=? 0) && (or_else ph 0 / 1000 <=? 0)); [eauto|].
  do 2 step_div. eauto.
Qed.

Lemma actual_vs_target_total (t : option float) (fov : float) :
  exists q, actual_vs_target t fov = Ok q.
Proof.
  destruct t as [t|]; [|simpl; eauto]. unfold actual_vs_target.
  destruct (truthy t && (0 <? t) && is_finite fov && (0 <? fov)) eqn:E; [|eauto].
  apply andb_prop in E. destruct E as (E & _).
  apply andb_prop in E. destruct E as (E & _).
  apply andb_prop in E. destruct E as (_ & E).
  rewrite (py_div_pos _ _ E). cbn [bind]. eauto.
Qed.

(** An exception of the sensor stage is an exception of one of its reads. *)
Lemma sensor_stage_raises (params : gmap string pyval) (e : exn) :
  sensor_stage params = Raise e ->
  exists key d, _as_float params [key] d = Raise e.
Proof.
  unfold sensor_stage.
  destruct (_as_float params ["sensor_width_mm"] (Some 0)) as [w|] eqn:E1;
    [|intros Hr; inversion Hr; subst; eauto].
  destruct (_as_float params ["sensor_height_mm"] (Some 0)) as [h|] eqn:E2;
    [|intros Hr; inversion Hr; subst; eauto].
  destruct (_as_float params ["sensor_diagonal_mm"] None) as [sd|] eqn:E3;
    [|intros Hr; inversion Hr; subst; eauto].
  destruct (_as_float params ["sensor_pixel_size_width_um"] None) as [pw|] eqn:E4;
    [|intros Hr; inversion Hr; subst; eauto].
  destruct (_as_float params ["sensor_pixel_size_height_um"] None) as [ph|] eqn:E5;
    [|intros Hr; inversion Hr; subst; eauto].
  cbn [bind].
  destruct (_sensor_pixels_total (or_else w 0) (or_else h 0) pw ph) as ([a b] & ->).
  cbn [bind]. step_div.
  rewrite guarded_div
    by (intros Hc; apply andb_prop in Hc; destruct Hc as (_ & Hc); now apply mul_2_pos).
  cbn [bind]. discriminate.
Qed.

(** An exception of the lens stage is an exception of one of its reads or of
    [_lens_geometry] at the focal length and the working distance read. *)
Lemma lens_stage_raises (params : gmap string pyval) (e : exn) :
  lens_stage params = Raise e ->
  (exists key d, _as_float params [key] d = Raise e)
  \/ exists f wd,
       _as_float params ["lens_focal_length_mm"] (Some 0) = Ok f
       /\ _as_float params ["working_distance_mm"] (Some 0) = Ok wd
       /\ _lens_geometry (or_else f 0) (or_else wd 0) = Raise e.
Proof.
  unfold lens_stage.
  destruct (_as_float params ["lens_focal_length_mm"] (Some 0)) as [f|] eqn:E1;
    [|intros Hr; inversion Hr; subst; eauto].
  destruct (_as_float params ["lens_fstop"] (Some 0)) as [n|] eqn:E2;
    [|intros Hr; inversion Hr; subst; eauto].
  destruct (_as_float params ["lens_diagonal_mm"] None) as [ld|] eqn:E3;
    [|intros Hr; inversion Hr; subst; eauto].
  destruct (_as_float params ["lens_distortion_perc"] None) as [dp|] eqn:E4;
    [|intros Hr; inversion Hr; subst; eauto].
  destruct (_as_float params ["lens_resolution"] None) as [lr|] eqn:E5;
    [|intros Hr; inversion Hr; subst; eauto].
  destruct (_as_float params ["working_distance_mm"] (Some 0)) as [wd|] eqn:E6;
    [|intros Hr; inversion Hr; subst; eauto].
  cbn [bind].
  destruct (_lens_geometry (or_else f 0) (or_else wd 0)) as [[di mg]|e'] eqn:Eg;
    [|intros Hr; inversion Hr; subst; right; exists f, wd; auto].
  cbn [bind]. step_div. discriminate.
Qed.

(** An exception of the field-of-view stage is an exception of one of its
    reads. *)
Lemma fov_stage_raises (params : gmap string pyval) (s : sensor_locals) (l : lens_locals)
    (e : exn) :
  fov_stage params s l = Raise e ->
  exists key d, _as_float params [key] d = Raise e.
Proof.
  unfold fov_stage.
  assert (Hwh : exists w h,
            (if is_finite (m l) && (0 <? m l)
             then let* w := py_div (sensor_w_mm s) (m l) in
                  let* h := py_div (sensor_h_mm s) (m l) in
                  Ok (w, h)
             else Ok (infinity, infinity)) = Ok (w, h)).
  { destruct (is_finite (m l) && (0 <? m l)) eqn:E; [|eauto].
    apply andb_prop in E. destruct E as (_ & E).
    rewrite !(py_div_pos _ _ E). cbn [bind]. eauto. }
  destruct Hwh as (w & h & ->). cbn [bind].
  do 4 step_div.
  destruct (_as_float params ["target_fov_width"] None) as [tw|] eqn:E1;
    [|intros Hr; inversion Hr; subst; eauto].
  destruct (_as_float params ["target_fov_height"] None) as [th|] eqn:E2;
    [|intros Hr; inversion Hr; subst; eauto].
  cbn [bind].
  destruct (actual_vs_target_total tw w) as (q1 & ->).
  destruct (actual_vs_target_total th h) as (q2 & ->).
  discriminate.
Qed.

(** An exception of the motion stage is an exception of one of its reads. *)
Lemma motion_stage_raises (params : gmap string pyval) (v : fov_locals) (e : exn) :
  motion_stage params v = Raise e ->
  exists key d, _as_float params [key] d = Raise e.
Proof.
  intros Hr. pose proof (motion_stage_returns params v) as Hm.
  rewrite Hr in Hm.
  destruct (_as_float params ["sensor_framerate"] None) as [fps|e1] eqn:E1.
  2:{ unfold motion_stage in Hr. rewrite E1 in Hr. inversion Hr; subst; eauto. }
  destruct (_as_float params ["object_allowed_blur_pixels"] None) as [blur|e2] eqn:E2.
  2:{ unfold motion_stage in Hr. rewrite E1 in Hr. cbn [bind] in Hr.
      rewrite guarded_div in Hr by from_guard. cbn [bind] in Hr.
      rewrite E2 in Hr. inversion Hr; subst; eauto. }
  destruct (_as_float params ["object_initial_speed_mm_s"] None) as [speed|e3] eqn:E3.
  2:{ unfold motion_stage in Hr. rewrite E1 in Hr. cbn [bind] in Hr.
      rewrite guarded_div in Hr by from_guard. cbn [bind] in Hr.
      rewrite E2 in Hr. cbn [bind] in Hr.
      rewrite E3 in Hr. inversion Hr; subst; eauto. }
  discriminate (Hm eq_refl eq_refl eq_refl).
Qed.

(** The diffraction stage never raises: the pixel pitch it passes on is
    positive and the f-number it passes on is floored at [1e-9]. *)
Lemma diffraction_stage_total (s : sensor_locals) (l : lens_locals) :
  exists d, diffraction_stage s l = Ok d.
Proof.
  unfold diffraction_stage, _diffraction_sampling_metrics.
  set (p := if 0 <? pixel_size_mm_min s then pixel_size_mm_min s else 1e-6).
  assert (Hp : (0 <? p) = true)
    by (unfold p; destruct (0 <? pixel_size_mm_min s) eqn:E; [exact E|reflexivity]).
  rewrite Hp.
  rewrite (py_div_pos _ _ (mul_1000_pos p Hp)). cbn [bind].
  rewrite (py_div_pos _ _ (mul_2_pos p Hp)). cbn [bind].
  rewrite guarded_div
    by (intros Hc; apply andb_prop in Hc; destruct Hc as (_ & Hc);
        now apply wavelength_times_f_number).
  cbn [bind]. do 2 step_div. eauto.
Qed.

(** An exception of the coverage stage is an exception of the squaring of the
    coverage ratio. *)
Lemma coverage_stage_raises (s : sensor_locals) (l : lens_locals) (v : fov_locals)
    (e : exn) :
  coverage_stage s l v = Raise e ->
  float_pow (or_else (sensor_diag_mm s) 0 / lens_diag_mm l) 2 = Raise e.
Proof.
  unfold coverage_stage. step_div.
  destruct ((0 <? lens_diag_mm l) && truthy_opt (sensor_diag_mm s)).
  - destruct (is_finite (or_else (sensor_diag_mm s) 0 / lens_diag_mm l));
      [destruct (float_pow (or_else (sensor_diag_mm s) 0 / lens_diag_mm l) 2) eqn:E|];
      cbn [bind]; try discriminate.
    intros Hr. inversion Hr; subst. reflexivity.
  - change (is_finite nan) with false. cbn [bind]. discriminate.
Qed.

(** The cosine of the corner angle is computed without an exception, whatever
    the tangent. *)
Lemma cos_theta_total (t : float) :
  math_sqrt (1 + t * t) = Ok (sqrt (1 + t * t))
  /\ py_div 1 (sqrt (1 + t * t)) = Ok (1 / sqrt (1 + t * t)).
Proof.
  destruct (is_nan t) eqn:E.
  - rewrite (is_nan_eq t E). split; reflexivity.
  - destruct (cos_theta_unit t E) as (Hs & Hq & _). auto.
Qed.

(** An exception of [_illumination_metrics] is an exception of the fourth
    power of the cosine or of the logarithm of the reciprocal of the floored
    corner ratio. *)
Lemma _illumination_metrics_raises (sd di : float) (lri : option float) (e : exn) :
  _illumination_metrics sd di lri = Raise e ->
  (lri = None /\ is_finite di && (0 <? di) = true
   /\ float_pow (1 / sqrt (1 + 0.5 * sd / di * (0.5 * sd / di))) 4 = Raise e)
  \/ exists r, corner_ratio_of sd di lri = Ok r /\ (0 <? r) = true
               /\ math_log2 (1 / py_max r 1e-9) = Raise e.
Proof.
  unfold _illumination_metrics, corner_ratio_of.
  assert (Hlog : forall r k,
            bind (if 0 <? r
                  then let* q := py_div 1 (py_max r 1e-9) in math_log2 q
                  else Ok infinity) k = Raise e ->
            (forall y : float, k y <> (Raise e : res illum_result)) ->
            (0 <? r) = true /\ math_log2 (1 / py_max r 1e-9) = Raise e).
  { intros r k Hr Hk. destruct (0 <? r) eqn:E.
    - unfold py_div in Hr. rewrite (py_max_floor_not_zero _ E) in Hr. cbn [bind] in Hr.
      destruct (math_log2 (1 / py_max r 1e-9)) as [y|e'] eqn:El.
      + cbn [bind] in Hr. now apply Hk in Hr.
      + inversion Hr; subst. auto.
    - cbn [bind] in Hr. now apply Hk in Hr. }
  destruct lri as [v|].
  - cbn [bind]. intros Hr. right. eexists. split; [reflexivity|].
    eapply Hlog; [exact Hr|]. discriminate.
  - destruct (is_finite di && (0 <? di)) eqn:Ed.
    + pose proof Ed as Ed'. apply andb_prop in Ed'. destruct Ed' as (_ & Ed').
      rewrite (py_div_pos _ _ Ed'). cbn [bind].
      destruct (cos_theta_total (0.5 * sd / di)) as (Hs & Hq).
      rewrite Hs. cbn [bind]. rewrite Hq. cbn [bind].
      destruct (float_pow (1 / sqrt (1 + 0.5 * sd / di * (0.5 * sd / di))) 4)
        as [r|e'] eqn:Ep.
      * cbn [bind]. intros Hr. right. exists r. split; [reflexivity|].
        eapply Hlog; [exact Hr|]. discriminate.
      * intros Hr. inversion Hr; subst. left. auto.
    + cbn [bind]. intros Hr. right. exists 1. split; [reflexivity|].
      apply (Hlog 1 _ Hr). discriminate.
Qed.

Lemma illumination_stage_raises (params : gmap string pyval) (s : sensor_locals)
    (l : lens_locals) (e : exn) :
  illumination_stage params s l = Raise e ->
  (exists key d, _as_float params [key] d = Raise e)
  \/ exists lri,
       _as_float params ["lens_relative_illumination"] None = Ok lri
       /\ _illumination_metrics (or_else (sensor_diag_mm s) 0) (di_mm l) lri = Raise e.
Proof.
  unfold illumination_stage.
  destruct (_as_float params ["lens_relative_illumination"] None) as [lri|] eqn:E1;
    [|intros Hr; inversion Hr; subst; eauto].
  cbn [bind]. intros Hr. right. eauto.
Qed.

(** The appearance stage never raises. *)
Lemma appearance_stage_total (v : fov_locals) (e : motion_locals) :
  exists a, appearance_stage v e = Ok a.
Proof. unfold appearance_stage. do 2 step_div. eauto. Qed.

(** An exception of the depth-of-field stage is an exception of
    [_dof_hyperfocal]. *)
Lemma dof_stage_raises (s : sensor_locals) (l : lens_locals) (e : exn) :
  dof_stage s l = Raise e ->
  exists c, (0 <? c) = true
            /\ _dof_hyperfocal (f_mm l) (f_stop l) c (working_distance_mm l) = Raise e.
Proof.
  unfold dof_stage. intros Hr.
  match type of Hr with
  | _dof_hyperfocal _ _ (if 0 <? ?c then _ else _) _ = _ =>
      destruct (0 <? c) eqn:E; [exists c|exists 1e-3]; auto
  end.
Qed.

End Totality.

(** * Rounding does not cross a number of the grid *)

Section Monotone.
Local Open Scope Z_scope.

Lemma shr_1_exact (mrs : shr_record) (t : Z) :
  0 <= shr_m mrs -> shr_r mrs = false -> shr_s mrs = false ->
  shr_m mrs = t * 2 ->
  shr_r (shr_1 mrs) = false /\ shr_s (shr_1 mrs) = false.
Proof.
  destruct mrs as [mm r s]. simpl. intros Hm -> -> Ht.
  destruct mm as [|[p|p|]|p]; simpl; auto; lia.
Qed.

(** Shifting out bits that are all zero leaves an exact location. *)
Lemma iter_shr_1_exact (p : positive) : forall (mrs : shr_record) (t : Z),
  0 <= shr_m mrs -> shr_r mrs = false -> shr_s mrs = false ->
  shr_m mrs = t * 2 ^ Zpos p ->
  shr_r (SpecFloat.iter_pos shr_1 p mrs) = false
  /\ shr_s (SpecFloat.iter_pos shr_1 p mrs) = false.
Proof.
  induction p as [p IH|p IH|]; simpl SpecFloat.iter_pos; intros mrs t Hm Hr Hs Ht;
    try assert (Hp : 0 < 2 ^ Zpos p) by (apply Z.pow_pos_nonneg; lia).
  - rewrite pow2_xI in Ht.
    destruct (shr_1_exact mrs (t * 2 ^ Zpos p * 2 ^ Zpos p) Hm Hr Hs) as (Hr1 & Hs1);
      [rewrite Ht; ring|].
    assert (Hm1 : shr_m (shr_1 mrs) = t * 2 ^ Zpos p * 2 ^ Zpos p).
    { rewrite shr_1_div2 by exact Hm. rewrite Ht.
      replace (t * (2 * 2 ^ Zpos p * 2 ^ Zpos p)) with (t * 2 ^ Zpos p * 2 ^ Zpos p * 2)
        by ring.
      apply Z.div_mul. lia. }
    assert (Hn1 : 0 <= shr_m (shr_1 mrs)) by (apply shr_1_nonneg, Hm).
    destruct (IH (shr_1 mrs) (t * 2 ^ Zpos p) Hn1 Hr1 Hs1 Hm1) as (Hr2 & Hs2).
    assert (Hm2 : shr_m (SpecFloat.iter_pos shr_1 p (shr_1 mrs)) = t * 2 ^ Zpos p).
    { rewrite iter_shr_1_div by exact Hn1. rewrite Hm1. apply Z.div_mul. lia. }
    apply (IH _ t); try assumption. apply iter_shr_1_nonneg, Hn1.
  - rewrite pow2_xO in Ht.
    destruct (IH mrs (t * 2 ^ Zpos p) Hm Hr Hs) as (Hr2 & Hs2); [rewrite Ht; ring|].
    assert (Hm2 : shr_m (SpecFloat.iter_pos shr_1 p mrs) = t * 2 ^ Zpos p).
    { rewrite iter_shr_1_div by exact Hm. rewrite Ht, Z.mul_assoc. apply Z.div_mul. lia. }
    apply (IH _ t); try assumption. apply iter_shr_1_nonneg, Hm.
  - apply (shr_1_exact mrs t Hm Hr Hs). rewrite Ht. reflexivity.
Qed.

Lemma shr_fexp_exact_loc (mm : positive) (e : Z) (t : Z) :
  e < fexp prec emax (Zpos (digits2_pos mm) + e) ->
  Zpos mm = t * 2 ^ (fexp prec emax (Zpos (digits2_pos mm) + e) - e) ->
  loc_of_shr_record (fst (shr_fexp prec emax (Zpos mm) e loc_Exact)) = loc_Exact.
Proof.
  intros Hn Ht. unfold shr_fexp, shr. simpl Zdigits2.
  destruct (fexp prec emax (Zpos (digits2_pos mm) + e) - e) as [|p|p] eqn:E; try lia.
  simpl fst.
  destruct (iter_shr_1_exact p (shr_record_of_loc (Zpos mm) loc_Exact) t) as (Hr & Hs);
    try reflexivity; [simpl; lia|exact Ht|].
  destruct (SpecFloat.iter_pos shr_1 p _) as [m' r' s']. simpl in Hr, Hs. now subst.
Qed.

(** The result of rounding an exact value [mm * 2^e] that needs no left shift
    does not exceed a bound [K * 2^k] of the value that lies on the grid of
    the result. *)
Lemma binary_round_aux_le (s : bool) (mm m' : positive) (e e' K k : Z) :
  e <= fexp prec emax (Zpos (digits2_pos mm) + e) ->
  fexp prec emax (Zpos (digits2_pos mm) + e) <= k ->
  Zpos mm <= K * 2 ^ (k - e) ->
  binary_round_aux prec emax s (Zpos mm) e loc_Exact = S754_finite s m' e' ->
  e <= e' /\ Zpos m' * 2 ^ (e' - e) <= K * 2 ^ (k - e).
Proof.
  intros Hle Hk Hv. unfold binary_round_aux.
  destruct (Z.eq_dec e (fexp prec emax (Zpos (digits2_pos mm) + e))) as [Heq|Hne].
  - (* no shift *)
    rewrite (shr_fexp_noshift mm e loc_Exact) by lia.
    rewrite loc_of_shr_record_of_loc, shr_record_of_loc_m. simpl round_nearest_even.
    rewrite (shr_fexp_noshift mm e loc_Exact) by lia.
    simpl shr_m. destruct (e <=? emax - prec); [|discriminate].
    intros Hr. injection Hr as <- <-. split; [lia|].
    now rewrite Z.sub_diag, Z.pow_0_r, Z.mul_1_r.
  - (* the low bits are shifted out *)
    assert (Hsh : e < fexp prec emax (Zpos (digits2_pos mm) + e)) by lia.
    pose proof (shr_fexp_exact_loc mm e) as Hex.
    destruct (shr_fexp_shift mm e loc_Exact Hsh) as (r1 & E1 & Hr1).
    rewrite E1 in Hex |- *. simpl fst in Hex.
    set (e1 := fexp prec emax (Zpos (digits2_pos mm) + e)) in *.
    set (n := e1 - e) in *.
    assert (Hn : 0 < n) by (unfold n; lia).
    assert (Hp : 0 < 2 ^ n) by (apply Z.pow_pos_nonneg; lia).
    assert (He1 : -1074 <= e1) by (unfold e1; rewrite fexp_eq; lia).
    (* the bound in units of [2^e1] *)
    assert (HK : K * 2 ^ (k - e) = K * 2 ^ (k - e1) * 2 ^ n).
    { rewrite <- Z.mul_assoc, <- Z.pow_add_r by lia. f_equal. f_equal. unfold n. lia. }
    set (K' := K * 2 ^ (k - e1)) in *.
    assert (Hq0 : shr_m r1 <= K').
    { rewrite Hr1. apply Z.div_le_upper_bound; [exact Hp|]. rewrite Z.mul_comm, <- HK.
      exact Hv. }
    assert (Hq0pos : 0 <= shr_m r1) by (rewrite Hr1; apply Z.div_pos; lia).
    assert (Hq : round_nearest_even (shr_m r1) (loc_of_shr_record r1) <= K').
    { destruct (round_nearest_even_cases (shr_m r1) (loc_of_shr_record r1)) as [->|Hup];
        [exact Hq0|].
      rewrite Hup.
      destruct (Z.eq_dec (shr_m r1) K') as [Hc|Hc]; [exfalso|lia].
      (* the value is the bound itself: the location is exact *)
      assert (Hm : Zpos mm = K' * 2 ^ n).
      { apply Z.le_antisymm; [rewrite <- HK; exact Hv|].
        rewrite <- Hc, Hr1, Z.mul_comm. apply Z.mul_div_le. exact Hp. }
      rewrite (Hex K' Hsh Hm) in Hup. simpl in Hup. lia. }
    destruct (round_nearest_even (shr_m r1) (loc_of_shr_record r1)) as [|q|q] eqn:Eq.
    + unfold shr_fexp, shr. simpl Zdigits2. rewrite fexp_eq.
      destruct (Z.max (0 + e1 - 53) (-1074) - e1) as [|p|p] eqn:E; try lia;
        simpl; discriminate.
    + destruct (Z.le_gt_cases (fexp prec emax (Zpos (digits2_pos q) + e1)) e1)
        as [Hns2|Hsh2].
      * rewrite (shr_fexp_noshift q e1 loc_Exact Hns2). simpl shr_m.
        destruct (e1 <=? emax - prec); [|discriminate].
        intros Hr. injection Hr as <- <-. split; [lia|].
        fold n. rewrite HK. apply Z.mul_le_mono_nonneg_r; lia.
      * destruct (shr_fexp_shift q e1 loc_Exact Hsh2) as (r2 & -> & Hr2).
        set (e2 := fexp prec emax (Zpos (digits2_pos q) + e1)) in *.
        destruct (shr_m r2) as [|q2|q2] eqn:Eq2; try discriminate.
        destruct (e2 <=? emax - prec); [|discriminate].
        intros Hr. injection Hr as <- <-. split; [lia|].
        assert (Hp2 : 0 < 2 ^ (e2 - e1)) by (apply Z.pow_pos_nonneg; lia).
        assert (Hq2 : Zpos q2 * 2 ^ (e2 - e1) <= Zpos q).
        { rewrite Hr2, Z.mul_comm. apply Z.mul_div_le. exact Hp2. }
        replace (e2 - e) with ((e2 - e1) + n) by (unfold n; lia).
        rewrite Z.pow_add_r, Z.mul_assoc, HK by lia.
        apply Z.mul_le_mono_nonneg_r; lia.
    + exfalso.
      destruct (round_nearest_even_cases (shr_m r1) (loc_of_shr_record r1)) as [Hc|Hc];
        rewrite Hc in Eq; lia.
Qed.

End Monotone.

Section Difference.
Local Open Scope Z_scope.

(** The same for an exact value at any exponent. *)
Lemma binary_round_le (s : bool) (mm m' : positive) (e e' K k : Z) :
  -1074 <= e -> e <= k ->
  fexp prec emax (Zpos (digits2_pos mm) + e) <= k ->
  Zpos mm <= K * 2 ^ (k - e) ->
  binary_round prec emax s mm e = S754_finite s m' e' ->
  Zpos m' * 2 ^ (e' + 1074) <= K * 2 ^ (k + 1074).
Proof.
  intros He Hek Hk Hv. unfold binary_round.
  pose proof (shl_align_value mm e (fexp prec emax (Zpos (digits2_pos mm) + e))) as Ha.
  destruct (shl_align mm e _) as [mz ez]. destruct Ha as (Hez & Hmz).
  set (d := Zpos (digits2_pos mm)) in *.
  assert (Hpd : 0 < d) by (unfold d; lia).
  assert (Hf : -1074 <= fexp prec emax (d + e)) by (rewrite fexp_eq; lia).
  assert (Hdz : Zpos (digits2_pos mz) = d + (e - ez)).
  { apply digits2_unique. rewrite Hmz.
    pose proof (digits2_bounds mm) as (Hl & Hu). fold d in Hl, Hu.
    assert (Hp : 0 < 2 ^ (e - ez)) by (apply Z.pow_pos_nonneg; lia).
    replace (d + (e - ez) - 1) with ((d - 1) + (e - ez)) by lia.
    rewrite !Z.pow_add_r by lia. nia. }
  intros Hr.
  destruct (binary_round_aux_le s mz m' ez e' K k) as (Hee & Hb); try exact Hr.
  - rewrite Hdz. replace (d + (e - ez) + ez) with (d + e) by lia. lia.
  - rewrite Hdz. replace (d + (e - ez) + ez) with (d + e) by lia. exact Hk.
  - rewrite Hmz. replace (k - ez) with ((k - e) + (e - ez)) by lia.
    rewrite Z.pow_add_r, Z.mul_assoc by lia.
    apply Z.mul_le_mono_nonneg_r; [apply Z.pow_nonneg; lia|exact Hv].
  - assert (Hz : -1074 <= ez) by lia.
    assert (Hzk : ez <= k) by lia.
    assert (Hp : 0 <= 2 ^ (ez + 1074)) by (apply Z.pow_nonneg; lia).
    assert (H1 : 2 ^ (e' + 1074) = 2 ^ (e' - ez) * 2 ^ (ez + 1074)).
    { rewrite <- Z.pow_add_r by lia. f_equal. lia. }
    assert (H2 : 2 ^ (k + 1074) = 2 ^ (k - ez) * 2 ^ (ez + 1074)).
    { rewrite <- Z.pow_add_r by lia. f_equal. lia. }
    rewrite H1, H2, !Z.mul_assoc.
    apply Z.mul_le_mono_nonneg_r; assumption.
Qed.

(** The difference of two positive finite numbers, the first one the larger,
    does not exceed the first one. *)
Lemma SFsub_le (mx my m' : positive) (ex ey e' : Z) :
  bounded prec emax mx ex = true -> bounded prec emax my ey = true ->
  SFcompare (S754_finite false mx ex) (S754_finite false my ey) = Some Gt ->
  SFsub prec emax (S754_finite false mx ex) (S754_finite false my ey)
  = S754_finite false m' e' ->
  Zpos m' * 2 ^ (e' + 1074) <= Zpos mx * 2 ^ (ex + 1074).
Proof.
  intros Hx Hy Hc.
  pose proof (bounded_spec _ _ Hx) as (Hcx & _).
  pose proof (bounded_spec _ _ Hy) as (Hcy & _).
  unfold SFsub. set (ez := Z.min ex ey).
  rewrite (shl_align_fst mx ex ez), (shl_align_fst my ey ez) by (unfold ez; lia).
  set (X := Zpos mx * 2 ^ (ex - ez)). set (Y := Zpos my * 2 ^ (ey - ez)).
  assert (HY : 0 < Y) by (unfold Y; apply Z.mul_pos_pos; [lia|apply Z.pow_pos_nonneg; lia]).
  assert (Hez : -1074 <= ez) by (unfold ez; lia).
  assert (Hlt : Y < X).
  { unfold X, Y, ez. rewrite Z.min_comm.
    apply canonical_lt; [exact Hy|exact Hx|].
    cbv beta iota delta [SFcompare] in Hc. rewrite compare_cont_Z in Hc.
    destruct (Z.compare_spec ex ey) as [->| |]; try discriminate; [|lia].
    right. split; [reflexivity|].
    destruct (Z.compare_spec (Zpos mx) (Zpos my)); try discriminate. lia. }
  simpl cond_Zopp.
  destruct (X - Y) as [|p|p] eqn:Ep; try lia.
  simpl binary_normalize. intros Hr.
  apply (binary_round_le false p m' ez e' (Zpos mx) ex); try assumption.
  - unfold ez. lia.
  - pose proof (digits2_bounds p) as (Hl & _).
    pose proof (digits2_bounds mx) as (_ & Hu).
    assert (Hp : 0 < 2 ^ (ex - ez)) by (apply Z.pow_pos_nonneg; unfold ez; lia).
    assert (HX : X < 2 ^ (Zpos (digits2_pos mx) + (ex - ez))).
    { unfold X. rewrite Z.pow_add_r by (unfold ez; lia). nia. }
    assert (Hd : 2 ^ (Zpos (digits2_pos p) - 1) < 2 ^ (Zpos (digits2_pos mx) + (ex - ez)))
      by lia.
    apply Z.pow_lt_mono_r_iff in Hd; [|lia|unfold ez; lia].
    rewrite fexp_eq. lia.
  - fold X. lia.
Qed.

(** Canonical numbers are ordered like their values. *)
Lemma canonical_leb (mx my : positive) (ex ey : Z) :
  bounded prec emax mx ex = true -> bounded prec emax my ey = true ->
  Zpos mx * 2 ^ (ex + 1074) <= Zpos my * 2 ^ (ey + 1074) ->
  SFleb (S754_finite false mx ex) (S754_finite false my ey) = true.
Proof.
  intros Hx Hy Hv. unfold SFleb. cbv beta iota delta [SFcompare].
  rewrite compare_cont_Z.
  pose proof (bounded_spec _ _ Hx) as (Hcx & _).
  pose proof (bounded_spec _ _ Hy) as (Hcy & _).
  assert (Hgt : ey < ex \/ (ey = ex /\ Zpos my < Zpos mx) -> False).
  { intros Hlt. pose proof (canonical_lt my mx ey ex Hy Hx Hlt) as Hc.
    set (z := Z.min ey ex) in *.
    assert (Hz : -1074 <= z) by (unfold z; lia).
    assert (Hp : 0 < 2 ^ (z + 1074)) by (apply Z.pow_pos_nonneg; lia).
    assert (H1 : Zpos my * 2 ^ (ey + 1074) = Zpos my * 2 ^ (ey - z) * 2 ^ (z + 1074)).
    { rewrite <- Z.mul_assoc, <- Z.pow_add_r by (unfold z; lia). f_equal. f_equal. lia. }
    assert (H2 : Zpos mx * 2 ^ (ex + 1074) = Zpos mx * 2 ^ (ex - z) * 2 ^ (z + 1074)).
    { rewrite <- Z.mul_assoc, <- Z.pow_add_r by (unfold z; lia). f_equal. f_equal. lia. }
    rewrite H1, H2 in Hv.
    apply Z.mul_le_mono_pos_r in Hv; [lia|exact Hp]. }
  destruct (Z.compare_spec ex ey) as [Heq| |]; try reflexivity.
  - destruct (Z.compare_spec (Zpos mx) (Zpos my)); try reflexivity.
    exfalso. apply Hgt. right. split; [now symmetry|lia].
  - exfalso. apply Hgt. left. lia.
Qed.

(** The sum of two positive finite numbers is positive. *)
Lemma SFadd_pos (mx my : positive) (ex ey : Z) :
  bounded prec emax mx ex = true -> bounded prec emax my ey = true ->
  (exists m' e', SFadd prec emax (S754_finite false mx ex) (S754_finite false my ey)
                 = S754_finite false m' e')
  \/ SFadd prec emax (S754_finite false mx ex) (S754_finite false my ey)
     = S754_infinity false.
Proof.
  intros Hx Hy.
  pose proof (bounded_spec _ _ Hx) as (Hcx & _).
  pose proof (bounded_spec _ _ Hy) as (Hcy & _).
  unfold SFadd. set (ez := Z.min ex ey).
  rewrite (shl_align_fst mx ex ez), (shl_align_fst my ey ez) by (unfold ez; lia).
  simpl cond_Zopp.
  assert (Hez : -1074 <= ez) by (unfold ez; lia).
  assert (HX : 0 < Zpos mx * 2 ^ (ex - ez))
    by (apply Z.mul_pos_pos; [lia|apply Z.pow_pos_nonneg; unfold ez; lia]).
  assert (HY : 0 < Zpos my * 2 ^ (ey - ez))
    by (apply Z.mul_pos_pos; [lia|apply Z.pow_pos_nonneg; unfold ez; lia]).
  destruct (Zpos mx * 2 ^ (ex - ez) + Zpos my * 2 ^ (ey - ez)) as [|p|p] eqn:Ep; try lia.
  simpl binary_normalize.
  destruct (binary_round_cases false p ez Hez) as [(m' & e' & E & _)|(E & _)];
    [left; eauto|right; exact E].
Qed.

End Difference.

(** * Sums and differences of positive numbers *)

Lemma leb_trans (a b c : float) :
  (a <=? b) = true -> (b <=? c) = true -> (a <=? c) = true.
Proof.
  rewrite !FloatAxioms.leb_spec. unfold SFleb.
  destruct (Prim2SF a) as [sa|sa| |sa ma ea], (Prim2SF b) as [sb|sb| |sb mb eb],
      (Prim2SF c) as [sc|sc| |sc mc ec];
    try destruct sa; try destruct sb; try destruct sc;
    cbv beta iota delta [SFcompare]; try discriminate; try reflexivity;
    rewrite ?compare_cont_Z; intros H1 H2; revert H1 H2;
    repeat match goal with
           | |- context [Z.compare ?a ?b] => destruct (Z.compare_spec a b)
           end; simpl; try discriminate; try reflexivity; intros _ _; exfalso; lia.
Qed.

(** A number that is not negative plus a positive finite number is positive. *)
Lemma add_nonneg_pos_fin (a b : float) :
  nonneg a -> pos_fin b -> (0 <? a + b) = true /\ is_zero (a + b) = false.
Proof.
  unfold nonneg. intros Ha (mb & eb & Eb).
  rewrite FloatAxioms.ltb_spec, is_zero_Prim2SF, add_spec, Prim2SF_zero, Eb.
  unfold SF64add.
  destruct (Prim2SF a) as [sa|sa| |sa ma ea] eqn:Ea; simpl in Ha; try tauto; subst sa;
    try (split; reflexivity).
  destruct (SFadd_pos ma mb ea eb (valid_finite _ _ _ _ Ea) (valid_finite _ _ _ _ Eb))
    as [(m' & e' & ->)| ->]; split; reflexivity.
Qed.

(** Taking a positive finite number off a larger finite one does not give more
    than the larger one. *)
Lemma sub_pos_fin_le (f s : float) :
  pos_fin f -> pos_fin s -> (f <? s) = true -> (s - f <=? s) = true.
Proof.
  intros (mf & ef & Ef) (ms & es & Es) Hlt.
  pose proof (Prim2SF_valid (s - f)) as Hv. revert Hv.
  rewrite FloatAxioms.leb_spec, sub_spec, Es, Ef. unfold SF64sub.
  rewrite FloatAxioms.ltb_spec, Ef, Es in Hlt. unfold SFltb in Hlt.
  assert (Hc : SFcompare (S754_finite false ms es) (S754_finite false mf ef) = Some Gt).
  { rewrite SFcompare_swap.
    destruct (SFcompare (S754_finite false mf ef) (S754_finite false ms es)) as [[]|];
      try discriminate. reflexivity. }
  pose proof (valid_finite _ _ _ _ Es) as Hbs.
  pose proof (valid_finite _ _ _ _ Ef) as Hbf.
  destruct (SFsub_finite_gt false false ms mf es ef Hbs Hbf Hc)
    as [(m' & e' & E)|(_ & [Hn|Hn])]; try discriminate.
  rewrite E. intros Hv.
  apply canonical_leb; [exact Hv|exact Hbs|].
  exact (SFsub_le ms mf m' es ef e' Hbs Hbf Hc E).
Qed.

(** * Products inside the unit interval *)

Section UnitProducts.
Local Open Scope Z_scope.

Lemma digits2_mul_le (a b : positive) :
  Zpos (digits2_pos (a * b)) <= Zpos (digits2_pos a) + Zpos (digits2_pos b).
Proof.
  pose proof (digits2_bounds a) as (_ & Ha).
  pose proof (digits2_bounds b) as (_ & Hb).
  pose proof (digits2_bounds (a * b)) as (Hab & _).
  rewrite Pos2Z.inj_mul in Hab.
  assert (Hp : Zpos a * Zpos b < 2 ^ Zpos (digits2_pos a) * 2 ^ Zpos (digits2_pos b)).
  { apply Z.mul_lt_mono_nonneg; lia. }
  rewrite <- Z.pow_add_r in Hp by lia.
  assert (Hlt : 2 ^ (Zpos (digits2_pos (a * b)) - 1)
                < 2 ^ (Zpos (digits2_pos a) + Zpos (digits2_pos b))) by lia.
  apply Z.pow_lt_mono_r_iff in Hlt; lia.
Qed.

Lemma digits2_le_54 (q : positive) : Zpos q <= 2 ^ 53 -> Zpos (digits2_pos q) <= 54.
Proof.
  intros Hq. pose proof (digits2_bounds q) as (Hl & _).
  assert (Hle : 2 ^ (Zpos (digits2_pos q) - 1) <= 2 ^ 53) by lia.
  apply Z.pow_le_mono_r_iff in Hle; lia.
Qed.

(** Rounding an exact value that needs no left shift and whose canonical
    exponent is below the largest one does not overflow. *)
Lemma binary_round_aux_no_overflow (s s' : bool) (mm : positive) (e : Z) :
  e <= fexp prec emax (Zpos (digits2_pos mm) + e) ->
  fexp prec emax (Zpos (digits2_pos mm) + e) <= 970 ->
  binary_round_aux prec emax s (Zpos mm) e loc_Exact <> S754_infinity s'.
Proof.
  intros Hle Hk. unfold binary_round_aux.
  destruct (Z.eq_dec e (fexp prec emax (Zpos (digits2_pos mm) + e))) as [Heq|Hne].
  - rewrite (shr_fexp_noshift mm e loc_Exact) by lia.
    rewrite loc_of_shr_record_of_loc, shr_record_of_loc_m. simpl round_nearest_even.
    rewrite (shr_fexp_noshift mm e loc_Exact) by lia.
    simpl shr_m. destruct (Z.leb_spec e (emax - prec)) as [_|Hov]; [discriminate|].
    change (emax - prec) with 971 in Hov. lia.
  - assert (Hsh : e < fexp prec emax (Zpos (digits2_pos mm) + e)) by lia.
    destruct (shr_fexp_shift mm e loc_Exact Hsh) as (r1 & -> & Hr1).
    set (d := Zpos (digits2_pos mm)) in *.
    set (e1 := fexp prec emax (d + e)) in *.
    set (n := e1 - e) in *.
    assert (Hn : 0 < n) by (unfold n; lia).
    assert (Hdn : d <= n + 53) by (unfold n, e1; rewrite fexp_eq; lia).
    assert (Hp : 0 < 2 ^ n) by (apply Z.pow_pos_nonneg; lia).
    pose proof (digits2_bounds mm) as (_ & Hu). fold d in Hu.
    assert (Hq0 : 0 <= shr_m r1 < 2 ^ 53).
    { rewrite Hr1. split; [apply Z.div_pos; lia|].
      apply Z.div_lt_upper_bound; [exact Hp|].
      rewrite <- Z.pow_add_r by lia.
      assert (2 ^ d <= 2 ^ (n + 53)) by (apply Z.pow_le_mono_r; lia). lia. }
    assert (Hq : round_nearest_even (shr_m r1) (loc_of_shr_record r1) <= 2 ^ 53).
    { destruct (round_nearest_even_cases (shr_m r1) (loc_of_shr_record r1)) as [Hr|Hr];
        rewrite Hr; lia. }
    destruct (round_nearest_even (shr_m r1) (loc_of_shr_record r1)) as [|q|q] eqn:Eq.
    + unfold shr_fexp, shr. simpl Zdigits2. rewrite fexp_eq.
      assert (He1 : -1074 <= e1) by (unfold e1; rewrite fexp_eq; lia).
      destruct (Z.max (0 + e1 - 53) (-1074) - e1) as [|p|p] eqn:E;
        first [exfalso; lia|simpl; discriminate].
    + assert (Hdq : Zpos (digits2_pos q) <= 54) by (apply digits2_le_54; exact Hq).
      assert (He1 : e1 <= 970) by (unfold e1; exact Hk).
      destruct (Z.le_gt_cases (fexp prec emax (Zpos (digits2_pos q) + e1)) e1)
        as [Hns2|Hsh2].
      * rewrite (shr_fexp_noshift q e1 loc_Exact Hns2). simpl shr_m.
        destruct (Z.leb_spec e1 (emax - prec)) as [_|Hov]; [discriminate|].
        change (emax - prec) with 971 in Hov. lia.
      * destruct (shr_fexp_shift q e1 loc_Exact Hsh2) as (r2 & -> & Hr2).
        set (e2 := fexp prec emax (Zpos (digits2_pos q) + e1)) in *.
        assert (He2 : e2 <= 971) by (unfold e2; rewrite fexp_eq; lia).
        destruct (shr_m r2) as [|q2|q2] eqn:Eq2; try discriminate.
        destruct (Z.leb_spec e2 (emax - prec)) as [_|Hov]; [discriminate|].
        change (emax - prec) with 971 in Hov. lia.
    + exfalso.
      destruct (round_nearest_even_cases (shr_m r1) (loc_of_shr_record r1)) as [Hc|Hc];
        rewrite Hc in Eq; lia.
Qed.

(** The product of two positive numbers of binary64 that do not exceed one is
    zero (on underflow) or a positive number that does not exceed one. *)
Lemma SFmul_unit (mx my : positive) (ex ey : Z) :
  bounded prec emax mx ex = true -> bounded prec emax my ey = true ->
  Zpos mx * 2 ^ (ex + 1074) <= 2 ^ 1074 ->
  Zpos my * 2 ^ (ey + 1074) <= 2 ^ 1074 ->
  SFmul prec emax (S754_finite false mx ex) (S754_finite false my ey) = S754_zero false
  \/ exists m' e',
       SFmul prec emax (S754_finite false mx ex) (S754_finite false my ey)
       = S754_finite false m' e'
       /\ (-1074 <= e' -> Zpos m' * 2 ^ (e' + 1074) <= 2 ^ 1074).
Proof.
  intros Hx Hy Vx Vy.
  pose proof (bounded_spec _ _ Hx) as (Hcx & _).
  pose proof (bounded_spec _ _ Hy) as (Hcy & _).
  pose proof (digits2_bounds mx) as (Hlx & _).
  pose proof (digits2_bounds my) as (Hly & _).
  set (dx := Zpos (digits2_pos mx)) in *. set (dy := Zpos (digits2_pos my)) in *.
  assert (Hdx0 : 0 < dx) by (unfold dx; lia).
  assert (Hdy0 : 0 < dy) by (unfold dy; lia).
  (* the binary magnitudes are at most one *)
  assert (Hmag : forall m d e, 0 < d -> -1074 <= e -> 2 ^ (d - 1) <= m ->
                   m * 2 ^ (e + 1074) <= 2 ^ 1074 -> d + e <= 1).
  { intros m d e Hd He Hl Hv.
    assert (Hp : 0 <= 2 ^ (e + 1074)) by (apply Z.pow_nonneg; lia).
    assert (Hle : 2 ^ (d - 1) * 2 ^ (e + 1074) <= 2 ^ 1074)
      by (eapply Z.le_trans; [apply Z.mul_le_mono_nonneg_r; eassumption|exact Hv]).
    rewrite <- Z.pow_add_r in Hle by lia.
    apply Z.pow_le_mono_r_iff in Hle; lia. }
  assert (Hmx : dx + ex <= 1) by (apply (Hmag (Zpos mx)); try assumption; lia).
  assert (Hmy : dy + ey <= 1) by (apply (Hmag (Zpos my)); try assumption; lia).
  (* the significands are at most [2^-e] *)
  assert (Hsig : forall m e, -1074 <= e <= 0 -> m * 2 ^ (e + 1074) <= 2 ^ 1074 ->
                   m <= 2 ^ (- e)).
  { intros m e He Hv.
    assert (Hp : 0 < 2 ^ (e + 1074)) by (apply Z.pow_pos_nonneg; lia).
    assert (H1 : 2 ^ 1074 = 2 ^ (- e) * 2 ^ (e + 1074)).
    { rewrite <- Z.pow_add_r by lia. f_equal. lia. }
    rewrite H1 in Hv. apply Z.mul_le_mono_pos_r in Hv; assumption. }
  assert (Hsx : Zpos mx <= 2 ^ (- ex)) by (apply Hsig; [lia|exact Vx]).
  assert (Hsy : Zpos my <= 2 ^ (- ey)) by (apply Hsig; [lia|exact Vy]).
  pose proof (digits2_mul_ge mx my) as Hdl. pose proof (digits2_mul_le mx my) as Hdu.
  fold dx dy in Hdl, Hdu.
  set (d := Zpos (digits2_pos (mx * my))) in *.
  assert (H1 : ex + ey <= fexp prec emax (d + (ex + ey))) by (rewrite fexp_eq; lia).
  assert (H2 : fexp prec emax (d + (ex + ey)) <= 0) by (rewrite fexp_eq; lia).
  assert (H3 : Zpos (mx * my) <= 1 * 2 ^ (0 - (ex + ey))).
  { rewrite Pos2Z.inj_mul, Z.mul_1_l.
    replace (0 - (ex + ey)) with (- ex + - ey) by lia.
    rewrite Z.pow_add_r by lia. apply Z.mul_le_mono_nonneg; lia. }
  pose proof (SFmul_signed false false mx my ex ey) as Hs.
  pose proof (binary_round_aux_no_overflow false false (mx * my) (ex + ey) H1
                ltac:(fold d; lia)) as Hni.
  unfold SFmul in *. change (xorb false false) with false in *.
  destruct (binary_round_aux prec emax false (Zpos (mx * my)) (ex + ey) loc_Exact)
    as [sr|sr| |sr mr er] eqn:Er; simpl in Hs; try tauto; subst sr.
  - now left.
  - congruence.
  - right. exists mr, er. split; [reflexivity|]. intros Her.
    destruct (binary_round_aux_le false (mx * my) mr (ex + ey) er 1 0 H1 H2 H3 Er)
      as (Hee & Hb).
    rewrite Z.mul_1_l in Hb.
    set (e := ex + ey) in *.
    destruct (Z.le_gt_cases e (-1074)) as [Hsmall|Hbig].
    + assert (Hp : 0 < 2 ^ (- e - 1074)) by (apply Z.pow_pos_nonneg; lia).
      assert (E1 : 2 ^ (er - e) = 2 ^ (er + 1074) * 2 ^ (- e - 1074)).
      { rewrite <- Z.pow_add_r by lia. f_equal. lia. }
      assert (E2 : 2 ^ (0 - e) = 2 ^ 1074 * 2 ^ (- e - 1074)).
      { rewrite <- Z.pow_add_r by lia. f_equal. lia. }
      rewrite E1, E2, Z.mul_assoc in Hb.
      apply Z.mul_le_mono_pos_r in Hb; assumption.
    + assert (Hp : 0 <= 2 ^ (e + 1074)) by (apply Z.pow_nonneg; lia).
      assert (E1 : 2 ^ (er + 1074) = 2 ^ (er - e) * 2 ^ (e + 1074)).
      { rewrite <- Z.pow_add_r by lia. f_equal. lia. }
      assert (E2 : 2 ^ 1074 = 2 ^ (0 - e) * 2 ^ (e + 1074)).
      { rewrite <- Z.pow_add_r by lia. f_equal. lia. }
      rewrite E1, E2, Z.mul_assoc.
      apply Z.mul_le_mono_nonneg_r; assumption.
Qed.

End UnitProducts.

Lemma unit_cases (a : float) :
  (0 <=? a) = true -> (a <=? 1) = true ->
  (exists s, Prim2SF a = S754_zero s)
  \/ exists m e, Prim2SF a = S754_finite false m e
                 /\ (Zpos m * 2 ^ (e + 1074) <= 2 ^ 1074)%Z.
Proof.
  rewrite !FloatAxioms.leb_spec, Prim2SF_one.
  change (Prim2SF 0) with (S754_zero false).
  destruct (Prim2SF a) as [s|s| |s m e] eqn:Ea; try discriminate.
  - intros _ _. left. now exists s.
  - destruct s; discriminate.
  - destruct s; [discriminate|]. intros _ Hle. right. exists m, e.
    split; [reflexivity|].
    now apply SFleb_one_r; [exact (valid_finite _ _ _ _ Ea)|].
Qed.

(** The product of two numbers between zero and one lies between zero and
    one. *)
Lemma mul_unit (a b : float) :
  (0 <=? a) = true -> (a <=? 1) = true ->
  (0 <=? b) = true -> (b <=? 1) = true ->
  (0 <=? a * b) = true /\ (a * b <=? 1) = true.
Proof.
  intros Ha0 Ha1 Hb0 Hb1.
  pose proof (Prim2SF_valid (a * b)) as Hv. revert Hv.
  rewrite !FloatAxioms.leb_spec, mul_spec, Prim2SF_one.
  change (Prim2SF 0) with (S754_zero false). unfold SF64mul.
  destruct (unit_cases a Ha0 Ha1) as [(sa & ->)|(ma & ea & Ea & Va)];
    destruct (unit_cases b Hb0 Hb1) as [(sb & ->)|(mb & eb & Eb & Vb)].
  - intros _. now destruct sa, sb.
  - rewrite Eb. intros _. now destruct sa.
  - rewrite Ea. intros _. now destruct sb.
  - pose proof (valid_finite _ _ _ _ Ea) as Hba.
    pose proof (valid_finite _ _ _ _ Eb) as Hbb.
    rewrite Ea, Eb.
    destruct (SFmul_unit ma mb ea eb Hba Hbb Va Vb) as [->|(m' & e' & -> & Hle)].
    + intros _. split; reflexivity.
    + intros Hv. split; [reflexivity|].
      apply SFleb_one_r; [exact Hv|]. apply Hle.
      apply bounded_spec in Hv. destruct Hv as (Hc & _).
      lia.
Qed.

(** The reference runtime's [**] keeps fourth powers inside the unit interval. *)
Lemma ref_pow_unit (c r : float) :
  (0 <=? c) = true -> (c <=? 1) = true -> ref_pow c 4 = Ok r ->
  (0 <=? r) = true /\ (r <=? 1) = true.
Proof.
  intros H0 H1. unfold ref_pow.
  change (4 =? 2) with false. change (4 =? 4) with true. cbv iota.
  destruct (mul_unit c c H0 H1 H0 H1) as (S0 & S1).
  destruct (mul_unit _ _ S0 S1 S0 S1) as (Q0 & Q1).
  destruct (is_finite c && is_infinity (c * c * (c * c))); [discriminate|].
  intros Hr. injection Hr as <-. auto.
Qed.

(** * [_as_float]: what it skips and what escapes it *)

(** When every candidate key is missing, null, a list, a dictionary or a
    string that [float] rejects, [_as_float] returns the default. *)
Theorem _as_float_all_passed_over `{PyRuntime} (values : gmap string pyval)
    (keys : list string) (default : option float) :
  (forall key, In key keys -> passed_over (values !! key) = true) ->
  _as_float values keys default = Ok default.
Proof.
  induction keys as [|key keys IH]; intros Hk; [reflexivity|].
  assert (Hrec : _as_float values keys default = Ok default)
    by (apply IH; intros k Hin; apply Hk; now right).
  pose proof (Hk key (or_introl eq_refl)) as Hv.
  simpl. destruct (values !! key) as [v|]; [|exact Hrec].
  destruct v as [|b|z|f|s|l|d]; simpl in Hv |- *; try discriminate; try exact Hrec.
  destruct (str_to_float s); [discriminate|exact Hrec].
Qed.

(** The only exception that leaves [_as_float] is the [OverflowError] of an
    integer candidate that is beyond the range of binary64. *)
Theorem _as_float_raises_only_overflow `{PyRuntime} (values : gmap string pyval)
    (keys : list string) (default : option float) (e : exn) :
  _as_float values keys default = Raise e ->
  e = OverflowError
  /\ exists key z, In key keys /\ values !! key = Some (VInt z)
                   /\ float_of_int z = Raise OverflowError.
Proof.
  induction keys as [|key keys IH]; simpl; [discriminate|].
  assert (Hrec : _as_float values keys default = Raise e ->
                 e = OverflowError
                 /\ exists key' z, (key = key' \/ In key' keys)
                                   /\ values !! key' = Some (VInt z)
                                   /\ float_of_int z = Raise OverflowError).
  { intros Hr. destruct (IH Hr) as (He & k & z & Hin & Hv & Hz).
    split; [exact He|]. exists k, z. auto. }
  destruct (values !! key) as [v|] eqn:Ev; [|exact Hrec].
  destruct (is_none v); [exact Hrec|].
  destruct (py_float v) as [x|e'] eqn:Ef; [discriminate|].
  destruct (py_float_raises v e' Ef) as [->|[->|(z & -> & Hz)]]; try exact Hrec.
  pose proof (float_of_int_raises z e' Hz) as ->.
  intros Hr. inversion Hr; subst e. split; [reflexivity|].
  exists key, z. auto.
Qed.

(** * [_sensor_pixels]: guarded divisions and square pixels *)

(** [_sensor_pixels] never raises: it divides by a pixel pitch only when the
    pitch is positive. *)
Theorem _sensor_pixels_returns (w h : float) (pw ph : option float) :
  returns (_sensor_pixels w h pw ph) = true.
Proof.
  unfold _sensor_pixels.
  destruct ((or_else pw 0 / 1000 <=? 0) && (or_else ph 0 / 1000 <=? 0)); [reflexivity|].
  match goal with
  | |- context [if 0 <? ?p then py_div w ?p else Ok 0] =>
      destruct (0 <? p) eqn:Ew; [rewrite (py_div_pos w p Ew)|]
  end;
  match goal with
  | |- context [if 0 <? ?p then py_div h ?p else Ok 0] =>
      destruct (0 <? p) eqn:Eh; [rewrite (py_div_pos h p Eh)|]
  end; reflexivity.
Qed.

(** When the pitch along the width is positive and the pitch along the height
    is missing or not positive, both pixel counts use the pitch along the
    width; and the other way round. *)
Theorem _sensor_pixels_square (w h : float) (pw ph : option float) :
  let px_w_mm := or_else pw 0 / 1000 in
  let px_h_mm := or_else ph 0 / 1000 in
  ((0 <? px_w_mm) = true -> (px_h_mm <=? 0) = true ->
   _sensor_pixels w h pw ph = Ok (w / px_w_mm, h / px_w_mm))
  /\ ((0 <? px_h_mm) = true -> (px_w_mm <=? 0) = true ->
      _sensor_pixels w h pw ph = Ok (w / px_h_mm, h / px_h_mm))
  /\ ((0 <? px_w_mm) = true -> (0 <? px_h_mm) = true ->
      _sensor_pixels w h pw ph = Ok (w / px_w_mm, h / px_h_mm))
  /\ ((px_w_mm <=? 0) = true -> (px_h_mm <=? 0) = true ->
      _sensor_pixels w h pw ph = Ok (0, 0)).
Proof.
  intros a b. unfold _sensor_pixels. fold a b.
  assert (Hnp : forall u, (0 <? u) = true -> (u <=? 0) = false).
  { intros u Hu. destruct (u <=? 0) eqn:E; [|reflexivity].
    apply leb_nltb in E. congruence. }
  repeat split.
  - intros Ha Hb. rewrite (Hnp a Ha), Hb. simpl.
    rewrite (ltb_leb _ _ Ha). simpl. rewrite Ha.
    rewrite !(py_div_pos _ a Ha). reflexivity.
  - intros Hb Ha. rewrite Ha, (Hnp b Hb). simpl.
    rewrite (ltb_leb _ _ Hb). simpl. rewrite Hb.
    rewrite !(py_div_pos _ b Hb). reflexivity.
  - intros Ha Hb. rewrite (Hnp a Ha), (Hnp b Hb). simpl. rewrite Ha, Hb.
    rewrite (py_div_pos _ a Ha), (py_div_pos _ b Hb). reflexivity.
  - intros Ha Hb. rewrite Ha, Hb. reflexivity.
Qed.

(** * An object at or inside the focal length *)

Section Unfocused.
Context `{PyRuntime}.

Lemma actual_vs_target_unbounded (t : option float) :
  actual_vs_target t infinity = Ok nan.
Proof.
  destruct t as [t|]; [|reflexivity]. unfold actual_vs_target.
  change (is_finite infinity) with false.
  now rewrite andb_false_r.
Qed.

Lemma pixels_per_mm_unbounded (p q : float) :
  (if (0 <? infinity) && (0 <? p) then py_div p infinity else Ok 0) = Ok q ->
  (0 <? q) = false.
Proof.
  destruct ((0 <? infinity) && (0 <? p)); intros Hq.
  - unfold py_div in Hq. change (is_zero infinity) with false in Hq. inv_Ok Hq.
    apply div_inf_not_pos.
  - now inv_Ok Hq.
Qed.

End Unfocused.

(** When the working distance does not exceed the focal length (both are 0
    when they are missing), a run that returns reports an unbounded field:
    image distance, magnification percentage, field width, height and area and
    the size of a pixel on the object are +infinity, the comparisons with the
    target field are NaN, the crossing lasts for ever and the frame counts
    are 0. *)
Theorem inside_focal_length_unbounded_field `{PyRuntime}
    (params : gmap string pyval) (x : locals) :
  calculate_locals params = Ok x ->
  (working_distance_mm (lens x) <=? f_mm (lens x)) = true ->
  di_mm (lens x) = infinity
  /\ field "lens_geometry" "magnification_percent" (result_of x) = Some (OFloat infinity)
  /\ fov_w_mm (fov x) = infinity
  /\ fov_h_mm (fov x) = infinity
  /\ fov_area_mm2 (fov x) = infinity
  /\ mm_per_pixel_x (fov x) = infinity
  /\ mm_per_pixel_y (fov x) = infinity
  /\ fov_width_actual_vs_target_percent (fov x) = nan
  /\ fov_height_actual_vs_target_percent (fov x) = nan
  /\ duration_s (appearances x) = infinity
  /\ expected_frames (appearances x) = infinity
  /\ frames_min (appearances x) = 0%Z
  /\ frames_max (appearances x) = 0%Z.
Proof.
  intros Hc Hle. apply calculate_locals_inv in Hc.
  destruct Hc as (_ & Hl & Hv & _ & _ & _ & _ & _ & Ha & _).
  apply lens_stage_geometry in Hl. destruct Hl as (Hg & _).
  unfold _lens_geometry in Hg. rewrite Hle in Hg. injection Hg as Hdi Hm.
  apply fov_stage_inv in Hv.
  destruct Hv as (Hwh & _ & Harea & Hpx & Hpy & Hmx & Hmy & tw & th & _ & _ & Htw & Hth).
  rewrite <- Hm in Hwh. change (is_finite infinity && (0 <? infinity)) with false in Hwh.
  injection Hwh as Hw Hh. rewrite <- Hw in *. rewrite <- Hh in *.
  rewrite actual_vs_target_unbounded in Htw, Hth. inv_Ok Htw. inv_Ok Hth.
  rewrite (pixels_per_mm_unbounded _ _ Hpx) in Hmx. inv_Ok Hmx.
  rewrite (pixels_per_mm_unbounded _ _ Hpy) in Hmy. inv_Ok Hmy.
  apply appearance_stage_inv in Ha.
  destruct Ha as (_ & Hext & Hdur & Hexp & Hmin & Hmax & _).
  assert (He : traversal_extent_mm (appearances x) = infinity).
  { rewrite Hext, <- Hw, <- Hh. now destruct (String.eqb _ _). }
  rewrite He in Hdur. change (is_finite infinity) with false in Hdur.
  rewrite andb_false_r in Hdur. inv_Ok Hdur.
  rewrite <- Hdur in Hexp. change (is_finite infinity) with false in Hexp.
  rewrite andb_false_r in Hexp.
  rewrite Hexp in Hmin, Hmax. change (is_finite infinity) with false in Hmin, Hmax.
  repeat split; auto.
  unfold field. simpl. rewrite <- Hm. reflexivity.
Qed.

(** * An object at rest *)

Section AtRest.
Context `{PyRuntime}.

Lemma pixels_per_mm_sign (fw p q : float) :
  (if (0 <? fw) && (0 <? p) then py_div p fw else Ok 0) = Ok q ->
  nonneg q \/ is_nan q = true.
Proof.
  destruct (0 <? fw) eqn:Ef; [destruct (0 <? p) eqn:Ep|]; simpl; intros Hq.
  - rewrite (py_div_pos _ _ Ef) in Hq. inv_Ok Hq. now apply div_pos_pos.
  - inv_Ok Hq. left. exact (eq_refl : signed false (Prim2SF 0)).
  - inv_Ok Hq. left. exact (eq_refl : signed false (Prim2SF 0)).
Qed.

End AtRest.

(** When the object speed is missing, zero or negative, a run that returns
    reports +infinity for both exposure bounds of the motion blur, so the
    recommended exposure is the frame period; the crossing lasts for ever, the
    frame counts are 0 and the exposure is not flagged as limited by the
    frame. *)
Theorem object_at_rest_exposure `{PyRuntime} (params : gmap string pyval) (x : locals) :
  calculate_locals params = Ok x ->
  (object_speed_mm_s (motion x) <=? 0) = true ->
  max_exposure_us_motion (motion x) = infinity
  /\ max_exposure_us_motion_1px (motion x) = infinity
  /\ recommended_exposure_us (motion x) = frame_period_us (motion x)
  /\ field "motion_exposure" "recommended_exposure_us" (result_of x)
     = Some (OFloat (frame_period_us (motion x)))
  /\ duration_s (appearances x) = infinity
  /\ frames_min (appearances x) = 0%Z
  /\ frames_max (appearances x) = 0%Z
  /\ exposure_limited_by_frame (flags x) = false.
Proof.
  intros Hc Hle. apply calculate_locals_inv in Hc.
  destruct Hc as (_ & _ & Hv & He & _ & _ & _ & _ & Ha & Hf).
  apply fov_stage_inv in Hv. destruct Hv as (_ & _ & _ & Hpx & Hpy & _).
  apply motion_stage_inv in He.
  destruct He as (fps & blur & speed & _ & _ & _ & _ & Hfp & _ & _ & _ & Hax & Hsp
                  & Hb & Hfr & H1 & Hrec).
  assert (Hnp : (0 <? object_speed_px_s (motion x)) = false).
  { rewrite Hsp. apply mul_nonpos_nonneg; [exact Hle|]. rewrite Hax.
    destruct (String.eqb _ _);
      [exact (pixels_per_mm_sign _ _ _ Hpy)|exact (pixels_per_mm_sign _ _ _ Hpx)]. }
  unfold blur_bound in Hb. rewrite Hnp, Hle in Hb. simpl in Hb. inv_Ok Hb.
  unfold one_pixel_bound in H1. rewrite Hnp in H1. inv_Ok H1.
  assert (Hr : recommended_exposure_us (motion x) = frame_period_us (motion x)).
  { rewrite Hrec, <- H1, Hfr. apply py_min_inf_l.
    exact (frame_period_nonneg _ _ Hfp). }
  apply appearance_stage_inv in Ha.
  destruct Ha as (_ & _ & Hdur & Hexp & Hmin & Hmax & _).
  assert (Hs : (0 <? object_speed_mm_s (motion x)) = false)
    by (now apply leb_nltb).
  rewrite Hs in Hdur. simpl in Hdur. inv_Ok Hdur.
  rewrite <- Hdur in Hexp. change (is_finite infinity) with false in Hexp.
  rewrite andb_false_r in Hexp.
  rewrite Hexp in Hmin, Hmax. change (is_finite infinity) with false in Hmin, Hmax.
  repeat split; auto.
  - unfold field. simpl. now rewrite Hr.
  - rewrite Hf. unfold flag_stage. simpl. rewrite <- Hb.
    change (is_finite infinity) with false. now rewrite andb_false_r.
Qed.

(** * Where a run can stop *)

Section Sources.
Context `{PyRuntime}.

Lemma _as_float_single_raises (params : gmap string pyval) (key : string)
    (d : option float) (e : exn) :
  _as_float params [key] d = Raise e ->
  e = OverflowError
  /\ exists z, params !! key = Some (VInt z) /\ float_of_int z = Raise OverflowError.
Proof.
  simpl. destruct (params !! key) as [v|]; [|discriminate].
  destruct (is_none v); [discriminate|].
  destruct (py_float v) as [x|e'] eqn:Ef; [discriminate|].
  destruct (py_float_raises v e' Ef) as [->|[->|(z & -> & Hz)]]; try discriminate.
  pose proof (float_of_int_raises z e' Hz) as ->.
  intros Hr. inversion Hr; subst e. eauto.
Qed.

Lemma py_div_raises (a b : float) (e : exn) :
  py_div a b = Raise e -> e = ZeroDivisionError.
Proof. unfold py_div. destruct (is_zero b); [congruence|discriminate]. Qed.

Lemma _lens_geometry_raises (f d : float) (e : exn) :
  _lens_geometry f d = Raise e -> e = ZeroDivisionError.
Proof.
  unfold _lens_geometry. destruct (d <=? f); [discriminate|].
  destruct (py_div (f * d) (d - f)) as [di|e1] eqn:E1; cbn [bind];
    [|intros Hr; inversion Hr; subst; exact (py_div_raises _ _ _ E1)].
  destruct (py_div di d) as [q|e2] eqn:E2; cbn [bind];
    [discriminate|intros Hr; inversion Hr; subst; exact (py_div_raises _ _ _ E2)].
Qed.

Lemma _dof_hyperfocal_raises (f n c s : float) (e : exn) :
  _dof_hyperfocal f n c s = Raise e -> e = ZeroDivisionError.
Proof.
  unfold _dof_hyperfocal.
  destruct (py_div (f * f) (n * py_max c 1e-12)) as [h0|e1] eqn:E1; cbn [bind];
    [|intros Hr; inversion Hr; subst; exact (py_div_raises _ _ _ E1)].
  destruct (py_div ((h0 + f) * s) (h0 + f + (s - f))) as [dn|e2] eqn:E2; cbn [bind];
    [|intros Hr; inversion Hr; subst; exact (py_div_raises _ _ _ E2)].
  destruct (h0 + f <=? s); [discriminate|].
  destruct (py_div ((h0 + f) * s) (h0 + f - (s - f))) as [df|e3] eqn:E3; cbn [bind];
    [discriminate|intros Hr; inversion Hr; subst; exact (py_div_raises _ _ _ E3)].
Qed.

End Sources.

Section Cases.
Context `{PyRuntime}.

(** Where an exception of [calculate] comes from, stage by stage. *)
Lemma calculate_raises_cases (params : gmap string pyval) (e : exn) :
  calculate params = Raise e ->
  (e = OverflowError
   /\ exists key z, params !! key = Some (VInt z) /\ float_of_int z = Raise OverflowError)
  \/ exists s, sensor_stage params = Ok s /\
     ((e = ZeroDivisionError /\ lens_stage params = Raise e
       /\ exists f wd,
            _as_float params ["lens_focal_length_mm"] (Some 0) = Ok f
            /\ _as_float params ["working_distance_mm"] (Some 0) = Ok wd
            /\ _lens_geometry (or_else f 0) (or_else wd 0) = Raise e)
      \/ exists l v m,
           lens_stage params = Ok l /\ fov_stage params s l = Ok v
           /\ motion_stage params v = Ok m /\
         ((e = ZeroDivisionError /\ dof_stage s l = Raise e
           /\ exists c, (0 <? c) = true
                /\ _dof_hyperfocal (f_mm l) (f_stop l) c (working_distance_mm l) = Raise e)
          \/ exists dof d,
               dof_stage s l = Ok dof /\ diffraction_stage s l = Ok d /\
             ((coverage_stage s l v = Raise e
               /\ float_pow (or_else (sensor_diag_mm s) 0 / lens_diag_mm l) 2 = Raise e)
              \/ exists c lri,
                   coverage_stage s l v = Ok c
                   /\ _as_float params ["lens_relative_illumination"] None = Ok lri
                   /\ illumination_stage params s l = Raise e
                   /\ let sd := or_else (sensor_diag_mm s) 0 in
                      let di := di_mm l in
                      ((lri = None /\ is_finite di && (0 <? di) = true
                        /\ float_pow (1 / sqrt (1 + 0.5 * sd / di * (0.5 * sd / di))) 4
                           = Raise e)
                       \/ exists r,
                            corner_ratio_of sd di lri = Ok r /\ (0 <? r) = true
                            /\ math_log2 (1 / py_max r 1e-9) = Raise e)))).
Proof.
  assert (Hread : (exists key d, _as_float params [key] d = Raise e) ->
                  e = OverflowError
                  /\ exists key z, params !! key = Some (VInt z)
                                   /\ float_of_int z = Raise OverflowError).
  { intros (key & d & Hr). apply _as_float_single_raises in Hr.
    destruct Hr as (He & z & Hz). eauto. }
  unfold calculate, calculate_locals.
  destruct (sensor_stage params) as [s|e1] eqn:Es; cbn [bind].
  2:{ intros Hr; inversion Hr; subst. left. apply Hread.
      exact (sensor_stage_raises _ _ Es). }
  destruct (lens_stage params) as [l|e1] eqn:El; cbn [bind].
  2:{ intros Hr; inversion Hr; subst.
      destruct (lens_stage_raises _ _ El) as [Hk|(f & wd & Hf & Hwd & Hg)];
        [left; auto|].
      right. exists s. split; [first [reflexivity|assumption]|]. left.
      split; [exact (_lens_geometry_raises _ _ _ Hg)|]. split; [first [reflexivity|assumption]|]. eauto. }
  destruct (fov_stage params s l) as [v|e1] eqn:Ev; cbn [bind].
  2:{ intros Hr; inversion Hr; subst. left. apply Hread.
      exact (fov_stage_raises _ _ _ _ Ev). }
  destruct (motion_stage params v) as [m|e1] eqn:Em; cbn [bind].
  2:{ intros Hr; inversion Hr; subst. left. apply Hread.
      exact (motion_stage_raises _ _ _ Em). }
  destruct (dof_stage s l) as [dof|e1] eqn:Ed; cbn [bind].
  2:{ intros Hr; inversion Hr; subst.
      destruct (dof_stage_raises _ _ _ Ed) as (c & Hc & Hd).
      right. exists s. split; [first [reflexivity|assumption]|]. right. exists l, v, m.
      do 3 (split; [first [reflexivity|assumption]|]). left.
      split; [exact (_dof_hyperfocal_raises _ _ _ _ _ Hd)|]. split; [first [reflexivity|assumption]|].
      eauto. }
  destruct (diffraction_stage_total s l) as (d & Edd). rewrite Edd. cbn [bind].
  destruct (coverage_stage s l v) as [c|e1] eqn:Ec; cbn [bind].
  2:{ intros Hr; inversion Hr; subst.
      right. exists s. split; [first [reflexivity|assumption]|]. right. exists l, v, m.
      do 3 (split; [first [reflexivity|assumption]|]). right. exists dof, d.
      do 2 (split; [first [reflexivity|assumption]|]). left.
      split; [first [reflexivity|assumption]|exact (coverage_stage_raises _ _ _ _ Ec)]. }
  destruct (illumination_stage params s l) as [i|e1] eqn:Ei; cbn [bind].
  2:{ intros Hr; inversion Hr; subst.
      destruct (illumination_stage_raises _ _ _ _ Ei) as [Hk|(lri & Hl & Hm)];
        [left; auto|].
      right. exists s. split; [first [reflexivity|assumption]|]. right. exists l, v, m.
      do 3 (split; [first [reflexivity|assumption]|]). right. exists dof, d.
      do 2 (split; [first [reflexivity|assumption]|]). right. exists c, lri.
      do 3 (split; [first [reflexivity|assumption]|]).
      exact (_illumination_metrics_raises _ _ _ _ Hm). }
  destruct (appearance_stage_total v m) as (a & ->). cbn [bind]. discriminate.
Qed.

End Cases.

(** An exception of [calculate] is one of five.  (1) The [OverflowError] of an
    integer input beyond the range of binary64.  (2) With the sensor stage
    done, the [ZeroDivisionError] of [_lens_geometry] at the focal length and
    the working distance read.  (3) With the sensor, lens, field-of-view and
    motion stages done, the [ZeroDivisionError] of [_dof_hyperfocal] at the
    run's focal length, f-number and working distance and a positive circle
    of confusion.  (4) With the depth of field and the diffraction metrics
    computed as well, the exception of [**] squaring the coverage ratio.
    (5) With the coverage computed as well, the exception of [**] on the
    cosine of the corner angle or of [math.log2] on the reciprocal of the
    floored corner ratio.  So the sensor, field-of-view, motion, diffraction,
    coverage and appearance computations never divide by zero. *)
Theorem calculate_raises_only `{PyRuntime} (params : gmap string pyval) (e : exn) :
  calculate params = Raise e ->
  (e = OverflowError
   /\ exists key z, params !! key = Some (VInt z) /\ float_of_int z = Raise OverflowError)
  \/ exists s, sensor_stage params = Ok s /\
     ((e = ZeroDivisionError /\ lens_stage params = Raise e
       /\ exists f wd,
            _as_float params ["lens_focal_length_mm"] (Some 0) = Ok f
            /\ _as_float params ["working_distance_mm"] (Some 0) = Ok wd
            /\ _lens_geometry (or_else f 0) (or_else wd 0) = Raise e)
      \/ exists l v m,
           lens_stage params = Ok l /\ fov_stage params s l = Ok v
           /\ motion_stage params v = Ok m /\
         ((e = ZeroDivisionError /\ dof_stage s l = Raise e
           /\ exists c, (0 <? c) = true
                /\ _dof_hyperfocal (f_mm l) (f_stop l) c (working_distance_mm l) = Raise e)
          \/ exists dof d,
               dof_stage s l = Ok dof /\ diffraction_stage s l = Ok d /\
             ((coverage_stage s l v = Raise e
               /\ float_pow (or_else (sensor_diag_mm s) 0 / lens_diag_mm l) 2 = Raise e)
              \/ exists c lri,
                   coverage_stage s l v = Ok c
                   /\ _as_float params ["lens_relative_illumination"] None = Ok lri
                   /\ illumination_stage params s l = Raise e
                   /\ let sd := or_else (sensor_diag_mm s) 0 in
                      let di := di_mm l in
                      ((lri = None /\ is_finite di && (0 <? di) = true
                        /\ float_pow (1 / sqrt (1 + 0.5 * sd / di * (0.5 * sd / di))) 4
                           = Raise e)
                       \/ exists r,
                            corner_ratio_of sd di lri = Ok r /\ (0 <? r) = true
                            /\ math_log2 (1 / py_max r 1e-9) = Raise e)))).
Proof. exact (calculate_raises_cases params e). Qed.

(** * The diffraction metrics *)

(** With a positive pixel pitch and an f-number floored at [1e-9], as
    [calculate] passes them, [_diffraction_sampling_metrics] never raises; the
    floor matters, for without it the product of the wavelength and of a
    tiny f-number underflows to zero and the cutoff division raises. *)
Theorem _diffraction_sampling_metrics_returns (p n : float) :
  (0 <? p) = true ->
  returns (_diffraction_sampling_metrics p (py_max n 1e-9) 0.55) = true
  /\ _diffraction_sampling_metrics 1e-3 1e-323 0.55 = Raise ZeroDivisionError.
Proof.
  intros Hp. split; [|vm_compute; reflexivity].
  unfold _diffraction_sampling_metrics. rewrite Hp.
  rewrite (py_div_pos _ _ (mul_1000_pos p Hp)). cbn [bind].
  rewrite (py_div_pos _ _ (mul_2_pos p Hp)). cbn [bind].
  rewrite guarded_div
    by (intros Hc; apply andb_prop in Hc; destruct Hc as (_ & Hc);
        now apply wavelength_times_f_number).
  cbn [bind]. step_div. reflexivity.
Qed.

(** * Depth of field without an f-number *)

Lemma mul_zero_finite (a b : float) :
  is_zero a = true -> is_finite b = true -> is_zero (a * b) = true.
Proof.
  rewrite !is_zero_Prim2SF, is_finite_Prim2SF, mul_spec. unfold SF64mul.
  destruct (Prim2SF a) as [sa|sa| |sa ma ea]; try discriminate.
  destruct (Prim2SF b) as [sb|sb| |sb mb eb]; try discriminate; reflexivity.
Qed.

Lemma floored_coc_finite (c : float) :
  is_finite c = true -> is_finite (py_max c 1e-12) = true.
Proof. unfold py_max. destruct (c <? 1e-12); [reflexivity|auto]. Qed.

(** With an f-number of zero and a finite circle of confusion
    [_dof_hyperfocal] raises [ZeroDivisionError], whatever the focal length
    and the subject distance. *)
Theorem _dof_hyperfocal_zero_f_number (f n c s : float) :
  is_zero n = true -> is_finite c = true ->
  _dof_hyperfocal f n c s = Raise ZeroDivisionError.
Proof.
  intros Hn Hc. unfold _dof_hyperfocal, py_div.
  now rewrite (mul_zero_finite _ _ Hn (floored_coc_finite c Hc)).
Qed.

Section ZeroFNumber.
Context `{PyRuntime}.

Lemma dof_stage_zero_f_number (s : sensor_locals) (l : lens_locals) :
  is_zero (f_stop l) = true ->
  is_finite (pixel_size_mm_min s) = true \/ (px_w_um s = None /\ px_h_um s = None) ->
  dof_stage s l = Raise ZeroDivisionError.
Proof.
  intros Hn Hp. unfold dof_stage, _dof_hyperfocal, py_div.
  match goal with
  | |- context [py_max ?c 1e-12] =>
      assert (Hc : is_finite c = true); [|now rewrite (mul_zero_finite _ _ Hn
                                                        (floored_coc_finite c Hc))]
  end.
  destruct (is_finite (pixel_size_mm_min s)) eqn:Ef.
  - destruct (0 <? pixel_size_mm_min s); [exact Ef|reflexivity].
  - destruct Hp as [Hp|(-> & ->)]; [discriminate|reflexivity].
Qed.

End ZeroFNumber.

(** For every mapping: when the stages before the depth of field return, the
    f-number read is zero (as it is when [lens_fstop] is missing) and the
    smaller pixel pitch is finite or both pitches are missing, the run raises
    [ZeroDivisionError]. *)
Theorem calculate_zero_f_number_raises `{PyRuntime} (params : gmap string pyval)
    (s : sensor_locals) (l : lens_locals) (v : fov_locals) :
  sensor_stage params = Ok s ->
  lens_stage params = Ok l ->
  fov_stage params s l = Ok v ->
  returns (motion_stage params v) = true ->
  is_zero (f_stop l) = true ->
  is_finite (pixel_size_mm_min s) = true \/ (px_w_um s = None /\ px_h_um s = None) ->
  calculate params = Raise ZeroDivisionError.
Proof.
  intros Hs Hl Hv Hm Hn Hp.
  apply (calculate_raises_in_dof params s l v); try assumption.
  now apply dof_stage_zero_f_number.
Qed.

(** * The corner ratio derived from the geometry *)

(** Without a supplied relative illumination and with a finite positive image
    distance, the corner-to-center ratio of a run is the fourth power (as
    [**] computes it) of the cosine [1 / sqrt(1 + t*t)] of the corner angle,
    [t] being half the sensor diagonal over the image distance; unless the
    diagonal is NaN that cosine lies between 0 and 1. *)
Theorem corner_ratio_from_cosine `{PyRuntime} (params : gmap string pyval) (x : locals) :
  calculate_locals params = Ok x ->
  let sd := or_else (sensor_diag_mm (sensor x)) 0 in
  let di := di_mm (lens x) in
  let t := 0.5 * sd / di in
  let c := 1 / sqrt (1 + t * t) in
  _as_float params ["lens_relative_illumination"] None = Ok None ->
  is_finite di && (0 <? di) = true ->
  float_pow c 4 = Ok (corner_to_center_ratio (illum x))
  /\ (is_nan sd = false -> (0 <=? c) = true /\ (c <=? 1) = true).
Proof.
  intros Hc sd di t c Hv Hd.
  apply calculate_locals_inv in Hc.
  destruct Hc as (_ & _ & _ & _ & _ & _ & _ & Hi & _).
  apply illumination_stage_inv in Hi. destruct Hi as (lri & Hl & Hi).
  rewrite Hl in Hv. inv_Ok Hv.
  apply _illumination_metrics_inv in Hi. destruct Hi as (Hr & _).
  fold sd di in Hr. unfold corner_ratio_of in Hr. rewrite Hd in Hr.
  pose proof (finite_pos_pos_fin di Hd) as Hdi.
  rewrite (py_div_pos _ _ (pos_fin_pos di Hdi)) in Hr. cbn [bind] in Hr.
  fold t in Hr. destruct (cos_theta_total t) as (Hs & Hq).
  rewrite Hs in Hr. cbn [bind] in Hr. rewrite Hq in Hr. cbn [bind] in Hr.
  fold c in Hr. split; [exact Hr|].
  intros Hn.
  assert (Ht : is_nan t = false).
  { apply div_pos_fin_not_nan; [exact Hdi|].
    apply mul_pos_fin_not_nan; [exact pos_fin_half|exact Hn]. }
  destruct (cos_theta_unit t Ht) as (_ & _ & H0 & H1). auto.
Qed.

(** * Coverage *)

(** A run reports the sensor as covered exactly when both diagonals are there
    and not zero and the sensor diagonal does not exceed the lens diagonal:
    the fallback of the coverage test never says yes. *)
Theorem coverage_ok_iff `{PyRuntime} (params : gmap string pyval) (x : locals) :
  calculate_locals params = Ok x ->
  let ld := lens_diag_mm (lens x) in
  (coverage_ok (coverage x) = true <->
   exists d, sensor_diag_mm (sensor x) = Some d /\ truthy d = true
             /\ truthy ld = true /\ (d <=? ld) = true)
  /\ field "coverage_distortion" "coverage_ok" (result_of x)
     = Some (OBool (coverage_ok (coverage x))).
Proof.
  intros Hc ld. split; [|reflexivity].
  apply calculate_locals_inv in Hc.
  destruct Hc as (_ & _ & _ & _ & _ & _ & Hcov & _).
  apply coverage_stage_inv in Hcov. destruct Hcov as (Hok & _).
  fold ld in Hok. rewrite Hok. clear Hok.
  destruct (sensor_diag_mm (sensor x)) as [d|]; simpl.
  - destruct (truthy ld) eqn:El, (truthy d) eqn:Ed; simpl; split;
      try discriminate; try (intros (d' & Hd' & Ht & Hl & Hle); congruence).
    intros Hle. exists d. auto.
  - rewrite andb_false_r. split; [discriminate|]. intros (d' & Hd' & _). discriminate.
Qed.

(** * Outputs that are never negative *)

Lemma py_min_nonneg (a b : float) : nonneg a -> nonneg b -> nonneg (py_min a b).
Proof. unfold py_min. now destruct (b <? a). Qed.

Lemma reciprocal_or_infinity_nonneg (p q : float) :
  (if 0 <? p then py_div 1 p else Ok infinity) = Ok q -> nonneg q.
Proof.
  destruct (0 <? p) eqn:E; intros Hq.
  - rewrite (py_div_pos _ _ E) in Hq. inv_Ok Hq.
    exact (div_pos_fin_pos 1 p pos_fin_1 E).
  - inv_Ok Hq. exact (eq_refl : signed false (Prim2SF infinity)).
Qed.

Lemma py_max_zero_l (y : float) : (0 <=? py_max 0 y) = true.
Proof.
  unfold py_max. destruct (0 <? y) eqn:E; [now apply ltb_leb|reflexivity].
Qed.

(** In every run that returns, the frame period, the exposure bound for one
    pixel of blur, the recommended exposure, the size of a pixel on the object
    along both axes and the vignetting loss are neither negative nor NaN,
    whatever the input. *)
Theorem calculate_nonnegative_outputs `{PyRuntime} (params : gmap string pyval)
    (x : locals) :
  calculate_locals params = Ok x ->
  (0 <=? frame_period_us (motion x)) = true
  /\ (0 <=? max_exposure_us_motion_1px (motion x)) = true
  /\ (0 <=? recommended_exposure_us (motion x)) = true
  /\ (0 <=? mm_per_pixel_x (fov x)) = true
  /\ (0 <=? mm_per_pixel_y (fov x)) = true
  /\ (0 <=? vignetting_loss_percent (illum x)) = true.
Proof.
  intros Hc. apply calculate_locals_inv in Hc.
  destruct Hc as (_ & _ & Hv & He & _ & _ & _ & Hi & _).
  apply fov_stage_inv in Hv. destruct Hv as (_ & _ & _ & _ & _ & Hmx & Hmy & _).
  apply motion_stage_inv in He.
  destruct He as (fps & blur & speed & _ & _ & _ & _ & Hfp & _ & _ & _ & _ & _
                  & _ & Hfr & H1 & Hrec).
  apply illumination_stage_inv in Hi. destruct Hi as (lri & _ & Hi).
  apply _illumination_metrics_inv in Hi. destruct Hi as (_ & _ & _ & Hloss & _).
  pose proof (frame_period_nonneg _ _ Hfp) as Nf.
  assert (N1 : nonneg (max_exposure_us_motion_1px (motion x))).
  { rewrite one_pixel_bound_eq in H1. inv_Ok H1. rewrite <- H1.
    apply one_pixel_bound_nonneg. }
  repeat split.
  - now apply nonneg_leb.
  - now apply nonneg_leb.
  - rewrite Hrec, Hfr. apply nonneg_leb. now apply py_min_nonneg.
  - apply nonneg_leb. exact (reciprocal_or_infinity_nonneg _ _ Hmx).
  - apply nonneg_leb. exact (reciprocal_or_infinity_nonneg _ _ Hmy).
  - rewrite Hloss. apply py_max_zero_l.
Qed.

Lemma calculate_nonnegative_outputs_witness :
  exists x,
    @calculate_locals ref_runtime base_input = Ok x
    /\ (0 <=? recommended_exposure_us (motion x)) = true.
Proof.
  eexists. split; [vm_compute; reflexivity|].
  pose proof (calculate_nonnegative_outputs (H := ref_runtime) base_input _
                ltac:(vm_compute; reflexivity)) as (_ & _ & Hr & _).
  exact Hr.
Defined.

(** * Depth of field beyond the focal length *)

Lemma add_nan_l (x : float) : nan + x = nan.
Proof. apply Prim2SF_inj. rewrite add_spec. reflexivity. Qed.

Lemma leb_nan_l (x : float) : (nan <=? x) = false.
Proof. rewrite FloatAxioms.leb_spec. reflexivity. Qed.

Lemma div_nan_r (x : float) : x / nan = nan.
Proof.
  apply Prim2SF_inj. rewrite div_spec. unfold SF64div.
  rewrite Prim2SF_nan. now destruct (Prim2SF x).
Qed.

Lemma pos_fin_1e_12 : pos_fin 1e-12.
Proof. eexists _, _. reflexivity. Qed.

(** The floored circle of confusion is positive or NaN. *)
Lemma floored_coc_cases (c : float) :
  (0 <? py_max c 1e-12) = true \/ py_max c 1e-12 = nan.
Proof.
  unfold py_max. destruct (c <? 1e-12) eqn:E; [left; reflexivity|].
  destruct (is_nan c) eqn:En; [right; now apply is_nan_eq|left].
  apply (pos_fin_leb_pos 1e-12 c pos_fin_1e_12).
  now apply nltb_leb.
Qed.

(** An f-number of one at least times a positive number is positive. *)
Lemma f_number_times_pos (n c : float) :
  (1 <=? n) = true -> (0 <? c) = true -> (0 <? n * c) = true.
Proof.
  intros Hn Hc. destruct (leb_one_cases n Hn) as [En|(mn & en & En & Hge)].
  - rewrite FloatAxioms.ltb_spec, mul_spec, En, Prim2SF_zero.
    destruct (ltb_0_cases c Hc) as [(mc & ec & ->)| ->]; reflexivity.
  - destruct (ge_one_normal mn en (valid_finite _ _ _ _ En) Hge) as (He & Hd & _).
    exact (proj2 (mul_pos_ge_one c n mn en En ltac:(lia) Hc)).
Qed.

(** The quotient of a number that is not negative by a positive one is not
    negative, but it can be NaN. *)
Lemma div_nonneg_pos (a b : float) :
  nonneg a -> (0 <? b) = true -> nonneg (a / b) \/ is_nan (a / b) = true.
Proof.
  unfold nonneg. intros Ha Hb. rewrite is_nan_Prim2SF, div_spec. unfold SF64div.
  destruct (Prim2SF a) as [sa|sa| |sa ma ea]; simpl in Ha; try tauto; subst sa;
    destruct (ltb_0_cases b Hb) as [(mb & eb & ->)| ->];
    try (left; reflexivity); try (right; reflexivity).
  left. exact (SFdiv_signed false false ma mb ea eb).
Qed.

(** The first quotient of the hyperfocal distance is not negative or it is
    NaN, and its division does not raise. *)
Lemma hyperfocal_quotient (f n c : float) :
  (0 <? f) = true -> (1 <=? n) = true ->
  is_zero (n * py_max c 1e-12) = false
  /\ (nonneg (f * f / (n * py_max c 1e-12))
      \/ f * f / (n * py_max c 1e-12) = nan).
Proof.
  intros Hf Hn. destruct (floored_coc_cases c) as [Hc| ->].
  - pose proof (f_number_times_pos n _ Hn Hc) as Hp.
    split; [now apply ltb_0_not_zero|].
    destruct (div_nonneg_pos (f * f) _
                (square_nonneg f (proj2 (ltb_not_nan _ _ Hf))) Hp) as [Hq|Hq];
      [now left|right; now apply is_nan_eq].
  - rewrite mul_nan_r, div_nan_r. split; [reflexivity|now right].
Qed.

(** None of the three divisors of [_dof_hyperfocal] is zero beyond a positive
    focal length with an f-number of one at least. *)
Lemma _dof_hyperfocal_total (f n c s : float) :
  (0 <? f) = true -> (f <? s) = true -> is_finite s = true -> (1 <=? n) = true ->
  exists d, _dof_hyperfocal f n c s = Ok d.
Proof.
  intros Hf Hfs Hs Hn.
  destruct (between_pos_fin f s Hf Hfs Hs) as (Pf & Ps).
  destruct (hyperfocal_quotient f n c Hf Hn) as (Hz & Hq).
  unfold _dof_hyperfocal, py_div. rewrite Hz. cbn [bind].
  set (h0 := f * f / (n * py_max c 1e-12)) in *.
  destruct Hq as [Hq|Hq].
  - (* the hyperfocal distance is positive *)
    destruct (add_nonneg_pos_fin h0 f Hq Pf) as (HH & _).
    pose proof (sub_pos_fin s f Pf Ps Hfs) as Pd.
    destruct (add_nonneg_pos_fin (h0 + f) (s - f) (ltb_0_nonneg _ HH) Pd) as (_ & Hz1).
    rewrite Hz1. cbn [bind].
    destruct (h0 + f <=? s) eqn:Hle; [eauto|].
    assert (Hz2 : is_zero (h0 + f - (s - f)) = false).
    { apply sub_not_zero. destruct (h0 + f <=? s - f) eqn:E; [|reflexivity].
      rewrite (leb_trans _ _ _ E (sub_pos_fin_le f s Pf Ps Hfs)) in Hle. discriminate. }
    rewrite Hz2. cbn [bind]. eauto.
  - (* the hyperfocal distance is NaN *)
    rewrite Hq, !add_nan_l, leb_nan_l, sub_nan_l.
    change (is_zero nan) with false. cbn [bind]. eauto.
Qed.

(** For a positive focal length, a finite subject distance beyond it and an
    f-number of one at least, [_dof_hyperfocal] returns, whatever the circle
    of confusion: none of its three divisors is zero. *)
Theorem _dof_hyperfocal_returns (f n c s : float) :
  (0 <? f) = true -> (f <? s) = true -> is_finite s = true -> (1 <=? n) = true ->
  returns (_dof_hyperfocal f n c s) = true.
Proof.
  intros Hf Hfs Hs Hn.
  destruct (_dof_hyperfocal_total f n c s Hf Hfs Hs Hn) as (d & ->). reflexivity.
Qed.


(** * Worked instances of the further properties *)

Lemma _as_float_all_passed_over_witness :
  @_as_float ref_runtime unusable_input ["a"; "b"; "c"; "d"] (Some 1.5) = Ok (Some 1.5).
Proof.
  apply (_as_float_all_passed_over (H := ref_runtime)).
  intros key [<-|[<-|[<-|[<-|[]]]]]; vm_compute; reflexivity.
Defined.

Lemma _as_float_raises_only_overflow_witness :
  @_as_float ref_runtime overflowing_input ["a"; "b"] None = Raise OverflowError
  /\ exists key z, In key ["a"; "b"] /\ overflowing_input !! key = Some (VInt z)
                   /\ float_of_int z = Raise OverflowError.
Proof.
  assert (Hr : @_as_float ref_runtime overflowing_input ["a"; "b"] None
               = Raise OverflowError) by (vm_compute; reflexivity).
  split; [exact Hr|].
  exact (proj2 (_as_float_raises_only_overflow (H := ref_runtime) _ _ _ _ Hr)).
Defined.

Lemma _sensor_pixels_square_witness :
  (0 <? or_else (Some 3.45) 0 / 1000) = true
  /\ (or_else None 0 / 1000 <=? 0) = true
  /\ _sensor_pixels 11.3 7.1 (Some 3.45) None
     = Ok (11.3 / (or_else (Some 3.45) 0 / 1000), 7.1 / (or_else (Some 3.45) 0 / 1000)).
Proof.
  split; [reflexivity|]. split; [reflexivity|].
  exact (proj1 (_sensor_pixels_square 11.3 7.1 (Some 3.45) None) eq_refl eq_refl).
Defined.

Lemma frame_counts_bracket_witness :
  exists x,
    @calculate_locals ref_runtime base_input = Ok x
    /\ (frames_min (appearances x) <= frames_max (appearances x)
        <= frames_min (appearances x) + 1)%Z.
Proof.
  eexists. split.
  - vm_compute. reflexivity.
  - exact (proj1 (frame_counts_bracket (H := ref_runtime) base_input _
                    ltac:(vm_compute; reflexivity))).
Defined.

Lemma regime_agrees_with_flag_witness :
  exists x,
    @calculate_locals ref_runtime stopped_down_input = Ok x
    /\ sampling_regime (diffraction x) = "optics-limited (diffraction)"
    /\ diffraction_dominant (flags x) = true.
Proof.
  eexists. split; [vm_compute; reflexivity|]. split; [reflexivity|].
  exact (proj1 (regime_agrees_with_flag (H := ref_runtime) stopped_down_input _
                  ltac:(vm_compute; reflexivity)) eq_refl).
Defined.

Lemma inside_focal_length_unbounded_field_witness :
  exists x,
    @calculate_locals ref_runtime close_input = Ok x
    /\ (working_distance_mm (lens x) <=? f_mm (lens x)) = true
    /\ fov_w_mm (fov x) = infinity.
Proof.
  eexists. split; [vm_compute; reflexivity|]. split; [reflexivity|].
  pose proof (inside_focal_length_unbounded_field (H := ref_runtime) close_input _
                ltac:(vm_compute; reflexivity) eq_refl) as (_ & _ & Hw & _).
  exact Hw.
Defined.

Lemma object_at_rest_exposure_witness :
  exists x,
    @calculate_locals ref_runtime still_input = Ok x
    /\ (object_speed_mm_s (motion x) <=? 0) = true
    /\ recommended_exposure_us (motion x) = frame_period_us (motion x).
Proof.
  eexists. split; [vm_compute; reflexivity|]. split; [reflexivity|].
  pose proof (object_at_rest_exposure (H := ref_runtime) still_input _
                ltac:(vm_compute; reflexivity) eq_refl) as (_ & _ & Hr & _).
  exact Hr.
Defined.

Lemma calculate_raises_only_witness :
  @calculate ref_runtime ∅ = Raise ZeroDivisionError
  /\ exists s l v m,
       @sensor_stage ref_runtime ∅ = Ok s /\ @lens_stage ref_runtime ∅ = Ok l
       /\ @fov_stage ref_runtime ∅ s l = Ok v /\ @motion_stage ref_runtime ∅ v = Ok m
       /\ dof_stage s l = Raise ZeroDivisionError
       /\ exists c, (0 <? c) = true
            /\ _dof_hyperfocal (f_mm l) (f_stop l) c (working_distance_mm l)
               = Raise ZeroDivisionError.
Proof.
  assert (Hr : @calculate ref_runtime ∅ = Raise ZeroDivisionError)
    by (vm_compute; reflexivity).
  split; [exact Hr|].
  destruct (calculate_raises_only (H := ref_runtime) ∅ ZeroDivisionError Hr)
    as [(Ho & _)|(s & Hs & [(_ & Hg & _)|(l & v & m & Hl & Hv & Hm &
          [(_ & Hd & Hc)|(dof & d & Hd & _)])])].
  - discriminate Ho.
  - vm_compute in Hg. discriminate Hg.
  - exists s, l, v, m. auto 6.
  - exfalso. vm_compute in Hs. injection Hs as <-.
    vm_compute in Hl. injection Hl as <-. vm_compute in Hd. discriminate Hd.
Defined.

Lemma _diffraction_sampling_metrics_returns_witness :
  (0 <? 3.45e-3) = true
  /\ returns (_diffraction_sampling_metrics 3.45e-3 (py_max 2.8 1e-9) 0.55) = true.
Proof.
  split; [reflexivity|].
  exact (proj1 (_diffraction_sampling_metrics_returns 3.45e-3 2.8 eq_refl)).
Defined.

Lemma _dof_hyperfocal_zero_f_number_witness :
  is_zero 0 = true /\ is_finite 1e-3 = true
  /\ _dof_hyperfocal 16 0 1e-3 200 = Raise ZeroDivisionError.
Proof.
  split; [reflexivity|]. split; [reflexivity|].
  exact (_dof_hyperfocal_zero_f_number 16 0 1e-3 200 eq_refl eq_refl).
Defined.

Lemma calculate_zero_f_number_raises_witness :
  @calculate ref_runtime scenario_without_fstop = Raise ZeroDivisionError.
Proof.
  eapply (calculate_zero_f_number_raises (H := ref_runtime)).
  - vm_compute. reflexivity.
  - vm_compute. reflexivity.
  - vm_compute. reflexivity.
  - vm_compute. reflexivity.
  - reflexivity.
  - left. reflexivity.
Defined.

Lemma corner_ratio_from_cosine_witness :
  exists x,
    @calculate_locals ref_runtime full_input = Ok x
    /\ @_as_float ref_runtime full_input ["lens_relative_illumination"] None = Ok None
    /\ is_finite (di_mm (lens x)) && (0 <? di_mm (lens x)) = true
    /\ (let t := 0.5 * or_else (sensor_diag_mm (sensor x)) 0 / di_mm (lens x) in
        (1 / sqrt (1 + t * t) <=? 1) = true).
Proof.
  eexists. split; [vm_compute; reflexivity|]. split; [reflexivity|].
  split; [reflexivity|].
  pose proof (corner_ratio_from_cosine (H := ref_runtime) full_input _
                ltac:(vm_compute; reflexivity) eq_refl eq_refl) as (_ & Hc).
  exact (proj2 (Hc eq_refl)).
Defined.

Lemma coverage_ok_iff_witness :
  exists x,
    @calculate_locals ref_runtime covered_input = Ok x
    /\ coverage_ok (coverage x) = true
    /\ exists d, sensor_diag_mm (sensor x) = Some d /\ truthy d = true
                 /\ truthy (lens_diag_mm (lens x)) = true
                 /\ (d <=? lens_diag_mm (lens x)) = true.
Proof.
  eexists. split; [vm_compute; reflexivity|]. split; [reflexivity|].
  exact (proj1 (proj1 (coverage_ok_iff (H := ref_runtime) covered_input _
                         ltac:(vm_compute; reflexivity))) eq_refl).
Defined.

Lemma _dof_hyperfocal_returns_witness :
  (0 <? 16) = true /\ (16 <? 200) = true /\ is_finite 200 = true /\ (1 <=? 2.8) = true
  /\ returns (_dof_hyperfocal 16 2.8 3.45e-3 200) = true.
Proof.
  repeat (split; [reflexivity|]).
  exact (_dof_hyperfocal_returns 16 2.8 3.45e-3 200 eq_refl eq_refl eq_refl eq_refl).
Defined.


(** * C5: the corner-to-center ratio *)

(** The reference runtime's [**] keeps fourth powers inside the unit
    interval. *)
Lemma ref_pow_keeps_unit_interval : @pow_keeps_unit_interval ref_runtime.
Proof. intros c r H0 H1 Hr. exact (ref_pow_unit c r H0 H1 Hr). Qed.

(** C5 (as amended).  A supplied relative-illumination figure above 1.5 is
    divided by 100 and the figure is clamped; unless the figure is NaN, the
    ratio reported lies between 0 and 1.  Without a figure the ratio is 1 when
    the image distance is not finite or not positive, and otherwise the
    fourth power, as [**] computes it, of the cosine [1 / sqrt(1 + t*t)] of
    the corner angle, [t] being half the sensor diagonal over the image
    distance; unless the sensor diagonal is NaN the cosine lies between 0 and
    1, and so does the ratio when [**] keeps fourth powers inside the unit
    interval.  So the ratio reported lies between 0 and 1 unless the figure
    supplied or, without a figure, the sensor diagonal is NaN. *)
Theorem corner_ratio_in_unit_interval `{PyRuntime}
    (params : gmap string pyval) (x : locals) :
  calculate_locals params = Ok x ->
  let r := corner_to_center_ratio (illum x) in
  let di := di_mm (lens x) in
  let sd := or_else (sensor_diag_mm (sensor x)) 0 in
  let c := 1 / sqrt (1 + 0.5 * sd / di * (0.5 * sd / di)) in
  field "illumination" "corner_to_center_ratio" (result_of x) = Some (OFloat r)
  /\ (forall v,
        _as_float params ["lens_relative_illumination"] None = Ok (Some v) ->
        r = py_max (py_min (if 1.5 <? v then v / 100 else v) 1) 0
        /\ (is_nan v = false -> (0 <=? r) = true /\ (r <=? 1) = true))
  /\ (_as_float params ["lens_relative_illumination"] None = Ok None ->
      is_finite di && (0 <? di) = false -> r = 1)
  /\ (_as_float params ["lens_relative_illumination"] None = Ok None ->
      is_finite di && (0 <? di) = true ->
      float_pow c 4 = Ok r
      /\ (is_nan sd = false ->
          (0 <=? c) = true /\ (c <=? 1) = true
          /\ (pow_keeps_unit_interval -> (0 <=? r) = true /\ (r <=? 1) = true)))
  /\ (pow_keeps_unit_interval ->
      (forall v, _as_float params ["lens_relative_illumination"] None = Ok (Some v) ->
                 is_nan v = false) ->
      (_as_float params ["lens_relative_illumination"] None = Ok None ->
       is_nan sd = false) ->
      (0 <=? r) = true /\ (r <=? 1) = true).
Proof.
  intros Hc r di sd c.
  apply calculate_locals_inv in Hc.
  destruct Hc as (_ & _ & _ & _ & _ & _ & _ & Hi & _).
  apply illumination_stage_inv in Hi. destruct Hi as (lri & Hl & Hi).
  apply _illumination_metrics_inv in Hi. destruct Hi as (Hr & _).
  fold r in Hr. fold di in Hr. fold sd in Hr.
  assert (Hsupplied : forall v, lri = Some v ->
            r = py_max (py_min (if 1.5 <? v then v / 100 else v) 1) 0
            /\ (is_nan v = false -> (0 <=? r) = true /\ (r <=? 1) = true)).
  { intros v ->. simpl in Hr. inv_Ok Hr.
    split; [congruence|]. intros Hn. rewrite <- Hr. apply clamp_unit.
    destruct (1.5 <? v); [|exact Hn].
    apply div_pos_fin_not_nan; [exact pos_fin_100|exact Hn]. }
  assert (Hnear : lri = None -> is_finite di && (0 <? di) = false -> r = 1).
  { intros -> Hd. simpl in Hr. rewrite Hd in Hr. now inv_Ok Hr. }
  assert (Hderived : lri = None -> is_finite di && (0 <? di) = true ->
            float_pow c 4 = Ok r
            /\ (is_nan sd = false ->
                (0 <=? c) = true /\ (c <=? 1) = true
                /\ (pow_keeps_unit_interval -> (0 <=? r) = true /\ (r <=? 1) = true))).
  { intros -> Hd. unfold corner_ratio_of in Hr. rewrite Hd in Hr.
    pose proof (finite_pos_pos_fin di Hd) as Hdi.
    rewrite (py_div_pos _ _ (pos_fin_pos di Hdi)) in Hr. cbn [bind] in Hr.
    destruct (cos_theta_total (0.5 * sd / di)) as (Hs & Hq).
    rewrite Hs in Hr. cbn [bind] in Hr. rewrite Hq in Hr. cbn [bind] in Hr.
    fold c in Hr. split; [exact Hr|].
    intros Hn.
    assert (Ht : is_nan (0.5 * sd / di) = false).
    { apply div_pos_fin_not_nan; [exact Hdi|].
      apply mul_pos_fin_not_nan; [exact pos_fin_half|exact Hn]. }
    destruct (cos_theta_unit _ Ht) as (_ & _ & H0 & H1). fold c in H0, H1.
    split; [exact H0|]. split; [exact H1|].
    intros Hp. exact (Hp c r H0 H1 Hr). }
  split; [reflexivity|].
  split; [intros v Hv; rewrite Hl in Hv; inv_Ok Hv; now apply Hsupplied|].
  split; [intros Hv; rewrite Hl in Hv; inv_Ok Hv; now apply Hnear|].
  split; [intros Hv; rewrite Hl in Hv; inv_Ok Hv; now apply Hderived|].
  intros Hp Hfig Hdiag. destruct lri as [v|].
  - destruct (Hsupplied v eq_refl) as (_ & Hu). apply Hu, Hfig. exact Hl.
  - destruct (is_finite di && (0 <? di)) eqn:Ed.
    + destruct (Hderived eq_refl eq_refl) as (_ & Hu).
      destruct (Hu (Hdiag Hl)) as (_ & _ & Hu'). exact (Hu' Hp).
    + rewrite (Hnear eq_refl eq_refl). split; reflexivity.
Qed.

(** C5, witness: a supplied figure of one half, and the ratio derived for the
    sensor diagonal of 10 mm. *)
Lemma corner_ratio_in_unit_interval_witness :
  (exists x,
     @calculate_locals ref_runtime lit_input = Ok x
     /\ @_as_float ref_runtime lit_input ["lens_relative_illumination"] None
        = Ok (Some 0.5)
     /\ is_nan 0.5 = false
     /\ (0 <=? corner_to_center_ratio (illum x)) = true
     /\ (corner_to_center_ratio (illum x) <=? 1) = true)
  /\ exists x,
       @calculate_locals ref_runtime diag_input = Ok x
       /\ @_as_float ref_runtime diag_input ["lens_relative_illumination"] None
          = Ok None
       /\ is_finite (di_mm (lens x)) && (0 <? di_mm (lens x)) = true
       /\ is_nan (or_else (sensor_diag_mm (sensor x)) 0) = false
       /\ @pow_keeps_unit_interval ref_runtime
       /\ (0 <=? corner_to_center_ratio (illum x)) = true
       /\ (corner_to_center_ratio (illum x) <=? 1) = true.
Proof.
  split.
  - eexists. split; [vm_compute; reflexivity|].
    split; [reflexivity|]. split; [reflexivity|].
    pose proof (corner_ratio_in_unit_interval (H := ref_runtime) lit_input _
                  ltac:(vm_compute; reflexivity)) as (_ & Hs & _).
    destruct (Hs 0.5 eq_refl) as (_ & Hr). exact (Hr eq_refl).
  - eexists. split; [vm_compute; reflexivity|].
    split; [reflexivity|]. split; [vm_compute; reflexivity|].
    split; [vm_compute; reflexivity|].
    split; [exact ref_pow_keeps_unit_interval|].
    pose proof (corner_ratio_in_unit_interval (H := ref_runtime) diag_input _
                  ltac:(vm_compute; reflexivity)) as (_ & _ & _ & Hd & _).
    destruct (Hd eq_refl ltac:(vm_compute; reflexivity)) as (_ & Hu).
    destruct (Hu ltac:(vm_compute; reflexivity)) as (_ & _ & Hr).
    exact (Hr ref_pow_keeps_unit_interval).
Defined.

(** C5, counterexample: a supplied figure that is not a number passes the
    clamp, and the ratio reported is NaN, outside of [0, 1]; without a figure,
    a sensor diagonal that is not a number gives the ratio NaN as well, and a
    sensor diagonal of [1e200] mm gives the derived ratio 0, outside of
    (0, 1]. *)
Lemma corner_ratio_nan :
  (exists r,
     @calculate ref_runtime nan_lit_input = Ok r
     /\ field "illumination" "corner_to_center_ratio" r = Some (OFloat nan)
     /\ (0 <=? nan) = false /\ (nan <=? 1) = false)
  /\ (exists r,
        @calculate ref_runtime nan_diag_input = Ok r
        /\ nan_diag_input !! "lens_relative_illumination" = None
        /\ field "illumination" "corner_to_center_ratio" r = Some (OFloat nan))
  /\ (exists r,
        @calculate ref_runtime huge_diag_input = Ok r
        /\ huge_diag_input !! "lens_relative_illumination" = None
        /\ field "lens_geometry" "image_distance_mm" r
           = Some (OFloat 17.391304347826086)
        /\ field "illumination" "corner_to_center_ratio" r = Some (OFloat 0)
        /\ (0 <? 0) = false).
Proof.
  split; [|split].
  - eexists. split; [vm_compute; reflexivity|]. repeat split.
  - eexists. split; [vm_compute; reflexivity|]. repeat split.
  - eexists. split; [vm_compute; reflexivity|]. repeat split.
Qed.
